(** * A shallow embedding of the glTF decoder (decoder.go, struct.go)

    Go values are carried as follows.
    - [string] and [[]byte] are both byte sequences: [bytes = list byte].
    - [uint32] is a [Z] in [0, 2^32); its arithmetic wraps ([u32]).
      [int] is a [Z] (the 64-bit [int] of the usual targets; no computation
      of the decoder leaves its range).
    - [float64] is Rocq's primitive binary64 [float]; Go's [==] on it is
      [PrimFloat.eqb].
    - a Go [error] is a value of [error]; [nil] is [None].
    - a pointer used as an optional value ([*uint32], [*float64]) is an
      [option]; a Go [map] is a [gmap].
    - [io.Reader]s are scripts of the results of their successive [Read]
      calls; the decoder's effects on the outside world (calls of the
      resource callback, closing of streams) are appended to a [trace]. *)

From Stdlib Require Import ZArith List Bool Lia.
From Stdlib Require Import Strings.String Strings.Ascii Strings.Byte.
From Stdlib Require Import Floats.
From stdpp Require Import gmap strings.

Local Open Scope Z_scope.
Set Warnings "-register-all".

(* ===================================================================== *)
(** * Part I: definitions                                                  *)
(* ===================================================================== *)

(** ** Byte sequences *)

Definition bytes := list byte.

(** [B "text"] is the byte sequence of a Go string literal. *)
Definition B (s : string) : bytes := list_byte_of_string s.

(** [J "text"] is the same, with every apostrophe standing for a double
    quote: [J "{'a':1}"] is the JSON text of an object with one member. *)
Definition J (s : string) : bytes :=
  map (fun c => if Byte.eqb c x27 then x22 else c) (list_byte_of_string s).

#[global] Instance byte_eq_dec : EqDecision byte := Byte.byte_eq_dec.

#[global] Instance byte_countable : Countable byte.
Proof.
  refine (inj_countable' Byte.to_N (fun n => default x00 (Byte.of_N n)) _).
  intros b. by rewrite Byte.of_to_N.
Defined.

(** [len(s)] as a Go [int]. *)
Definition len {A} (l : list A) : Z := Z.of_nat (length l).

(** [uint32] wrap-around. *)
Definition u32 (z : Z) : Z := z mod 2 ^ 32.

(** [strings.HasPrefix]. *)
Fixpoint HasPrefix (s prefix : bytes) {struct prefix} : bool :=
  match prefix, s with
  | [], _ => true
  | p :: prefix', c :: s' => Byte.eqb c p && HasPrefix s' prefix'
  | _ :: _, [] => false
  end.

(** [strings.Contains]: [substr] occurs in [s] at some offset. *)
Fixpoint Contains (s substr : bytes) : bool :=
  HasPrefix s substr ||
  match s with
  | [] => false
  | _ :: s' => Contains s' substr
  end.

(** ** Errors *)

Inductive error : Type :=
| errorString (msg : string)            (* errors.New(msg), fmt.Errorf *)
| io_EOF
| io_ErrUnexpectedEOF
| io_ErrNoProgress
| bufio_ErrBufferFull
| CorruptInputError (offset : Z)        (* encoding/base64 *)
| json_SyntaxError
| json_UnmarshalTypeError (field : string)
| json_UnsupportedValueError
| runtime_panic (msg : string).         (* a run-time panic unwinding the call *)

(** What a call that may panic does: it returns or it panics. *)
Inductive outcome (A : Type) : Type :=
| Returns (a : A)
| Panics (msg : string).
Arguments Returns {A} a.
Arguments Panics {A} msg.

(** ** decoder.go: validateBufferURI *)

Definition validateBufferURI (uri : bytes) : option error :=
  if bool_decide (uri = []) || Contains uri (B "..")
     || HasPrefix uri (B "/") || HasPrefix uri (B "\")
  then Some (errorString ("gltf: Invalid buffer.uri value '" +:+
                          string_of_list_byte uri +:+ "'"))
  else None.

(** ** encoding/base64: StdEncoding.DecodeString

    The standard alphabet with [=] padding, not strict.  [b64_loop] is the
    loop of [Encoding.Decode] with [decodeQuantum] inlined: [si] is the
    index of the next source byte, [j] the number of sextets of the current
    quantum collected in [dbuf], [out] the bytes decoded so far.  (The
    8- and 4-byte fast paths of [Decode] decode the same bytes and fall
    back to [decodeQuantum] on anything unusual.)  [total] is [len(src)]. *)

Definition byte_to_Z (c : byte) : Z := Z.of_N (Byte.to_N c).
Definition byte_of_Z (z : Z) : byte := default x00 (Byte.of_N (Z.to_N (z mod 256))).

Definition decodeMap (c : byte) : option Z :=
  let n := byte_to_Z c in
  if (65 <=? n) && (n <=? 90) then Some (n - 65)          (* A-Z *)
  else if (97 <=? n) && (n <=? 122) then Some (n - 71)    (* a-z *)
  else if (48 <=? n) && (n <=? 57) then Some (n + 4)      (* 0-9 *)
  else if n =? 43 then Some 62                            (* + *)
  else if n =? 47 then Some 63                            (* / *)
  else None.

Definition isNewline (c : byte) : bool := Byte.eqb c x0a || Byte.eqb c x0d.
Definition padChar : byte := x3d.

(** [for si < len(src) && (src[si] == '\n' || src[si] == '\r') { si++ }] *)
Fixpoint skipNewlines (src : bytes) (si : Z) : bytes * Z :=
  match src with
  | c :: src' => if isNewline c then skipNewlines src' (si + 1) else (src, si)
  | [] => ([], si)
  end.

(** "Convert 4x 6bit source bytes into 3 bytes": the first [dlen - 1] bytes
    of the 24-bit value. *)
Definition quantumBytes (dbuf : list Z) (dlen : nat) : bytes :=
  let val := Z.lor (Z.lor (Z.shiftl (nth 0 dbuf 0) 18) (Z.shiftl (nth 1 dbuf 0) 12))
                   (Z.lor (Z.shiftl (nth 2 dbuf 0) 6) (nth 3 dbuf 0)) in
  firstn (dlen - 1)
    [byte_of_Z (Z.shiftr val 16); byte_of_Z (Z.shiftr val 8); byte_of_Z val].

Fixpoint b64_loop (total : Z) (src : bytes) (si : Z) (j : nat) (dbuf : list Z)
    (out : bytes) {struct src} : bytes * option error :=
  match src with
  | [] =>
      match j with
      | O => (out, None)
      | _ => (out, Some (CorruptInputError (si - Z.of_nat j)))
      end
  | c :: src' =>
      let si' := si + 1 in
      match decodeMap c with
      | Some v =>
          let dbuf' := dbuf ++ [v] in
          if Nat.eqb j 3
          then b64_loop total src' si' 0 [] (out ++ quantumBytes dbuf' 4)
          else b64_loop total src' si' (S j) dbuf' out
      | None =>
          if isNewline c then b64_loop total src' si' j dbuf out
          else if negb (Byte.eqb c padChar)
          then (out, Some (CorruptInputError (si' - 1)))
          else
            (* "We've reached the end and there's padding" *)
            match j with
            | O | S O => (out, Some (CorruptInputError (si' - 1)))
            | _ =>
                let second :=
                  if Nat.eqb j 2 then
                    let '(s1, i1) := skipNewlines src' si' in
                    match s1 with
                    | [] => inl (CorruptInputError total)
                    | c2 :: s2 =>
                        if negb (Byte.eqb c2 padChar)
                        then inl (CorruptInputError (i1 - 1))
                        else inr (s2, i1 + 1)
                    end
                  else inr (src', si') in
                match second with
                | inl e => (out, Some e)
                | inr (s3, i3) =>
                    let '(s4, i4) := skipNewlines s3 i3 in
                    (out ++ quantumBytes dbuf j,
                     match s4 with
                     | [] => None
                     | _ :: _ => Some (CorruptInputError i4)  (* trailing garbage *)
                     end)
                end
            end
      end
  end.

Definition DecodeString (s : bytes) : bytes * option error :=
  b64_loop (len s) s 0 0 [] [].

(** ** io.Reader

    A reader is the script of what its successive [Read] calls deliver:
    each entry holds the bytes that call has ready and the error it
    returns with them.  A [Read] into [k] bytes of room takes at most [k]
    bytes of the entry at the head; what does not fit stays for the next
    call.  An exhausted script returns [0, io.EOF]. *)

Record readEvent := ReadEvent { ev_data : bytes; ev_err : option error }.

Definition Reader := list readEvent.

Definition Reader_Read (r : Reader) (k : nat) : (bytes * option error) * Reader :=
  match r with
  | [] => (([], Some io_EOF), [])
  | ev :: r' =>
      if (length (ev_data ev) <=? k)%nat
      then ((ev_data ev, ev_err ev), r')
      else ((firstn k (ev_data ev), None),
            ReadEvent (skipn k (ev_data ev)) (ev_err ev) :: r')
  end.

(** [make([]uint8, n)]. *)
Definition make (n : Z) : bytes := repeat x00 (Z.to_nat n).

(** The contents of [p] after a [Read(p)] that stored [data] at its front. *)
Definition stored (data p : bytes) : bytes := data ++ skipn (length data) p.

(** ** bufio.Reader

    [b_buf] is the unread part [b.buf[b.r:b.w]] of the buffer, [b_rd] the
    underlying reader, [b_err] the pending error [b.err]. *)

Record bufio_Reader := BufioReader {
  b_buf : bytes;
  b_rd : Reader;
  b_err : option error
}.

Definition defaultBufSize : nat := 4096.
Definition maxConsecutiveEmptyReads : nat := 100.

Definition bufio_NewReader (rd : Reader) : bufio_Reader := BufioReader [] rd None.

(** [b.fill()]: one non-empty read of the underlying reader into the free
    part of the buffer, trying at most [maxConsecutiveEmptyReads] times. *)
Fixpoint fill_loop (i : nat) (b : bufio_Reader) : bufio_Reader :=
  match i with
  | O => BufioReader (b_buf b) (b_rd b) (Some io_ErrNoProgress)
  | S i' =>
      let '((data, err), rd') :=
        Reader_Read (b_rd b) (defaultBufSize - length (b_buf b)) in
      let b' := BufioReader (b_buf b ++ data) rd' (b_err b) in
      match err with
      | Some e => BufioReader (b_buf b') rd' (Some e)
      | None =>
          match data with
          | _ :: _ => b'
          | [] => fill_loop i' b'
          end
      end
  end.

Definition bufio_fill (b : bufio_Reader) : bufio_Reader :=
  fill_loop maxConsecutiveEmptyReads b.

(** [b.readErr()]: report the pending error and clear it. *)
Definition readErr (b : bufio_Reader) : option error * bufio_Reader :=
  (b_err b, BufioReader (b_buf b) (b_rd b) None).

(** The loop of [Peek]: fill while fewer than [n] bytes are buffered, the
    buffer is not full and no error is pending.  Every round that does not
    set [b.err] adds a byte, so [n] rounds are enough. *)
Fixpoint peek_loop (fuel : nat) (n : nat) (b : bufio_Reader) : bufio_Reader :=
  match fuel with
  | O => b
  | S fuel' =>
      if (length (b_buf b) <? n)%nat && (length (b_buf b) <? defaultBufSize)%nat
         && bool_decide (b_err b = None)
      then peek_loop fuel' n (bufio_fill b)
      else b
  end.

Definition bufio_Peek (b : bufio_Reader) (n : nat)
    : (bytes * option error) * bufio_Reader :=
  let b1 := peek_loop n n b in
  if (defaultBufSize <? n)%nat then ((b_buf b1, Some bufio_ErrBufferFull), b1)
  else if (length (b_buf b1) <? n)%nat then
    let '(err, b2) := readErr b1 in
    ((b_buf b1, Some (default bufio_ErrBufferFull err)), b2)
  else ((firstn n (b_buf b1), None), b1).

(** [b.Read(p)] with [len(p) = k]: bytes come from at most one [Read] of
    the underlying reader, so fewer than [k] may be returned. *)
Definition bufio_Read (b : bufio_Reader) (k : nat)
    : (bytes * option error) * bufio_Reader :=
  match k with
  | O =>
      match b_buf b with
      | _ :: _ => (([], None), b)
      | [] => let '(err, b') := readErr b in (([], err), b')
      end
  | S _ =>
      match b_buf b with
      | [] =>
          match b_err b with
          | Some _ => let '(err, b') := readErr b in (([], err), b')
          | None =>
              if (defaultBufSize <=? k)%nat then
                (* large read, empty buffer: read directly into p *)
                let '((data, err), rd') := Reader_Read (b_rd b) k in
                let '(err', b') := readErr (BufioReader [] rd' err) in
                ((data, err'), b')
              else
                (* one read *)
                let '((data, err), rd') := Reader_Read (b_rd b) defaultBufSize in
                match data with
                | [] =>
                    let '(err', b') := readErr (BufioReader [] rd' err) in
                    (([], err'), b')
                | _ :: _ =>
                    ((firstn k data, None), BufioReader (skipn k data) rd' err)
                end
          end
      | _ :: _ =>
          ((firstn k (b_buf b), None),
           BufioReader (skipn k (b_buf b)) (b_rd b) (b_err b))
      end
  end.

(** [io.ReadFull(d.r, buf)] with [len(buf) = k], as [binary.Read] calls it:
    [Read] until [k] bytes are there or an error comes.  [got] is the part
    already read.  Every round reads a byte, uses up an entry of the
    underlying script or ends the loop, so [k + length script + 1] rounds
    are enough. *)
Fixpoint ReadFull_loop (fuel : nat) (b : bufio_Reader) (k : nat) (got : bytes)
    : (bytes * option error) * bufio_Reader :=
  match fuel with
  | O => ((got, Some io_ErrNoProgress), b)
  | S fuel' =>
      if (k <=? length got)%nat then ((got, None), b)
      else
        let '((data, err), b') := bufio_Read b (k - length got) in
        let got' := got ++ data in
        match err with
        | None => ReadFull_loop fuel' b' k got'
        | Some e =>
            if (k <=? length got')%nat then ((got', None), b')
            else match got', e with
                 | _ :: _, io_EOF => ((got', Some io_ErrUnexpectedEOF), b')
                 | _, _ => ((got', Some e), b')
                 end
        end
  end.

Definition io_ReadFull (b : bufio_Reader) (k : nat)
    : (bytes * option error) * bufio_Reader :=
  ReadFull_loop (k + length (b_rd b) + 2) b k [].

(** ** The GLB container header *)

(** The constants and the header types are declared in a file of the
    package that is not among the sources; they are taken from the spec. *)

(** Modelled from the spec: section 6, [magic:u32=0x46546C67]. *)
Definition glbHeaderMagic : Z := 0x46546C67.

(** Modelled from the spec: section 6, the type of the JSON chunk. *)
Definition glbChunkJSON : Z := 0x4E4F534A.

(** Modelled from the spec: section 6, the type of the binary chunk. *)
Definition glbChunkBIN : Z := 0x004E4942.

(** Modelled from the spec: section 4.1, a chunk header
    [chunkLength:u32, chunkType:u32]. *)
Record chunkHeader := ChunkHeader { ch_Length : Z; ch_Type : Z }.

(** Modelled from the spec: section 4.1, the primary header
    [magic:u32, version:u32, totalLength:u32] followed by the header of the
    first chunk. *)
Record glbHeader := GlbHeader {
  Magic : Z;
  Version : Z;
  Length : Z;
  JSONHeader : chunkHeader
}.

(** Modelled from the spec: section 4.1, [unsafe.Sizeof] of a [glbHeader],
    12 + 8 bytes. *)
Definition sizeof_glbHeader : Z := 20.

(** Modelled from the spec: section 4.1, [unsafe.Sizeof] of a
    [chunkHeader]. *)
Definition sizeof_chunkHeader : Z := 8.

(** A little-endian [uint32] at the front of [bs]. *)
Definition le_uint32 (bs : bytes) : Z :=
  byte_to_Z (nth 0 bs x00) + 2 ^ 8 * byte_to_Z (nth 1 bs x00)
  + 2 ^ 16 * byte_to_Z (nth 2 bs x00) + 2 ^ 24 * byte_to_Z (nth 3 bs x00).

(** [binary.Read(r, binary.LittleEndian, &header)] on the bytes read. *)
Definition parse_chunkHeader (bs : bytes) : chunkHeader :=
  ChunkHeader (le_uint32 bs) (le_uint32 (skipn 4 bs)).

Definition parse_glbHeader (bs : bytes) : glbHeader :=
  GlbHeader (le_uint32 bs) (le_uint32 (skipn 4 bs)) (le_uint32 (skipn 8 bs))
            (parse_chunkHeader (skipn 12 bs)).

(** ** struct.go: Buffer *)

(** Modelled from the spec: the constant is declared in a file that is not
    among the sources.  Section 6 gives the URI form
    [data:application/octet-stream;base64,<payload>]; [EmbeddedResource]
    writes the comma itself and [marshalData] skips one byte after the
    constant, so the constant ends before the comma. *)
Definition mimetypeApplicationOctet : bytes := B "data:application/octet-stream;base64".

(** The fields of [Buffer] the decoder reads or writes ([Extensions] and
    [Extras] are filled by the JSON decode and not looked at again). *)
Record Buffer := mkBuffer {
  Name : bytes;
  URI : bytes;
  ByteLength : Z;       (* uint32 *)
  Data : bytes          (* json:"-" *)
}.

Definition set_Data (b : Buffer) (data : bytes) : Buffer :=
  mkBuffer (Name b) (URI b) (ByteLength b) data.

Definition IsEmbeddedResource (b : Buffer) : bool :=
  HasPrefix (URI b) mimetypeApplicationOctet.

(** [marshalData].  [b.URI[startPos:]] panics when [startPos > len(b.URI)],
    that is when the URI is the bare prefix without the comma. *)
Definition marshalData (b : Buffer) : outcome (bytes * option error) :=
  if negb (IsEmbeddedResource b) then Returns ([], None)
  else
    let startPos := len mimetypeApplicationOctet + 1 in
    if len (URI b) <? startPos
    then Panics "slice bounds out of range"
    else
      let '(sl, err) := DecodeString (skipn (Z.to_nat startPos) (URI b)) in
      if (len sl =? 0) || bool_decide (err <> None) then Returns ([], err)
      else Returns (sl, None).

(** ** decoder.go *)

Record ReadQuotas := mkQuotas {
  MaxBufferCount : Z;
  MaxMemoryAllocation : Z
}.

(** What [ReadResourceCallback] returns for a URI: a stream or nil, and an
    error or nil. *)
Definition ReadResourceCallback := bytes -> option Reader * option error.

(** The decoder's visible effects outside the document. *)
Inductive event :=
| CallbackCalled (uri : bytes)
| StreamRead (uri : bytes) (room : Z)     (* one Read call on the stream *)
| StreamClosed (uri : bytes).

Definition trace := list event.

(** Of [Document], the decoder itself only touches [Buffers]; the other
    entity sequences are written by the JSON decode alone. *)
Record Document := mkDocument {
  Buffers : list Buffer
}.

Record Decoder := mkDecoder {
  r : bufio_Reader;
  cb : ReadResourceCallback;
  quotas : ReadQuotas
}.

Definition set_r (d : Decoder) (r' : bufio_Reader) : Decoder :=
  mkDecoder r' (cb d) (quotas d).

Definition NewDecoder (rd : Reader) (cb : ReadResourceCallback) : Decoder :=
  mkDecoder (bufio_NewReader rd) cb (mkQuotas 8 (32 * 1024 * 1024)).

Definition SetQuotas (d : Decoder) (q : ReadQuotas) : Decoder :=
  mkDecoder (r d) (cb d) q.

(** [unsafe.Sizeof(header)] inside [validateGLBHeader], whose parameter
    [header] has the type [*glbHeader]: the size of a pointer, 8 bytes on
    the 64-bit targets modelled here (where [int] holds every [uint32]).
    In [readGLBHeader] the same expression is applied to a variable of
    type [glbHeader] and gives the 20 bytes of the struct. *)
Definition sizeof_pointer : Z := 8.

Definition validateGLBHeader (d : Decoder) (header : glbHeader) : option error :=
  if Length header >? MaxMemoryAllocation (quotas d)
  then Some (errorString "gltf: Quota exceeded, bytes of glb buffer > MaxMemoryAllocation")
  else if negb (ch_Type (JSONHeader header) =? glbChunkJSON)
          || (u32 (ch_Length (JSONHeader header) + u32 sizeof_pointer) >? Length header)
  then Some (errorString "gltf: Invalid GLB JSON header")
  else None.

(** [readGLBHeader]: the new state of [d.r], the header (nil when the input
    is not a GLB container) and the error. *)
Definition readGLBHeader (d : Decoder) : Decoder * option glbHeader * option error :=
  let '((chunk, err), r1) := bufio_Peek (r d) (Z.to_nat sizeof_glbHeader) in
  match err with
  | Some _ => (set_r d r1, None, None)
  | None =>
      let header := parse_glbHeader chunk in
      if negb (Magic header =? glbHeaderMagic) then (set_r d r1, None, None)
      else
        let '(_, r2) := bufio_Read r1 (length chunk) in
        (set_r d r2, Some header, validateGLBHeader d header)
  end.

(** [chunkHeader]: [binary.Read] of the next 8 bytes. *)
Definition read_chunkHeader (d : Decoder) : Decoder * option chunkHeader * option error :=
  let '((bs, err), r1) := io_ReadFull (r d) (Z.to_nat sizeof_chunkHeader) in
  match err with
  | Some e => (set_r d r1, None, Some e)
  | None => (set_r d r1, Some (parse_chunkHeader bs), None)
  end.

Definition validateBuffer (d : Decoder) (buffer : Buffer) : option error :=
  if ByteLength buffer =? 0
  then Some (errorString "gltf: Invalid buffer.byteLength value = 0")
  else if ByteLength buffer >? MaxMemoryAllocation (quotas d)
  then Some (errorString "gltf: Quota exceeded, bytes of buffer > MaxMemoryAllocation")
  else None.

(** [decodeBuffer]: the buffer is updated in place; the callback and the
    stream it returns act on the outside world. *)
Definition decodeBuffer (d : Decoder) (t : trace) (buffer : Buffer)
    : trace * Buffer * option error :=
  match validateBuffer d buffer with
  | Some e => (t, buffer, Some e)
  | None =>
      if bool_decide (URI buffer = [])
      then (t, buffer, Some (errorString "gltf: buffer without URI"))
      else if IsEmbeddedResource buffer then
        match marshalData buffer with
        | Panics msg => (t, buffer, Some (runtime_panic msg))
        | Returns (data, err) => (t, set_Data buffer data, err)
        end
      else
        match validateBufferURI (URI buffer) with
        | Some e => (t, buffer, Some e)
        | None =>
            let t1 := t ++ [CallbackCalled (URI buffer)] in
            match cb d (URI buffer) with
            | (Some rd, None) =>
                let p := make (ByteLength buffer) in
                let '((data, err), _) := Reader_Read rd (length p) in
                (t1 ++ [StreamRead (URI buffer) (len p); StreamClosed (URI buffer)],
                 set_Data buffer (stored data p), err)
            | (_, err) => (t1, buffer, err)
            end
        end
  end.

Definition decodeBinaryBuffer (d : Decoder) (buffer : Buffer)
    : Decoder * Buffer * option error :=
  match validateBuffer d buffer with
  | Some e => (d, buffer, Some e)
  | None =>
      match read_chunkHeader d with
      | (d1, Some header, None) =>
          if negb (ch_Type header =? glbChunkBIN) || (ch_Length header <? ByteLength buffer)
          then (d1, buffer, Some (errorString "gltf: Invalid GLB BIN header"))
          else
            let p := make (ByteLength buffer) in
            let '((data, err), r2) := bufio_Read (r d1) (length p) in
            (set_r d1 r2, set_Data buffer (stored data p), err)
      | (d1, _, err) => (d1, buffer, err)
      end
  end.

(** The loop [for i := externalBufferIndex; i < len(doc.Buffers); i++] over
    the buffers from [externalBufferIndex] on; it stops at the first
    error. *)
Fixpoint decodeBuffers (d : Decoder) (t : trace) (bs : list Buffer)
    : trace * list Buffer * option error :=
  match bs with
  | [] => (t, [], None)
  | b :: rest =>
      match decodeBuffer d t b with
      | (t1, b', Some e) => (t1, b' :: rest, Some e)
      | (t1, b', None) =>
          let '(t2, rest', err) := decodeBuffers d t1 rest in
          (t2, b' :: rest', err)
      end
  end.

(** The byte limit of the JSON decode: the length of the JSON chunk in a
    GLB container ([io.LimitedReader]), none for plain JSON text. *)
Definition jsonLimit (header : option glbHeader) : option Z :=
  match header with
  | Some h => Some (ch_Length (JSONHeader h))
  | None => None
  end.

(** The step of [Decode] between the count check and the loop: it sets
    [externalBufferIndex] and, in a GLB container with at least one buffer,
    reads [doc.Buffers[0]] from the binary chunk.  It returns the decoder,
    the buffers, [externalBufferIndex] and the error. *)
Definition binaryStage (d : Decoder) (isBinary : bool) (bs : list Buffer)
    : Decoder * list Buffer * nat * option error :=
  match isBinary && (len bs >? 0), bs with
  | true, b0 :: rest =>
      let '(d', b0', err) := decodeBinaryBuffer d b0 in
      (d', b0' :: rest, 1%nat, err)
  | _, _ => (d, bs, 0%nat, None)
  end.

Section Decode.

(** [json.NewDecoder(rd).Decode(doc)] of encoding/json, where [rd] is
    [d.r] itself ([limit = None]) or an [io.LimitedReader] of [N] bytes
    on it: what it leaves of [d.r], the document it stored, and its
    error. *)
Variable jsonDecode :
  bufio_Reader -> option Z -> Document -> bufio_Reader * Document * option error.

Definition decodeDocument (d : Decoder) (doc : Document)
    : Decoder * Document * bool * option error :=
  match readGLBHeader d with
  | (d1, _, Some e) => (d1, doc, false, Some e)
  | (d1, glbHeader, None) =>
      let isBinary := bool_decide (glbHeader <> None) in
      let '(r2, doc', err) := jsonDecode (r d1) (jsonLimit glbHeader) doc in
      let err' :=
        match err with
        | None =>
            if len (Buffers doc') >? MaxBufferCount (quotas d)
            then Some (errorString "gltf: Quota exceeded, number of buffer > MaxBufferCount")
            else None
        | Some e => Some e
        end in
      (set_r d1 r2, doc', isBinary, err')
  end.

Definition Decode (d : Decoder) (t : trace) (doc : Document)
    : Decoder * trace * Document * option error :=
  match decodeDocument d doc with
  | (d1, doc1, _, Some e) => (d1, t, doc1, Some e)
  | (d1, doc1, isBinary, None) =>
      if len (Buffers doc1) >? MaxBufferCount (quotas d1)
      then (d1, t, doc1,
            Some (errorString "gltf: Quota exceeded, number of buffer > MaxBufferCount"))
      else
        match binaryStage d1 isBinary (Buffers doc1) with
        | (d2, bs, _, Some e) => (d2, t, mkDocument bs, Some e)
        | (d2, bs, externalBufferIndex, None) =>
            let '(t', ext', err) :=
              decodeBuffers d2 t (skipn externalBufferIndex bs) in
            (d2, t', mkDocument (firstn externalBufferIndex bs ++ ext'), err)
        end
  end.

End Decode.

(** A JSON decode for running [Decode] on concrete inputs: it takes
    [consumed] bytes from the reader and stores [result]. *)
Definition jsonDecode_stub (consumed : nat) (result : Document)
    : bufio_Reader -> option Z -> Document -> bufio_Reader * Document * option error :=
  fun rd _ _ => let '(_, rd') := io_ReadFull rd consumed in (rd', result, None).

(** [Decode] reaches the buffer [b] in its loop: the document decoded
    without error, the binary stage passed, [b] lies at or after
    [externalBufferIndex], and every buffer of the loop before [b]
    resolved without error.  [d2] and [t1] are the decoder and the trace
    at that moment, [before] and [after] the buffers around [b]. *)
Definition reaches
    (jd : bufio_Reader -> option Z -> Document -> bufio_Reader * Document * option error)
    (d : Decoder) (t : trace) (doc : Document)
    (d2 : Decoder) (t1 : trace) (before : list Buffer) (b : Buffer)
    (after : list Buffer) : Prop :=
  exists d1 doc1 isBinary bs idx pre pre',
    decodeDocument jd d doc = (d1, doc1, isBinary, None) /\
    binaryStage d1 isBinary (Buffers doc1) = (d2, bs, idx, None) /\
    skipn idx bs = pre ++ b :: after /\
    decodeBuffers d2 t pre = (t1, pre', None) /\
    before = firstn idx bs ++ pre'.

(** ** Inputs used in the examples *)

(** A [uint32] in little-endian order. *)
Definition put_uint32 (z : Z) : bytes :=
  [byte_of_Z z; byte_of_Z (z / 2 ^ 8); byte_of_Z (z / 2 ^ 16); byte_of_Z (z / 2 ^ 24)].

(** The 12-byte GLB header, the JSON chunk and one binary chunk. *)
Definition glb_head (totalLength chunkLength : Z) : bytes :=
  put_uint32 glbHeaderMagic ++ put_uint32 2 ++ put_uint32 totalLength
  ++ put_uint32 chunkLength ++ put_uint32 glbChunkJSON.

Definition glb_container (json bin : bytes) : bytes :=
  glb_head (20 + len json + 8 + len bin) (len json) ++ json
  ++ put_uint32 (len bin) ++ put_uint32 glbChunkBIN ++ bin.

(** A callback with no resource to offer: it opts out of every load. *)
Definition cb_none : ReadResourceCallback := fun _ => (None, None).

(** A callback whose stream hands out [ABC] in two reads, [A] then [BC]. *)
Definition cb_two_reads : ReadResourceCallback :=
  fun _ => (Some [ReadEvent (B "A") None; ReadEvent (B "BC") None], None).

Definition json_one_buffer : bytes :=
  J "{'buffers':[{'byteLength':3}]}".
Definition json_external_buffer : bytes :=
  J "{'buffers':[{'uri':'model.bin','byteLength':3}]}".
Definition json_parent_uri : bytes :=
  J "{'buffers':[{'uri':'../secret.bin','byteLength':3}]}".
Definition json_parent_uri_zero : bytes :=
  J "{'buffers':[{'uri':'../secret.bin','byteLength':0}]}".
Definition json_empty_payload : bytes :=
  J "{'buffers':[{'uri':'data:application/octet-stream;base64,','byteLength':3}]}".
Definition json_QUJD : bytes :=
  J "{'buffers':[{'uri':'data:application/octet-stream;base64,QUJD','byteLength':3}]}".

(** The buffers these texts declare. *)
Definition buffer_binary : Buffer := mkBuffer [] [] 3 [].
Definition buffer_external : Buffer := mkBuffer [] (B "model.bin") 3 [].
Definition buffer_parent_uri : Buffer := mkBuffer [] (B "../secret.bin") 3 [].
Definition buffer_parent_uri_zero : Buffer := mkBuffer [] (B "../secret.bin") 0 [].
Definition buffer_empty_payload : Buffer :=
  mkBuffer [] (B "data:application/octet-stream;base64,") 3 [].
Definition buffer_QUJD : Buffer :=
  mkBuffer [] (B "data:application/octet-stream;base64,QUJD") 3 [].

(** A document of nine buffers, one more than the default quota. *)
Definition nine_buffers : list Buffer := repeat buffer_external 9.
Definition json_nine_buffers : bytes :=
  J "{'buffers':[" ++
  concat (repeat (J "{'uri':'model.bin','byteLength':3},") 8) ++
  J "{'uri':'model.bin','byteLength':3}]}".

(** A GLB header whose JSON chunk length makes [chunkLength + 20] pass
    [2^32], followed by the JSON text [{}]. *)
Definition wrapping_chunkLength : Z := 0xFFFFFFFA.
Definition glb_wrapping : bytes := glb_head 22 wrapping_chunkLength ++ J "{}".

(** A GLB header whose total length, 12, is less than the 20 bytes of the
    header plus the 2 bytes of its JSON chunk, followed by the JSON text
    [{}]. *)
Definition glb_short_total : bytes := glb_head 12 2 ++ J "{}".

(** ** encoding/json: reading JSON text

    The text is read into a tree first, as [checkValid] and the scanner of
    encoding/json do; an invalid text is a [SyntaxError] before anything is
    stored.  Numbers keep their literal, since the target type decides how
    it is converted; the members of an object keep the raw text of their
    value, which is what an [Unmarshaler] or a [json.RawMessage] receives.
    Bytes from [0x80] on pass through strings unchanged (the model takes
    the text to be valid UTF-8). *)

Inductive jtree : Type :=
| TNull
| TBool (b : bool)
| TNumber (lit : bytes)
| TString (s : bytes)
| TArray (elems : list jtree)
| TObject (members : list (bytes * (bytes * jtree))).   (* key, raw value, value *)

Definition isSpace (c : byte) : bool :=
  Byte.eqb c x20 || Byte.eqb c x09 || Byte.eqb c x0d || Byte.eqb c x0a.

Fixpoint skip_ws (s : bytes) : bytes :=
  match s with
  | c :: s' => if isSpace c then skip_ws s' else s
  | [] => []
  end.

Definition isDigit (c : byte) : bool := (48 <=? byte_to_Z c) && (byte_to_Z c <=? 57).

Fixpoint take_digits (s : bytes) : bytes * bytes :=
  match s with
  | c :: s' =>
      if isDigit c then let '(ds, rest) := take_digits s' in (c :: ds, rest)
      else ([], s)
  | [] => ([], [])
  end.

(** A number of the JSON grammar at the front of [s]: its literal and the
    rest. *)
Definition scan_number (s : bytes) : option (bytes * bytes) :=
  let '(sign, s1) := match s with x2d :: s' => ([x2d], s') | _ => ([], s) end in
  let int_part :=
    match s1 with
    | x30 :: s2 => Some ([x30], s2)
    | c :: _ => if isDigit c then Some (take_digits s1) else None
    | [] => None
    end in
  match int_part with
  | None => None
  | Some (ip, s2) =>
      let frac_part :=
        match s2 with
        | x2e :: s3 =>
            match take_digits s3 with
            | ([], _) => None
            | (ds, s4) => Some (x2e :: ds, s4)
            end
        | _ => Some ([], s2)
        end in
      match frac_part with
      | None => None
      | Some (fp, s4) =>
          let exp_part :=
            match s4 with
            | e :: s5 =>
                if Byte.eqb e x65 || Byte.eqb e x45 then
                  let '(esign, s6) :=
                    match s5 with
                    | x2b :: s' => ([x2b], s')
                    | x2d :: s' => ([x2d], s')
                    | _ => ([], s5)
                    end in
                  match take_digits s6 with
                  | ([], _) => None
                  | (ds, s7) => Some (e :: esign ++ ds, s7)
                  end
                else Some ([], s4)
            | [] => Some ([], s4)
            end in
          match exp_part with
          | None => None
          | Some (ep, s7) => Some (sign ++ ip ++ fp ++ ep, s7)
          end
      end
  end.

Definition hexval (c : byte) : option Z :=
  let n := byte_to_Z c in
  if (48 <=? n) && (n <=? 57) then Some (n - 48)
  else if (97 <=? n) && (n <=? 102) then Some (n - 87)
  else if (65 <=? n) && (n <=? 70) then Some (n - 55)
  else None.

Definition hex4 (a b c d : byte) : option Z :=
  match hexval a, hexval b, hexval c, hexval d with
  | Some x, Some y, Some z, Some w => Some (((x * 16 + y) * 16 + z) * 16 + w)
  | _, _, _, _ => None
  end.

(** [utf8.AppendRune]. *)
Definition utf8_encode (cp : Z) : bytes :=
  if cp <? 0x80 then [byte_of_Z cp]
  else if cp <? 0x800 then
    [byte_of_Z (0xC0 + cp / 64); byte_of_Z (0x80 + cp mod 64)]
  else if cp <? 0x10000 then
    [byte_of_Z (0xE0 + cp / 4096); byte_of_Z (0x80 + (cp / 64) mod 64);
     byte_of_Z (0x80 + cp mod 64)]
  else
    [byte_of_Z (0xF0 + cp / 262144); byte_of_Z (0x80 + (cp / 4096) mod 64);
     byte_of_Z (0x80 + (cp / 64) mod 64); byte_of_Z (0x80 + cp mod 64)].

Definition isSurrogate (cp : Z) : bool := (0xD800 <=? cp) && (cp <? 0xE000).

Definition in_range (lo hi : Z) (c : byte) : bool :=
  (lo <=? byte_to_Z c) && (byte_to_Z c <=? hi).

(** [utf8.DecodeRune], as far as the size goes: the number of bytes of the
    well-formed sequence at the head of [s], and 0 when the head is not
    one (a stray continuation byte, an overlong form, a surrogate, a value
    above U+10FFFF, or a sequence cut short). *)
Definition utf8_size (s : bytes) : nat :=
  match s with
  | [] => 0%nat
  | c0 :: s1 =>
      let n := byte_to_Z c0 in
      if n <? 0x80 then 1%nat
      else if n <? 0xC2 then 0%nat
      else if n <? 0xE0 then
        match s1 with
        | c1 :: _ => if in_range 0x80 0xBF c1 then 2%nat else 0%nat
        | _ => 0%nat
        end
      else if n <? 0xF0 then
        let lo := if n =? 0xE0 then 0xA0 else 0x80 in
        let hi := if n =? 0xED then 0x9F else 0xBF in
        match s1 with
        | c1 :: c2 :: _ =>
            if in_range lo hi c1 && in_range 0x80 0xBF c2 then 3%nat else 0%nat
        | _ => 0%nat
        end
      else if n <? 0xF5 then
        let lo := if n =? 0xF0 then 0x90 else 0x80 in
        let hi := if n =? 0xF4 then 0x8F else 0xBF in
        match s1 with
        | c1 :: c2 :: c3 :: _ =>
            if in_range lo hi c1 && in_range 0x80 0xBF c2 && in_range 0x80 0xBF c3
            then 4%nat else 0%nat
        | _ => 0%nat
        end
      else 0%nat
  end.

(** "Coerce to well-formed UTF-8": every byte that does not start a
    well-formed sequence becomes U+FFFD.  [skip] counts the bytes still to
    copy of the sequence under way. *)
Fixpoint utf8_coerce (skip : nat) (s : bytes) {struct s} : bytes :=
  match s with
  | [] => []
  | c :: rest =>
      match skip with
      | S k => c :: utf8_coerce k rest
      | O =>
          match utf8_size s with
          | O => utf8_encode 0xFFFD ++ utf8_coerce 0 rest
          | S k => c :: utf8_coerce k rest
          end
      end
  end.

(** The string that starts after an opening quote: its unquoted value
    ([acc] holds it reversed), coerced to well-formed UTF-8, and the text
    after the closing quote.  (An escape never yields a continuation byte
    first, so coercing the whole value at the end is coercing the bytes of
    the literal between the escapes.) *)
Fixpoint scan_string (s : bytes) (acc : bytes) {struct s} : option (bytes * bytes) :=
  match s with
  | [] => None
  | x22 :: rest => Some (utf8_coerce 0 (rev acc), rest)
  | x5c :: x75 :: a :: b :: c :: d :: rest =>
      match hex4 a b c d with
      | None => None
      | Some cp =>
          if isSurrogate cp then
            match rest with
            | x5c :: x75 :: a' :: b' :: c' :: d' :: rest' =>
                match hex4 a' b' c' d' with
                | Some lo =>
                    if (cp <? 0xDC00) && (0xDC00 <=? lo) && (lo <? 0xE000)
                    then scan_string rest'
                           (rev (utf8_encode (0x10000 + (cp - 0xD800) * 1024 + (lo - 0xDC00)))
                            ++ acc)
                    else scan_string rest (rev (utf8_encode 0xFFFD) ++ acc)
                | None => scan_string rest (rev (utf8_encode 0xFFFD) ++ acc)
                end
            | _ => scan_string rest (rev (utf8_encode 0xFFFD) ++ acc)
            end
          else scan_string rest (rev (utf8_encode cp) ++ acc)
      end
  | x5c :: e :: rest =>
      match e with
      | x22 => scan_string rest (x22 :: acc)
      | x5c => scan_string rest (x5c :: acc)
      | x2f => scan_string rest (x2f :: acc)
      | x62 => scan_string rest (x08 :: acc)
      | x66 => scan_string rest (x0c :: acc)
      | x6e => scan_string rest (x0a :: acc)
      | x72 => scan_string rest (x0d :: acc)
      | x74 => scan_string rest (x09 :: acc)
      | _ => None
      end
  | c :: rest =>
      if byte_to_Z c <? 32 then None else scan_string rest (c :: acc)
  end.

Fixpoint parse_value (fuel : nat) (s : bytes) {struct fuel} : option (jtree * bytes) :=
  match fuel with
  | O => None
  | S fuel' =>
      match skip_ws s with
      | x7b :: s1 =>
          match skip_ws s1 with
          | x7d :: s2 => Some (TObject [], s2)
          | _ => parse_members fuel' s1 []
          end
      | x5b :: s1 =>
          match skip_ws s1 with
          | x5d :: s2 => Some (TArray [], s2)
          | _ => parse_elems fuel' s1 []
          end
      | x22 :: s1 =>
          match scan_string s1 [] with
          | Some (str, rest) => Some (TString str, rest)
          | None => None
          end
      | x74 :: x72 :: x75 :: x65 :: rest => Some (TBool true, rest)
      | x66 :: x61 :: x6c :: x73 :: x65 :: rest => Some (TBool false, rest)
      | x6e :: x75 :: x6c :: x6c :: rest => Some (TNull, rest)
      | s' =>
          match scan_number s' with
          | Some (lit, rest) => Some (TNumber lit, rest)
          | None => None
          end
      end
  end
with parse_members (fuel : nat) (s : bytes) (acc : list (bytes * (bytes * jtree)))
    {struct fuel} : option (jtree * bytes) :=
  match fuel with
  | O => None
  | S fuel' =>
      match skip_ws s with
      | x22 :: s1 =>
          match scan_string s1 [] with
          | None => None
          | Some (key, s2) =>
              match skip_ws s2 with
              | x3a :: s3 =>
                  let s4 := skip_ws s3 in
                  match parse_value fuel' s4 with
                  | None => None
                  | Some (v, s5) =>
                      let raw := firstn (length s4 - length s5) s4 in
                      let acc' := acc ++ [(key, (raw, v))] in
                      match skip_ws s5 with
                      | x2c :: s6 => parse_members fuel' s6 acc'
                      | x7d :: s6 => Some (TObject acc', s6)
                      | _ => None
                      end
                  end
              | _ => None
              end
          end
      | _ => None
      end
  end
with parse_elems (fuel : nat) (s : bytes) (acc : list jtree)
    {struct fuel} : option (jtree * bytes) :=
  match fuel with
  | O => None
  | S fuel' =>
      match parse_value fuel' s with
      | None => None
      | Some (v, s1) =>
          let acc' := acc ++ [v] in
          match skip_ws s1 with
          | x2c :: s2 => parse_elems fuel' s2 acc'
          | x5d :: s2 => Some (TArray acc', s2)
          | _ => None
          end
      end
  end.

(** The whole text is one JSON value, with white space around it at most.
    Every call of the parser has consumed a byte since the call before it,
    so [length data + 1] rounds are enough. *)
Definition parse_json (data : bytes) : option jtree :=
  match parse_value (S (length data)) data with
  | Some (v, rest) =>
      match skip_ws rest with
      | [] => Some v
      | _ :: _ => None
      end
  | None => None
  end.

(** [compact]: the text without the white space between its tokens, and
    with [<], [>], [&], U+2028 and U+2029 escaped, as the encoder writes
    the output of a [Marshaler].  [in_string] and [escaped] follow the
    scanner through string literals. *)
Definition hexdigit (n : Z) : byte :=
  if n <? 10 then byte_of_Z (48 + n) else byte_of_Z (87 + n).

Definition escape_u00 (c : byte) : bytes :=
  [x5c; x75; x30; x30; hexdigit (byte_to_Z c / 16); hexdigit (byte_to_Z c mod 16)].

Fixpoint compact_loop (s : bytes) (in_string escaped : bool) {struct s} : bytes :=
  match s with
  | [] => []
  | xe2 :: x80 :: xa8 :: rest =>
      [x5c; x75; x32; x30; x32; x38] ++ compact_loop rest in_string false
  | xe2 :: x80 :: xa9 :: rest =>
      [x5c; x75; x32; x30; x32; x39] ++ compact_loop rest in_string false
  | c :: rest =>
      if Byte.eqb c x3c || Byte.eqb c x3e || Byte.eqb c x26
      then escape_u00 c ++ compact_loop rest in_string false
      else if in_string then
        if escaped then c :: compact_loop rest true false
        else if Byte.eqb c x5c then c :: compact_loop rest true true
        else if Byte.eqb c x22 then c :: compact_loop rest false false
        else c :: compact_loop rest true false
      else if isSpace c then compact_loop rest false false
      else if Byte.eqb c x22 then c :: compact_loop rest true false
      else c :: compact_loop rest false false
  end.

Definition compact (src : bytes) : option bytes :=
  match parse_json src with
  | Some _ => Some (compact_loop src false false)
  | None => None
  end.

(** ** struct.go: the data model *)

Definition float64 := float.

(** Go's [==] on arrays of [float64]: equal component by component. *)
Fixpoint array_eq (a b : list float64) : bool :=
  match a, b with
  | [], [] => true
  | x :: a', y :: b' => PrimFloat.eqb x y && array_eq a' b'
  | _, _ => false
  end.

(** A value held in an [interface{}]: [nil], or what the JSON decode puts
    there ([bool], [float64], [string], [[]interface{}],
    [map[string]interface{}], the map as the list of its entries). *)
Inductive jvalue : Type :=
| VNull
| VBool (b : bool)
| VNumber (f : float64)
| VString (s : bytes)
| VArray (elems : list jvalue)
| VObject (members : list (bytes * jvalue)).

Definition is_nil (v : jvalue) : bool :=
  match v with VNull => true | _ => false end.

(** A value of the [Extensions] map: the raw payload ([json.RawMessage])
    or the object a registered factory made and decoded.  [ExtObject] is
    the type of those objects. *)
Inductive ExtValue (ExtObject : Type) : Type :=
| ExtRaw (raw : bytes)
| ExtTyped (o : ExtObject).
Arguments ExtRaw {ExtObject} raw.
Arguments ExtTyped {ExtObject} o.

Module Node.
Record t (ExtObject : Type) := mk {
  Extensions : gmap bytes (ExtValue ExtObject);
  Extras : jvalue;
  Name : bytes;
  Camera : option Z;
  Children : list Z;
  Skin : option Z;
  Matrix : list float64;        (* [16]float64 *)
  Mesh : option Z;
  Rotation : list float64;      (* [4]float64 *)
  Scale : list float64;         (* [3]float64 *)
  Translation : list float64;   (* [3]float64 *)
  Weights : list float64
}.
Arguments mk {ExtObject}.
Arguments Extensions {ExtObject}.
Arguments Extras {ExtObject}.
Arguments Name {ExtObject}.
Arguments Camera {ExtObject}.
Arguments Children {ExtObject}.
Arguments Skin {ExtObject}.
Arguments Matrix {ExtObject}.
Arguments Mesh {ExtObject}.
Arguments Rotation {ExtObject}.
Arguments Scale {ExtObject}.
Arguments Translation {ExtObject}.
Arguments Weights {ExtObject}.
End Node.

Module TextureInfo.
Record t (ExtObject : Type) := mk {
  Extensions : gmap bytes (ExtValue ExtObject);
  Extras : jvalue;
  Index : Z;
  TexCoord : Z
}.
Arguments mk {ExtObject}.
End TextureInfo.

Module RGBA.
Record t := mk { R : float64; G : float64; B : float64; A : float64 }.
End RGBA.

Module NormalTexture.
Record t (ExtObject : Type) := mk {
  Extensions : gmap bytes (ExtValue ExtObject);
  Extras : jvalue;
  Index : option Z;
  TexCoord : Z;
  Scale : option float64
}.
Arguments mk {ExtObject}.
End NormalTexture.

Module OcclusionTexture.
Record t (ExtObject : Type) := mk {
  Extensions : gmap bytes (ExtValue ExtObject);
  Extras : jvalue;
  Index : option Z;
  TexCoord : Z;
  Strength : option float64
}.
Arguments mk {ExtObject}.
End OcclusionTexture.

Module PBRMetallicRoughness.
Record t (ExtObject : Type) := mk {
  Extensions : gmap bytes (ExtValue ExtObject);
  Extras : jvalue;
  BaseColorFactor : option RGBA.t;
  BaseColorTexture : option (TextureInfo.t ExtObject);
  MetallicFactor : option float64;
  RoughnessFactor : option float64;
  MetallicRoughnessTexture : option (TextureInfo.t ExtObject)
}.
Arguments mk {ExtObject}.
End PBRMetallicRoughness.

(** Modelled from the spec: [AlphaMode] is declared in a file that is not
    among the sources and the spec does not describe it; the tag
    [validate:"lte=2"] of the field shows an integer type. *)
Definition AlphaMode := Z.

Module Material.
Record t (ExtObject : Type) := mk {
  Extensions : gmap bytes (ExtValue ExtObject);
  Extras : jvalue;
  Name : bytes;
  PBRMetallicRoughness : option (PBRMetallicRoughness.t ExtObject);
  NormalTexture : option (NormalTexture.t ExtObject);
  OcclusionTexture : option (OcclusionTexture.t ExtObject);
  EmissiveTexture : option (TextureInfo.t ExtObject);
  EmissiveFactor : list float64;     (* [3]float64 *)
  AlphaMode : AlphaMode;
  AlphaCutoff : option float64;
  DoubleSided : bool
}.
Arguments mk {ExtObject}.
End Material.

(** [Float64(val)]: a pointer to a new [float64]. *)
Definition Float64 (val : float64) : option float64 := Some val.

(** [NewRGBA()]. *)
Definition NewRGBA : option RGBA.t := Some (RGBA.mk 1%float 1%float 1%float 1%float).

(** The default and the all-zero arrays are declared in a file that is not
    among the sources; they are taken from section 4.3 of the spec. *)

(** Modelled from the spec: the identity matrix. *)
Definition DefaultMatrix : list float64 :=
  [1; 0; 0; 0; 0; 1; 0; 0; 0; 0; 1; 0; 0; 0; 0; 1]%float.

(** Modelled from the spec: the identity quaternion (0,0,0,1). *)
Definition DefaultRotation : list float64 := [0; 0; 0; 1]%float.

(** Modelled from the spec: the unit scale. *)
Definition DefaultScale : list float64 := [1; 1; 1]%float.

(** Modelled from the spec: the zero translation. *)
Definition DefaultTranslation : list float64 := [0; 0; 0]%float.

(** Modelled from the spec: the all-zero matrix, the value of a field that
    was never set. *)
Definition emptyMatrix : list float64 := repeat 0%float 16.

(** Modelled from the spec: the all-zero quaternion. *)
Definition emptyRotation : list float64 := repeat 0%float 4.

(** Modelled from the spec: the all-zero scale. *)
Definition emptyScale : list float64 := repeat 0%float 3.

(** [alias(Node{Matrix: DefaultMatrix, Rotation: DefaultRotation, Scale:
    DefaultScale})], the temporary of [Node.UnmarshalJSON]. *)
Definition Node_tmp {ExtObject : Type} : Node.t ExtObject :=
  Node.mk ∅ VNull [] None [] None DefaultMatrix None DefaultRotation DefaultScale
          (repeat 0%float 3) [].

(** [alias(Material{AlphaCutoff: Float64(0.5)})]. *)
Definition Material_tmp {ExtObject : Type} : Material.t ExtObject :=
  Material.mk ∅ VNull [] None None None None (repeat 0%float 3) 0 (Float64 0.5%float) false.

(** [alias(NormalTexture{Scale: Float64(1)})]. *)
Definition NormalTexture_tmp {ExtObject : Type} : NormalTexture.t ExtObject :=
  NormalTexture.mk ∅ VNull None 0 (Float64 1%float).

(** [alias(OcclusionTexture{Strength: Float64(1)})]. *)
Definition OcclusionTexture_tmp {ExtObject : Type} : OcclusionTexture.t ExtObject :=
  OcclusionTexture.mk ∅ VNull None 0 (Float64 1%float).

(** [alias(PBRMetallicRoughness{BaseColorFactor: NewRGBA(), MetallicFactor:
    Float64(1), RoughnessFactor: Float64(1)})]. *)
Definition PBRMetallicRoughness_tmp {ExtObject : Type} : PBRMetallicRoughness.t ExtObject :=
  PBRMetallicRoughness.mk ∅ VNull NewRGBA None (Float64 1%float) (Float64 1%float) None.

(** The zero value [Node{}]. *)
Definition Node_zero {ExtObject : Type} : Node.t ExtObject :=
  Node.mk ∅ VNull [] None [] None emptyMatrix None emptyRotation emptyScale
          (repeat 0%float 3) [].

(** ** bytes.Replace, removeProperty, sanitizeJSON *)

(** [bytes.Replace(s, old, new, 1)]: the first occurrence of [old]. *)
Fixpoint bytes_Replace1 (s old new : bytes) {struct s} : bytes :=
  if HasPrefix s old then new ++ skipn (length old) s
  else match s with
       | [] => []
       | c :: s' => c :: bytes_Replace1 s' old new
       end.

Definition removeProperty (str b : bytes) : bytes :=
  let b := bytes_Replace1 b str [] in
  bytes_Replace1 b (B ",,") (B ",").

Definition sanitizeJSON (b : bytes) : bytes :=
  let b := bytes_Replace1 b (B "{,") (B "{") in
  bytes_Replace1 b (B ",}") (B "}").

(** ** encoding/json: writing JSON text *)

(** [strconv.AppendUint(b, n, 10)]. *)
Fixpoint digits_loop (fuel : nat) (n : Z) (acc : bytes) : bytes :=
  match fuel with
  | O => acc
  | S fuel' =>
      let acc' := byte_of_Z (48 + n mod 10) :: acc in
      if n <? 10 then acc' else digits_loop fuel' (n / 10) acc'
  end.

Definition FormatUint (n : Z) : bytes := digits_loop (S (Z.to_nat (Z.log2 n))) n [].

(** A string literal as the encoder writes it, HTML-safe: short escapes
    for the quote, the backslash, backspace, form feed, line feed, carriage
    return and tab; a u00XX escape for the other control bytes and for
    [<], [>], [&]; a u2028 or u2029 escape for these two code points; a
    ufffd escape for a byte that does not start a well-formed UTF-8
    sequence.  Other bytes pass unchanged.  [skip] counts the bytes still
    to copy of the sequence under way. *)
Fixpoint encode_string_loop (skip : nat) (s : bytes) {struct s} : bytes :=
  match s with
  | [] => []
  | c :: rest =>
      match skip with
      | S k => c :: encode_string_loop k rest
      | O =>
          if byte_to_Z c <? 0x80 then
            (if Byte.eqb c x22 then [x5c; x22]
             else if Byte.eqb c x5c then [x5c; x5c]
             else if Byte.eqb c x08 then [x5c; x62]
             else if Byte.eqb c x0c then [x5c; x66]
             else if Byte.eqb c x0a then [x5c; x6e]
             else if Byte.eqb c x0d then [x5c; x72]
             else if Byte.eqb c x09 then [x5c; x74]
             else if (byte_to_Z c <? 32) || Byte.eqb c x3c || Byte.eqb c x3e
                     || Byte.eqb c x26
             then escape_u00 c
             else [c]) ++ encode_string_loop 0 rest
          else
            match rest with
            | c1 :: c2 :: rest2 =>
                if Byte.eqb c xe2 && Byte.eqb c1 x80 && Byte.eqb c2 xa8
                then [x5c; x75; x32; x30; x32; x38] ++ encode_string_loop 0 rest2
                else if Byte.eqb c xe2 && Byte.eqb c1 x80 && Byte.eqb c2 xa9
                then [x5c; x75; x32; x30; x32; x39] ++ encode_string_loop 0 rest2
                else
                  match utf8_size s with
                  | O => [x5c; x75; x66; x66; x66; x64] ++ encode_string_loop 0 rest
                  | S k => c :: encode_string_loop k rest
                  end
            | _ =>
                match utf8_size s with
                | O => [x5c; x75; x66; x66; x66; x64] ++ encode_string_loop 0 rest
                | S k => c :: encode_string_loop k rest
                end
            end
      end
  end.

Definition encode_string (s : bytes) : bytes := x22 :: encode_string_loop 0 s ++ [x22].

Fixpoint join_comma (parts : list bytes) : bytes :=
  match parts with
  | [] => []
  | [p] => p
  | p :: parts' => p ++ x2c :: join_comma parts'
  end.

(** [{"name":value,...}] from its members, [[v,...]] from its elements. *)
Definition member (name value : bytes) : bytes := encode_string name ++ x3a :: value.
Definition object_text (members : list bytes) : bytes :=
  x7b :: join_comma members ++ [x7d].
Definition array_text (elems : list bytes) : bytes :=
  x5b :: join_comma elems ++ [x5d].

(** The order of Go strings: byte by byte. *)
Fixpoint bytes_leb (a b : bytes) : bool :=
  match a, b with
  | [], _ => true
  | _ :: _, [] => false
  | x :: a', y :: b' =>
      if byte_to_Z x <? byte_to_Z y then true
      else if byte_to_Z y <? byte_to_Z x then false
      else bytes_leb a' b'
  end.

(** Map entries in the order of their keys, as the encoder writes them. *)
Fixpoint insert_by_key {A} (e : bytes * A) (l : list (bytes * A)) : list (bytes * A) :=
  match l with
  | [] => [e]
  | e' :: l' => if bytes_leb (fst e) (fst e') then e :: l else e' :: insert_by_key e l'
  end.

Definition sort_by_key {A} (l : list (bytes * A)) : list (bytes * A) :=
  foldr insert_by_key [] l.

(** All the encodings, or the first failure. *)
Fixpoint all_some {A} (l : list (option A)) : option (list A) :=
  match l with
  | [] => Some []
  | Some a :: l' => match all_some l' with Some r => Some (a :: r) | None => None end
  | None :: _ => None
  end.

Section Encode.

Context {ExtObject : Type}.

(** [json.Marshal] of a decoded extension object, whose type is the
    registering package's. *)
Variable MarshalExt : ExtObject -> option bytes.

(** The text the encoder writes for a finite [float64]
    ([strconv.AppendFloat] in the shortest form that reads back, with
    the exponent form of ES6). *)
Variable FormatFloat : float64 -> bytes.

(** [floatEncoder]: NaN and the infinities are an
    [UnsupportedValueError]. *)
Definition encode_float (f : float64) : option bytes :=
  if PrimFloat.is_nan f || PrimFloat.is_infinity f then None
  else Some (FormatFloat f).

Definition encode_floats (l : list float64) : option bytes :=
  array_text <$> all_some (map encode_float l).

Definition encode_uints (l : list Z) : bytes := array_text (map FormatUint l).

(** An [interface{}] value. *)
Fixpoint encode_jvalue (v : jvalue) : option bytes :=
  match v with
  | VNull => Some (B "null")
  | VBool true => Some (B "true")
  | VBool false => Some (B "false")
  | VNumber f => encode_float f
  | VString s => Some (encode_string s)
  | VArray elems =>
      array_text <$> all_some (map encode_jvalue elems)
  | VObject members =>
      (fun kvs => object_text (map (fun kv => member (fst kv) (snd kv)) (sort_by_key kvs)))
      <$> all_some (map (fun kv => pair (fst kv) <$> encode_jvalue (snd kv)) members)
  end.

(** A value of the [Extensions] map: a [json.RawMessage] is written
    compacted, a decoded object as its own [json.Marshal] gives it. *)
Definition encode_ExtValue (v : ExtValue ExtObject) : option bytes :=
  match v with
  | ExtRaw raw => compact raw
  | ExtTyped o => MarshalExt o
  end.

Definition encode_Extensions (m : gmap bytes (ExtValue ExtObject)) : option bytes :=
  (fun kvs => object_text (map (fun kv => member (fst kv) (snd kv)) (sort_by_key kvs)))
  <$> all_some (map (fun kv => pair (fst kv) <$> encode_ExtValue (snd kv)) (map_to_list m)).

(** One field of a struct: nothing when [omitempty] applies and the
    value is empty, else the member [name:value]. *)
Definition field (omit : bool) (name : string) (value : option bytes)
    : option (list bytes) :=
  if omit then Some []
  else (fun v => [member (B name) v]) <$> value.

Definition always : bool := false.

(** [json.Marshal] of the node through its method-less [alias] type: the
    fields of [Node] in the order of their declaration, with their
    tags. *)
Definition json_Marshal_Node (n : Node.t ExtObject) : option bytes :=
  fs ← all_some [
    field (Nat.eqb (size (Node.Extensions n)) 0) "extensions"
          (encode_Extensions (Node.Extensions n));
    field (is_nil (Node.Extras n)) "extras" (encode_jvalue (Node.Extras n));
    field (bool_decide (Node.Name n = [])) "name" (Some (encode_string (Node.Name n)));
    field (bool_decide (Node.Camera n = None)) "camera" (FormatUint <$> Node.Camera n);
    field (bool_decide (Node.Children n = [])) "children"
          (Some (encode_uints (Node.Children n)));
    field (bool_decide (Node.Skin n = None)) "skin" (FormatUint <$> Node.Skin n);
    field always "matrix" (encode_floats (Node.Matrix n));
    field (bool_decide (Node.Mesh n = None)) "mesh" (FormatUint <$> Node.Mesh n);
    field always "rotation" (encode_floats (Node.Rotation n));
    field always "scale" (encode_floats (Node.Scale n));
    field always "translation" (encode_floats (Node.Translation n));
    field (bool_decide (Node.Weights n = [])) "weights"
          (encode_floats (Node.Weights n)) ];
  Some (object_text (concat fs)).

(** [Node.MarshalJSON]; [None] is the error of [json.Marshal]. *)
Definition Node_MarshalJSON (n : Node.t ExtObject) : option bytes :=
  out ← json_Marshal_Node n;
  let out :=
    if array_eq (Node.Matrix n) DefaultMatrix
    then removeProperty (J "'matrix':[1,0,0,0,0,1,0,0,0,0,1,0,0,0,0,1]") out
    else if array_eq (Node.Matrix n) emptyMatrix
    then removeProperty (J "'matrix':[0,0,0,0,0,0,0,0,0,0,0,0,0,0,0,0]") out
    else out in
  let out :=
    if array_eq (Node.Rotation n) DefaultRotation
    then removeProperty (J "'rotation':[0,0,0,1]") out
    else if array_eq (Node.Rotation n) emptyRotation
    then removeProperty (J "'rotation':[0,0,0,0]") out
    else out in
  let out :=
    if array_eq (Node.Scale n) DefaultScale
    then removeProperty (J "'scale':[1,1,1]") out
    else if array_eq (Node.Scale n) emptyScale
    then removeProperty (J "'scale':[0,0,0]") out
    else out in
  let out :=
    if array_eq (Node.Translation n) DefaultTranslation
    then removeProperty (J "'translation':[0,0,0]") out
    else out in
  Some (sanitizeJSON out).

(** The encoding the spec asks for (section 4.3): structured field by
    field emission in which the omission of each transform field is
    decided on its value, before anything is serialized. *)
Definition Node_encode_structured (n : Node.t ExtObject) : option bytes :=
  fs ← all_some [
    field (Nat.eqb (size (Node.Extensions n)) 0) "extensions"
          (encode_Extensions (Node.Extensions n));
    field (is_nil (Node.Extras n)) "extras" (encode_jvalue (Node.Extras n));
    field (bool_decide (Node.Name n = [])) "name" (Some (encode_string (Node.Name n)));
    field (bool_decide (Node.Camera n = None)) "camera" (FormatUint <$> Node.Camera n);
    field (bool_decide (Node.Children n = [])) "children"
          (Some (encode_uints (Node.Children n)));
    field (bool_decide (Node.Skin n = None)) "skin" (FormatUint <$> Node.Skin n);
    field (array_eq (Node.Matrix n) DefaultMatrix || array_eq (Node.Matrix n) emptyMatrix)
          "matrix" (encode_floats (Node.Matrix n));
    field (bool_decide (Node.Mesh n = None)) "mesh" (FormatUint <$> Node.Mesh n);
    field (array_eq (Node.Rotation n) DefaultRotation
           || array_eq (Node.Rotation n) emptyRotation)
          "rotation" (encode_floats (Node.Rotation n));
    field (array_eq (Node.Scale n) DefaultScale || array_eq (Node.Scale n) emptyScale)
          "scale" (encode_floats (Node.Scale n));
    field (array_eq (Node.Translation n) DefaultTranslation)
          "translation" (encode_floats (Node.Translation n));
    field (bool_decide (Node.Weights n = [])) "weights"
          (encode_floats (Node.Weights n)) ];
  Some (object_text (concat fs)).

(** [RGBA.MarshalJSON]: [json.Marshal([4]float64{c.R, c.G, c.B, c.A})]. *)
Definition RGBA_MarshalJSON (c : RGBA.t) : option bytes :=
encode_floats [RGBA.R c; RGBA.G c; RGBA.B c; RGBA.A c].

(** Go's [==] on [RGBA] values. *)
Definition RGBA_eq (a b : RGBA.t) : bool :=
PrimFloat.eqb (RGBA.R a) (RGBA.R b) && PrimFloat.eqb (RGBA.G a) (RGBA.G b)
&& PrimFloat.eqb (RGBA.B a) (RGBA.B b) && PrimFloat.eqb (RGBA.A a) (RGBA.A b).

(** [p != nil && *p == x] for a [*float64]. *)
Definition ptr_eq (p : option float64) (x : float64) : bool :=
match p with
| Some f => PrimFloat.eqb f x
| None => false
end.

Definition is_None {A} (o : option A) : bool :=
match o with Some _ => false | None => true end.

(** [json.Marshal] of a [TextureInfo], which has no method of its own. *)
Definition json_Marshal_TextureInfo (t : TextureInfo.t ExtObject) : option bytes :=
fs ← all_some [
  field (Nat.eqb (size (TextureInfo.Extensions _ t)) 0) "extensions"
        (encode_Extensions (TextureInfo.Extensions _ t));
  field (is_nil (TextureInfo.Extras _ t)) "extras" (encode_jvalue (TextureInfo.Extras _ t));
  field always "index" (Some (FormatUint (TextureInfo.Index _ t)));
  field (TextureInfo.TexCoord _ t =? 0) "texCoord"
        (Some (FormatUint (TextureInfo.TexCoord _ t))) ];
Some (object_text (concat fs)).

(** The fields of [PBRMetallicRoughness] before the last three, which
    [MarshalJSON] and structured emission treat alike. *)
Definition PBR_plain_fields (p : PBRMetallicRoughness.t ExtObject)
    : list (option (list bytes)) * list (option (list bytes)) :=
([ field (Nat.eqb (size (PBRMetallicRoughness.Extensions _ p)) 0) "extensions"
         (encode_Extensions (PBRMetallicRoughness.Extensions _ p));
   field (is_nil (PBRMetallicRoughness.Extras _ p)) "extras"
         (encode_jvalue (PBRMetallicRoughness.Extras _ p)) ],
 [ field (is_None (PBRMetallicRoughness.MetallicRoughnessTexture _ p))
         "metallicRoughnessTexture"
         (PBRMetallicRoughness.MetallicRoughnessTexture _ p ≫= json_Marshal_TextureInfo) ]).

(** [json.Marshal] of the pbr through its method-less [alias] type.  The
    output of [RGBA.MarshalJSON] goes through [compact]. *)
Definition json_Marshal_PBRMetallicRoughness (p : PBRMetallicRoughness.t ExtObject)
    : option bytes :=
fs ← all_some (
  fst (PBR_plain_fields p) ++
  [ field (is_None (PBRMetallicRoughness.BaseColorFactor _ p)) "baseColorFactor"
          ((PBRMetallicRoughness.BaseColorFactor _ p ≫= RGBA_MarshalJSON) ≫= compact);
    field (is_None (PBRMetallicRoughness.BaseColorTexture _ p)) "baseColorTexture"
          (PBRMetallicRoughness.BaseColorTexture _ p ≫= json_Marshal_TextureInfo);
    field (is_None (PBRMetallicRoughness.MetallicFactor _ p)) "metallicFactor"
          (PBRMetallicRoughness.MetallicFactor _ p ≫= encode_float);
    field (is_None (PBRMetallicRoughness.RoughnessFactor _ p)) "roughnessFactor"
          (PBRMetallicRoughness.RoughnessFactor _ p ≫= encode_float) ] ++
  snd (PBR_plain_fields p));
Some (object_text (concat fs)).

(** [PBRMetallicRoughness.MarshalJSON]. *)
Definition PBRMetallicRoughness_MarshalJSON (p : PBRMetallicRoughness.t ExtObject)
    : option bytes :=
out ← json_Marshal_PBRMetallicRoughness p;
let out :=
  if ptr_eq (PBRMetallicRoughness.MetallicFactor _ p) 1%float
  then removeProperty (J "'metallicFactor':1") out else out in
let out :=
  if ptr_eq (PBRMetallicRoughness.RoughnessFactor _ p) 1%float
  then removeProperty (J "'roughnessFactor':1") out else out in
let out :=
  match PBRMetallicRoughness.BaseColorFactor _ p with
  | Some c =>
      if RGBA_eq c (RGBA.mk 1%float 1%float 1%float 1%float)
      then removeProperty (J "'baseColorFactor':[1,1,1,1]") out else out
  | None => out
  end in
Some (sanitizeJSON out).

(** The encoding the spec asks for: a factor is left out when it is not
    there or equals its default, decided before serializing. *)
Definition PBRMetallicRoughness_encode_structured (p : PBRMetallicRoughness.t ExtObject)
    : option bytes :=
fs ← all_some (
  fst (PBR_plain_fields p) ++
  [ field (match PBRMetallicRoughness.BaseColorFactor _ p with
           | Some c => RGBA_eq c (RGBA.mk 1%float 1%float 1%float 1%float)
           | None => true
           end) "baseColorFactor"
          ((PBRMetallicRoughness.BaseColorFactor _ p ≫= RGBA_MarshalJSON) ≫= compact);
    field (is_None (PBRMetallicRoughness.BaseColorTexture _ p)) "baseColorTexture"
          (PBRMetallicRoughness.BaseColorTexture _ p ≫= json_Marshal_TextureInfo);
    field (is_None (PBRMetallicRoughness.MetallicFactor _ p)
           || ptr_eq (PBRMetallicRoughness.MetallicFactor _ p) 1%float) "metallicFactor"
          (PBRMetallicRoughness.MetallicFactor _ p ≫= encode_float);
    field (is_None (PBRMetallicRoughness.RoughnessFactor _ p)
           || ptr_eq (PBRMetallicRoughness.RoughnessFactor _ p) 1%float) "roughnessFactor"
          (PBRMetallicRoughness.RoughnessFactor _ p ≫= encode_float) ] ++
  snd (PBR_plain_fields p));
Some (object_text (concat fs)).

End Encode.

(** ** strconv *)

Definition digits_value (ds : bytes) : Z :=
  fold_left (fun acc c => acc * 10 + (byte_to_Z c - 48)) ds 0.

(** [strconv.ParseFloat(lit, 64)] on a number of the JSON grammar: the
    binary64 value nearest to the decimal, ties to even; a value out of
    range is an error ([None]).  The decimal is [d * 10^k]; for [k < 0] the
    quotient is taken with more than 64 bits and a sticky bit, and rounded
    once. *)
Definition ParseFloat (lit : bytes) : option float64 :=
  let '(neg, s1) := match lit with x2d :: s => (true, s) | _ => (false, lit) end in
  let '(ip, s2) := take_digits s1 in
  let '(fp, s3) := match s2 with x2e :: s => take_digits s | _ => ([], s2) end in
  let exp :=
    match s3 with
    | _ :: x2d :: s4 => - digits_value (fst (take_digits s4))
    | _ :: x2b :: s4 => digits_value (fst (take_digits s4))
    | _ :: s4 => digits_value (fst (take_digits s4))
    | [] => 0
    end in
  let d := digits_value (ip ++ fp) in
  let k := exp - len fp in
  let sgn := if neg then -1 else 1 in
  let sf :=
    if d =? 0 then S754_zero neg
    else if 0 <=? k then binary_normalize prec emax (sgn * d * 10 ^ k) 0 false
    else
      let D := 10 ^ (- k) in
      let s := Z.max 0 (Z.log2 D - Z.log2 d + 66) in
      let q := (d * 2 ^ s) / D in
      let sticky := if (d * 2 ^ s) mod D =? 0 then 0 else 1 in
      binary_normalize prec emax (sgn * (2 * q + sticky)) (- s - 1) false in
  match sf with
  | S754_infinity _ => None
  | _ => Some (SF2Prim sf)
  end.

(** [strconv.ParseUint(lit, 10, 64)] followed by the overflow check of a
    [uint32] target. *)
Definition ParseUint32 (lit : bytes) : option Z :=
  match take_digits lit with
  | ((_ :: _) as ds, []) =>
      let v := digits_value ds in if v <? 2 ^ 32 then Some v else None
  | _ => None
  end.

(** The text of a [float64] whose value is an integer of magnitude below
    [2^53]: its decimal digits, with the sign.  This is what
    [strconv.AppendFloat] gives there, and what the encoder writes; on
    every other value this function is not the encoder's and returns
    nothing. *)
Definition FormatFloat_integral (f : float64) : bytes :=
  match Prim2SF f with
  | S754_zero s => if s then B "-0" else B "0"
  | S754_finite s m e =>
      if (e <=? 0) && (Z.pos m mod 2 ^ (- e) =? 0)
      then (if s then [x2d] else []) ++ FormatUint (Z.pos m / 2 ^ (- e))
      else []
  | _ => []
  end.

(** ** encoding/json: storing JSON values into Go values *)

Definition first_error (a b : option error) : option error :=
  match a with Some e => Some e | None => b end.

(** A [string] target. *)
Definition store_string (name : string) (v : jtree) (old : bytes) : bytes * option error :=
  match v with
  | TString s => (s, None)
  | TNull => (old, None)
  | _ => (old, Some (json_UnmarshalTypeError name))
  end.

(** A [float64] target. *)
Definition store_float (name : string) (v : jtree) (old : float64)
    : float64 * option error :=
  match v with
  | TNumber lit =>
      match ParseFloat lit with
      | Some f => (f, None)
      | None => (old, Some (json_UnmarshalTypeError name))
      end
  | TNull => (old, None)
  | _ => (old, Some (json_UnmarshalTypeError name))
  end.

(** A [uint32] target. *)
Definition store_uint32 (name : string) (v : jtree) (old : Z) : Z * option error :=
  match v with
  | TNumber lit =>
      match ParseUint32 lit with
      | Some z => (z, None)
      | None => (old, Some (json_UnmarshalTypeError name))
      end
  | TNull => (old, None)
  | _ => (old, Some (json_UnmarshalTypeError name))
  end.

(** A [*uint32] target: [null] sets the pointer to nil; anything else
    allocates it when it is nil and stores through it. *)
Definition store_uint32_ptr (name : string) (v : jtree) (old : option Z)
    : option Z * option error :=
  match v with
  | TNull => (None, None)
  | _ => let '(z, e) := store_uint32 name v (default 0 old) in (Some z, e)
  end.

(** The elements of a JSON array stored over the elements of [old], the
    ones past the end of [old] over [zero]. *)
Fixpoint store_elems {A} (store : jtree -> A -> A * option error) (zero : A)
    (elems : list jtree) (old : list A) : list A * option error :=
  match elems with
  | [] => ([], None)
  | v :: elems' =>
      let '(x, e) := store v (hd zero old) in
      let '(xs, e') := store_elems store zero elems' (tl old) in
      (x :: xs, first_error e e')
  end.

(** A slice target: as long as the JSON array. *)
Definition store_slice {A} (name : string) (store : jtree -> A -> A * option error)
    (zero : A) (v : jtree) (old : list A) : list A * option error :=
  match v with
  | TArray elems => store_elems store zero elems old
  | TNull => ([], None)
  | _ => (old, Some (json_UnmarshalTypeError name))
  end.

(** An array target of [n] elements: the elements of the JSON array past
    the [n]th are skipped, the elements of the target that the JSON array
    does not reach are zeroed. *)
Definition store_array {A} (name : string) (store : jtree -> A -> A * option error)
    (zero : A) (n : nat) (v : jtree) (old : list A) : list A * option error :=
  match v with
  | TArray elems =>
      let '(xs, e) := store_elems store zero (firstn n elems) old in
      (xs ++ repeat zero (n - length xs), e)
  | TNull => (old, None)
  | _ => (old, Some (json_UnmarshalTypeError name))
  end.

(** A map entry set: the entry of the key replaced, or added. *)
Fixpoint assoc_set {A} (k : bytes) (v : A) (l : list (bytes * A)) : list (bytes * A) :=
  match l with
  | [] => [(k, v)]
  | (k', v') :: l' =>
      if bool_decide (k = k') then (k, v) :: l' else (k', v') :: assoc_set k v l'
  end.

(** An [interface{}] target holding nil. *)
Fixpoint store_interface (v : jtree) : jvalue * option error :=
  match v with
  | TNull => (VNull, None)
  | TBool b => (VBool b, None)
  | TNumber lit =>
      match ParseFloat lit with
      | Some f => (VNumber f, None)
      | None => (VNull, Some (json_UnmarshalTypeError "number"))
      end
  | TString s => (VString s, None)
  | TArray elems =>
      let fix go (l : list jtree) : list jvalue * option error :=
        match l with
        | [] => ([], None)
        | x :: l' =>
            let '(y, e) := store_interface x in
            let '(ys, e') := go l' in
            (y :: ys, first_error e e')
        end in
      let '(ys, e) := go elems in (VArray ys, e)
  | TObject members =>
      let fix go (l : list (bytes * (bytes * jtree))) (acc : list (bytes * jvalue))
          : list (bytes * jvalue) * option error :=
        match l with
        | [] => (acc, None)
        | (k, (_, x)) :: l' =>
            let '(y, e) := store_interface x in
            let '(r, e') := go l' (assoc_set k y acc) in
            (r, first_error e e')
        end in
      let '(ms, e) := go members [] in (VObject ms, e)
  end.

(** How a key of the JSON object finds its field: the field of that exact
    name, else the first field whose name equals the key under Unicode
    simple case folding. *)
Definition fold_case (c : byte) : byte :=
  if (65 <=? byte_to_Z c) && (byte_to_Z c <=? 90) then byte_of_Z (byte_to_Z c + 32) else c.

(** The folded form of a name: the ASCII letters in one case, and the two
    code points outside ASCII that Unicode simple folding joins to an
    ASCII letter, U+017F (long s, the bytes C5 BF) to [s] and U+212A
    (Kelvin sign, the bytes E2 84 AA) to [k].  Every other byte stays:
    folding maps the other code points among themselves, so they are never
    equal to a letter of an ASCII name, and the names of the fields are
    all ASCII. *)
Fixpoint fold_name (s : bytes) : bytes :=
  match s with
  | [] => []
  | c :: rest =>
      match rest with
      | c1 :: rest1 =>
          if Byte.eqb c xc5 && Byte.eqb c1 xbf then x73 :: fold_name rest1
          else
            match rest1 with
            | c2 :: rest2 =>
                if Byte.eqb c xe2 && Byte.eqb c1 x84 && Byte.eqb c2 xaa
                then x6b :: fold_name rest2
                else fold_case c :: fold_name rest
            | [] => fold_case c :: fold_name rest
            end
      | [] => [fold_case c]
      end
  end.

Definition equalFold (a b : bytes) : bool :=
  bool_decide (fold_name a = fold_name b).

Definition match_field (names : list string) (key : bytes) : option string :=
  match find (fun name => bool_decide (B name = key)) names with
  | Some name => Some name
  | None => find (fun name => equalFold (B name) key) names
  end.

Section Unmarshal.

Context {ExtObject : Type}.

(** The package-level registry [extensions].  A registered factory is
    carried as what [Extensions.UnmarshalJSON] does with it: make a new
    object and [json.Unmarshal] the payload into it; the result is the
    object, or nothing when that decode returns an error. *)
Variable extensions : gmap bytes (bytes -> option ExtObject).

(** [json.Unmarshal(data, &raw)] for [raw] of type [envelope], a nil map
    of [json.RawMessage]. *)
Definition json_Unmarshal_envelope (data : bytes) : gmap bytes bytes * option error :=
  match parse_json data with
  | None => (∅, Some json_SyntaxError)
  | Some TNull => (∅, None)
  | Some (TObject members) =>
      (foldl (fun (m : gmap bytes bytes) kv => <[fst kv := fst (snd kv)]> m) ∅ members,
       None)
  | Some _ => (∅, Some (json_UnmarshalTypeError "envelope"))
  end.

(** The body of the loop [for key, value := range raw]: what is stored
    under [key]. *)
Definition decode_extension (key value : bytes) : ExtValue ExtObject :=
  match extensions !! key with
  | Some extFactory =>
      match extFactory value with
      | None => ExtRaw value          (* err != nil *)
      | Some n => ExtTyped n
      end
  | None => ExtRaw value
  end.

(** [Extensions.UnmarshalJSON]: the map after the call, and the error. *)
Definition Extensions_UnmarshalJSON (ext : gmap bytes (ExtValue ExtObject)) (data : bytes)
    : gmap bytes (ExtValue ExtObject) * option error :=
  let '(raw, err) := json_Unmarshal_envelope data in
  match err with
  | None =>
      (map_fold (fun key value (ext : gmap bytes (ExtValue ExtObject)) =>
                   <[key := decode_extension key value]> ext) ext raw,
       None)
  | Some e => (ext, Some e)
  end.

Definition Node_fields : list string :=
  ["extensions"; "extras"; "name"; "camera"; "children"; "skin"; "matrix"; "mesh";
   "rotation"; "scale"; "translation"; "weights"]%string.

(** One member of the JSON object stored into the node.  The result is
    the node and the error; [inl] is the error of an [Unmarshaler], which
    ends the decode, [inr] an error the decoder notes before going on. *)
Definition is_field (f : option string) (name : string) : bool :=
  bool_decide (f = Some name).

Definition Node_store (key raw : bytes) (v : jtree) (n : Node.t ExtObject)
    : Node.t ExtObject * (error + option error) :=
  let '(Node.mk exts extras name camera children skin matrix mesh rotation scale
                translation weights) := n in
  let f := match_field Node_fields key in
  if is_field f "extensions" then
    match Extensions_UnmarshalJSON exts raw with
    | (exts', Some e) =>
        (Node.mk exts' extras name camera children skin matrix mesh rotation scale
                 translation weights, inl e)
    | (exts', None) =>
        (Node.mk exts' extras name camera children skin matrix mesh rotation scale
                 translation weights, inr None)
    end
  else if is_field f "extras" then
    let '(x, e) := store_interface v in
    (Node.mk exts x name camera children skin matrix mesh rotation scale
             translation weights, inr e)
  else if is_field f "name" then
    let '(x, e) := store_string "name" v name in
    (Node.mk exts extras x camera children skin matrix mesh rotation scale
             translation weights, inr e)
  else if is_field f "camera" then
    let '(x, e) := store_uint32_ptr "camera" v camera in
    (Node.mk exts extras name x children skin matrix mesh rotation scale
             translation weights, inr e)
  else if is_field f "children" then
    let '(x, e) := store_slice "children" (store_uint32 "children") 0 v children in
    (Node.mk exts extras name camera x skin matrix mesh rotation scale
             translation weights, inr e)
  else if is_field f "skin" then
    let '(x, e) := store_uint32_ptr "skin" v skin in
    (Node.mk exts extras name camera children x matrix mesh rotation scale
             translation weights, inr e)
  else if is_field f "matrix" then
    let '(x, e) := store_array "matrix" (store_float "matrix") 0%float 16 v matrix in
    (Node.mk exts extras name camera children skin x mesh rotation scale
             translation weights, inr e)
  else if is_field f "mesh" then
    let '(x, e) := store_uint32_ptr "mesh" v mesh in
    (Node.mk exts extras name camera children skin matrix x rotation scale
             translation weights, inr e)
  else if is_field f "rotation" then
    let '(x, e) := store_array "rotation" (store_float "rotation") 0%float 4 v rotation in
    (Node.mk exts extras name camera children skin matrix mesh x scale
             translation weights, inr e)
  else if is_field f "scale" then
    let '(x, e) := store_array "scale" (store_float "scale") 0%float 3 v scale in
    (Node.mk exts extras name camera children skin matrix mesh rotation x
             translation weights, inr e)
  else if is_field f "translation" then
    let '(x, e) :=
      store_array "translation" (store_float "translation") 0%float 3 v translation in
    (Node.mk exts extras name camera children skin matrix mesh rotation scale
             x weights, inr e)
  else if is_field f "weights" then
    let '(x, e) := store_slice "weights" (store_float "weights") 0%float v weights in
    (Node.mk exts extras name camera children skin matrix mesh rotation scale
             translation x, inr e)
  else (n, inr None).                (* no such field: the value is skipped *)

Fixpoint Node_store_members (members : list (bytes * (bytes * jtree)))
    (n : Node.t ExtObject) (saved : option error) : Node.t ExtObject * option error :=
  match members with
  | [] => (n, saved)
  | (key, (raw, v)) :: rest =>
      match Node_store key raw v n with
      | (n', inl e) => (n', Some e)
      | (n', inr e) => Node_store_members rest n' (first_error saved e)
      end
  end.

(** [json.Unmarshal(data, &tmp)] for [tmp] of the method-less [alias]
    type of [Node]. *)
Definition json_Unmarshal_Node (data : bytes) (tmp : Node.t ExtObject)
    : Node.t ExtObject * option error :=
  match parse_json data with
  | None => (tmp, Some json_SyntaxError)
  | Some TNull => (tmp, None)
  | Some (TObject members) => Node_store_members members tmp None
  | Some _ => (tmp, Some (json_UnmarshalTypeError "Node"))
  end.

(** [Node.UnmarshalJSON]: the receiver after the call, and the error. *)
Definition Node_UnmarshalJSON (n : Node.t ExtObject) (data : bytes)
    : Node.t ExtObject * option error :=
  let tmp := Node_tmp in
  let '(tmp, err) := json_Unmarshal_Node data tmp in
  match err with
  | None => (tmp, None)
  | Some e => (n, Some e)
  end.

End Unmarshal.

(** The fields that the keys of the members of an object are matched to. *)
Definition fields_of (members : list (bytes * (bytes * jtree))) : list (option string) :=
  map (fun kv => match_field Node_fields (fst kv)) members.

(** ** struct.go: the other UnmarshalJSON methods with defaults

    Each of them decodes into a new [tmp] seeded with the defaults and
    copies [tmp] over the receiver when the decode returned no error.
    [tmp] and the values its pointers lead to are made in the call, so the
    decode writes to nothing the receiver can reach. *)

Section UnmarshalDefaults.

Context {ExtObject : Type}.

(** [json.Unmarshal(data, &tmp)] for the method-less [alias] type of each
    struct: [tmp] after the call, and the error. *)
Variable json_Unmarshal_Material :
  bytes -> Material.t ExtObject -> Material.t ExtObject * option error.
Variable json_Unmarshal_NormalTexture :
  bytes -> NormalTexture.t ExtObject -> NormalTexture.t ExtObject * option error.
Variable json_Unmarshal_OcclusionTexture :
  bytes -> OcclusionTexture.t ExtObject -> OcclusionTexture.t ExtObject * option error.
Variable json_Unmarshal_PBRMetallicRoughness :
  bytes -> PBRMetallicRoughness.t ExtObject
  -> PBRMetallicRoughness.t ExtObject * option error.

Definition Material_UnmarshalJSON (m : Material.t ExtObject) (data : bytes)
    : Material.t ExtObject * option error :=
  let tmp := Material_tmp in
  let '(tmp, err) := json_Unmarshal_Material data tmp in
  match err with
  | None => (tmp, None)
  | Some e => (m, Some e)
  end.

Definition NormalTexture_UnmarshalJSON (n : NormalTexture.t ExtObject) (data : bytes)
    : NormalTexture.t ExtObject * option error :=
  let tmp := NormalTexture_tmp in
  let '(tmp, err) := json_Unmarshal_NormalTexture data tmp in
  match err with
  | None => (tmp, None)
  | Some e => (n, Some e)
  end.

Definition OcclusionTexture_UnmarshalJSON (o : OcclusionTexture.t ExtObject) (data : bytes)
    : OcclusionTexture.t ExtObject * option error :=
  let tmp := OcclusionTexture_tmp in
  let '(tmp, err) := json_Unmarshal_OcclusionTexture data tmp in
  match err with
  | None => (tmp, None)
  | Some e => (o, Some e)
  end.

Definition PBRMetallicRoughness_UnmarshalJSON (p : PBRMetallicRoughness.t ExtObject)
    (data : bytes) : PBRMetallicRoughness.t ExtObject * option error :=
  let tmp := PBRMetallicRoughness_tmp in
  let '(tmp, err) := json_Unmarshal_PBRMetallicRoughness data tmp in
  match err with
  | None => (tmp, None)
  | Some e => (p, Some e)
  end.

End UnmarshalDefaults.

(** ** Nodes used in the examples

    No extension is registered and no extension object exists
    ([ExtObject] is [Empty_set]); the floats are written by
    [FormatFloat_integral]. *)

Definition no_MarshalExt (o : Empty_set) : option bytes := match o with end.

Definition no_extensions : gmap bytes (bytes -> option Empty_set) := ∅.

(** [Node{Name: "{,"}]. *)
Definition node_brace_comma : Node.t Empty_set :=
  Node.mk ∅ VNull (B "{,") None [] None emptyMatrix None emptyRotation emptyScale
          (repeat 0%float 3) [].

(** A node with the default rotation whose [Extras] is the map
    [{"rotation": [0,0,0,1]}]. *)
Definition node_extras_default : Node.t Empty_set :=
  Node.mk ∅ (VObject [(B "rotation", VArray [VNumber 0%float; VNumber 0%float; VNumber 0%float; VNumber 1%float])])
          [] None [] None DefaultMatrix None DefaultRotation DefaultScale
          DefaultTranslation [].

(** [Node{Extras: map[string]interface{}{"rotation": [4]float64{}}}]: the
    transform fields are the all-zero arrays. *)
Definition node_extras_zero : Node.t Empty_set :=
  Node.mk ∅ (VObject [(B "rotation", VArray (repeat (VNumber 0%float) 4))])
          [] None [] None emptyMatrix None emptyRotation emptyScale
          (repeat 0%float 3) [].

(** A pbr with the default metallic factor whose [Extras] is the map
    [{"metallicFactor": 1}]. *)
Definition pbr_extras_metallic : PBRMetallicRoughness.t Empty_set :=
  PBRMetallicRoughness.mk ∅ (VObject [(B "metallicFactor", VNumber 1%float)])
                          None None (Float64 1%float) None None.

(** A registry with one factory, whose objects refuse every payload. *)
Definition refusing_extensions : gmap bytes (bytes -> option Empty_set) :=
  {[ B "XYZ_foo" := fun _ => None ]}.

(** ** What the readers and the trace are described by *)

(** The bytes a reader has still to deliver, whatever the errors between
    them. *)
Definition pending (rd : Reader) : bytes := concat (map ev_data rd).

(** The bytes not yet taken from a [bufio.Reader]: those in its buffer,
    then those of the underlying reader. *)
Definition unread (b : bufio_Reader) : bytes := b_buf b ++ pending (b_rd b).

(** What the JSON text declares of a buffer. *)
Definition declared (b : Buffer) : bytes * bytes * Z := (Name b, URI b, ByteLength b).

(** The events of the resolution of external buffers, one buffer after the
    other: a call of the callback alone, or a call followed by one read of
    the stream it returned and by the closing of that stream. *)
Inductive sessions : trace -> Prop :=
| sessions_nil : sessions []
| sessions_call uri rest :
    sessions rest -> sessions (CallbackCalled uri :: rest)
| sessions_load uri room rest :
    sessions rest ->
    sessions (CallbackCalled uri :: StreamRead uri room :: StreamClosed uri :: rest).

(** The URI an event is about. *)
Definition event_uri (ev : event) : bytes :=
  match ev with
  | CallbackCalled uri => uri
  | StreamRead uri _ => uri
  | StreamClosed uri => uri
  end.

(** ** Further inputs used in the examples *)

(** Three external buffers, the second with a URI that leaves the
    directory. *)
Definition json_three_buffers : bytes :=
  J "{'buffers':[{'uri':'model.bin','byteLength':3},{'uri':'../secret.bin','byteLength':3},{'uri':'model.bin','byteLength':3}]}".

Definition three_buffers : list Buffer :=
  [buffer_external; buffer_parent_uri; buffer_external].

(** A callback whose stream hands out five bytes at once. *)
Definition cb_five_bytes : ReadResourceCallback :=
  fun _ => (Some [ReadEvent (B "ABCDE") None], None).

(** A callback that fails, and hands out a stream all the same. *)
Definition cb_stream_and_error : ReadResourceCallback :=
  fun _ => (Some [ReadEvent (B "ABC") None], Some (errorString "not found")).

(** A decoder that stands before a binary chunk of four bytes, all of it
    buffered. *)
Definition binary_chunk_ABC : bytes := put_uint32 4 ++ put_uint32 glbChunkBIN.

Definition decoder_at_chunk : Decoder :=
  mkDecoder (BufioReader (binary_chunk_ABC ++ B "ABC" ++ [x00]) [] None) cb_none
            (mkQuotas 8 (32 * 1024 * 1024)).

(** ** encoding/base64: StdEncoding.EncodeToString

    [Encode] is the loop of [Encoding.Encode] over the full groups of three
    bytes, then the remaining one or two bytes with [=] padding. *)

Definition encodeStd : bytes :=
  B "ABCDEFGHIJKLMNOPQRSTUVWXYZabcdefghijklmnopqrstuvwxyz0123456789+/".

Definition encode (v : Z) : byte := nth (Z.to_nat v) encodeStd x00.

Definition sextet (val k : Z) : byte := encode (Z.land (Z.shiftr val k) 0x3F).

Fixpoint Encode (src : bytes) : bytes :=
  match src with
  | [] => []
  | [a] =>
      let val := Z.shiftl (byte_to_Z a) 16 in
      [sextet val 18; sextet val 12; padChar; padChar]
  | [a; b] =>
      let val := Z.lor (Z.shiftl (byte_to_Z a) 16) (Z.shiftl (byte_to_Z b) 8) in
      [sextet val 18; sextet val 12; sextet val 6; padChar]
  | a :: b :: c :: rest =>
      let val := Z.lor (Z.lor (Z.shiftl (byte_to_Z a) 16) (Z.shiftl (byte_to_Z b) 8))
                       (byte_to_Z c) in
      [sextet val 18; sextet val 12; sextet val 6; sextet val 0] ++ Encode rest
  end.

Definition EncodeToString (src : bytes) : bytes := Encode src.

(** [EmbeddedResource]: the URI becomes the data URI of [b.Data]. *)
Definition EmbeddedResource (b : Buffer) : Buffer :=
  mkBuffer (Name b) (mimetypeApplicationOctet ++ B "," ++ EncodeToString (Data b))
           (ByteLength b) (Data b).

(** A buffer of three bytes that is not yet an embedded resource. *)
Definition buffer_with_data : Buffer := mkBuffer [] [] 3 (B "ABC").

(** ** struct.go: Image *)

Module Image.
Record t := mk {
  Name : bytes;
  URI : bytes;
  MimeType : bytes;
  BufferView : Z
}.
End Image.

(** Modelled from the spec: the constant is declared in a file that is not
    among the sources.  Section 6 gives the URI form
    [data:image/png;base64,<payload>]; as for buffers the constant ends
    before the comma. *)
Definition mimetypeImagePNG : bytes := B "data:image/png;base64".

(** Modelled from the spec: section 6, [data:image/jpeg;base64,<payload>]. *)
Definition mimetypeImageJPG : bytes := B "data:image/jpeg;base64".

Definition Image_IsEmbeddedResource (im : Image.t) : bool :=
  HasPrefix (Image.URI im) mimetypeImagePNG || HasPrefix (Image.URI im) mimetypeImageJPG.

(** [Image.MarshalData].  [im.URI[startPos:]] panics when the URI is the
    bare prefix. *)
Definition Image_MarshalData (im : Image.t) : outcome (bytes * option error) :=
  if negb (Image_IsEmbeddedResource im) then Returns ([], None)
  else
    let mimetype :=
      if HasPrefix (Image.URI im) mimetypeImageJPG then mimetypeImageJPG
      else mimetypeImagePNG in
    let startPos := len mimetype + 1 in
    if len (Image.URI im) <? startPos
    then Panics "slice bounds out of range"
    else Returns (DecodeString (skipn (Z.to_nat startPos) (Image.URI im))).

(** An image embedded as a PNG data URI. *)
Definition image_QUJD : Image.t := Image.mk [] (B "data:image/png;base64,QUJD") [] 0.

(** ** struct.go: the accessors of Node with defaults *)

Definition Node_MatrixOrDefault {ExtObject : Type} (n : Node.t ExtObject) : list float64 :=
  if array_eq (Node.Matrix n) emptyMatrix then DefaultMatrix else Node.Matrix n.

Definition Node_RotationOrDefault {ExtObject : Type} (n : Node.t ExtObject) : list float64 :=
  if array_eq (Node.Rotation n) emptyRotation then DefaultRotation else Node.Rotation n.

Definition Node_ScaleOrDefault {ExtObject : Type} (n : Node.t ExtObject) : list float64 :=
  if array_eq (Node.Scale n) emptyScale then DefaultScale else Node.Scale n.

Definition Node_TranslationOrDefault {ExtObject : Type} (n : Node.t ExtObject)
    : list float64 :=
  Node.Translation n.

(** A decoder whose memory quota is two bytes. *)
Definition decoder_two_bytes : Decoder :=
  SetQuotas (NewDecoder [ReadEvent json_external_buffer None] cb_two_reads) (mkQuotas 8 2).

(** ** struct.go: RegisterExtension *)

(** [RegisterExtension]: [extensions[key] = f], on the registry passed
    along.  The factory is carried as in [Extensions_UnmarshalJSON]. *)
Definition RegisterExtension {ExtObject : Type} (key : bytes)
    (f : bytes -> option ExtObject)
    (extensions : gmap bytes (bytes -> option ExtObject))
    : gmap bytes (bytes -> option ExtObject) :=
  <[key := f]> extensions.

(** A factory whose object is the payload itself, and one that refuses
    every payload. *)
Definition factory_accepting : bytes -> option bytes := fun value => Some value.
Definition factory_refusing : bytes -> option bytes := fun _ => None.

(** ** struct.go: RGBA and RGB *)

Module RGB.
Record t := mk { R : float64; G : float64; B : float64 }.
End RGB.

(** [NewRGB()]. *)
Definition NewRGB : option RGB.t := Some (RGB.mk 1%float 1%float 1%float).

(** [json.Unmarshal(data, &tmp)] for [tmp] an array of [n] [float64]. *)
Definition json_Unmarshal_floats (n : nat) (data : bytes) (tmp : list float64)
    : list float64 * option error :=
  match parse_json data with
  | None => (tmp, Some json_SyntaxError)
  | Some v => store_array "[]float64" (store_float "float64") 0%float n v tmp
  end.

(** [RGBA.UnmarshalJSON]: the receiver after the call, and the error. *)
Definition RGBA_UnmarshalJSON (c : RGBA.t) (data : bytes) : RGBA.t * option error :=
  let tmp := [1; 1; 1; 1]%float in
  let '(tmp, err) := json_Unmarshal_floats 4 data tmp in
  match err with
  | None =>
      (RGBA.mk (nth 0 tmp 0%float) (nth 1 tmp 0%float) (nth 2 tmp 0%float)
               (nth 3 tmp 0%float), None)
  | Some e => (c, Some e)
  end.

(** [RGB.UnmarshalJSON]. *)
Definition RGB_UnmarshalJSON (c : RGB.t) (data : bytes) : RGB.t * option error :=
  let tmp := [1; 1; 1]%float in
  let '(tmp, err) := json_Unmarshal_floats 3 data tmp in
  match err with
  | None => (RGB.mk (nth 0 tmp 0%float) (nth 1 tmp 0%float) (nth 2 tmp 0%float), None)
  | Some e => (c, Some e)
  end.

(** The components of a colour in the order of its array form, the one
    [MarshalJSON] writes and [UnmarshalJSON] reads. *)
Definition RGBA_components (c : RGBA.t) : list float64 :=
  [RGBA.R c; RGBA.G c; RGBA.B c; RGBA.A c].

Definition RGB_components (c : RGB.t) : list float64 :=
  [RGB.R c; RGB.G c; RGB.B c].

(** ** struct.go: NormalTexture, OcclusionTexture and Camera, encoded *)

Module Orthographic.
Record t (ExtObject : Type) := mk {
  Extensions : gmap bytes (ExtValue ExtObject);
  Extras : jvalue;
  Xmag : float64;
  Ymag : float64;
  Zfar : float64;
  Znear : float64
}.
Arguments mk {ExtObject}.
End Orthographic.

Module Perspective.
Record t (ExtObject : Type) := mk {
  Extensions : gmap bytes (ExtValue ExtObject);
  Extras : jvalue;
  AspectRatio : option float64;
  Yfov : float64;
  Zfar : option float64;
  Znear : float64
}.
Arguments mk {ExtObject}.
End Perspective.

Module Camera.
Record t (ExtObject : Type) := mk {
  Extensions : gmap bytes (ExtValue ExtObject);
  Extras : jvalue;
  Name : bytes;
  Orthographic : option (Orthographic.t ExtObject);
  Perspective : option (Perspective.t ExtObject)
}.
Arguments mk {ExtObject}.
End Camera.

Section Encode_more.

Context {ExtObject : Type}.
Variable MarshalExt : ExtObject -> option bytes.
Variable FormatFloat : float64 -> bytes.

(** The fields of [NormalTexture] before [Scale]. *)
Definition NormalTexture_fields (n : NormalTexture.t ExtObject)
    : list (option (list bytes)) :=
  [ field (Nat.eqb (size (NormalTexture.Extensions _ n)) 0) "extensions"
          (encode_Extensions MarshalExt (NormalTexture.Extensions _ n));
    field (is_nil (NormalTexture.Extras _ n)) "extras"
          (encode_jvalue FormatFloat (NormalTexture.Extras _ n));
    field (is_None (NormalTexture.Index _ n)) "index"
          (FormatUint <$> NormalTexture.Index _ n);
    field (NormalTexture.TexCoord _ n =? 0) "texCoord"
          (Some (FormatUint (NormalTexture.TexCoord _ n))) ].

(** [json.Marshal] of the texture through its method-less [alias] type. *)
Definition json_Marshal_NormalTexture (n : NormalTexture.t ExtObject) : option bytes :=
  fs ← all_some (NormalTexture_fields n ++
                 [ field (is_None (NormalTexture.Scale _ n)) "scale"
                         (NormalTexture.Scale _ n ≫= encode_float FormatFloat) ]);
  Some (object_text (concat fs)).

(** [json.Marshal] of the struct with a [Scale float64] field of its own,
    tagged [scale,omitempty], before the embedded [alias]: the outer field
    hides the [Scale] of [alias] and is written first, when it is not
    zero. *)
Definition json_Marshal_NormalTexture_shadowed (scale : float64)
    (n : NormalTexture.t ExtObject) : option bytes :=
  fs ← all_some (field (PrimFloat.eqb scale 0%float) "scale"
                       (encode_float FormatFloat scale)
                 :: NormalTexture_fields n);
  Some (object_text (concat fs)).

(** [NormalTexture.MarshalJSON]. *)
Definition NormalTexture_MarshalJSON (n : NormalTexture.t ExtObject) : option bytes :=
  if ptr_eq (NormalTexture.Scale _ n) 1%float
  then json_Marshal_NormalTexture_shadowed 0%float n
  else json_Marshal_NormalTexture n.

(** The fields of [OcclusionTexture] before [Strength]. *)
Definition OcclusionTexture_fields (o : OcclusionTexture.t ExtObject)
    : list (option (list bytes)) :=
  [ field (Nat.eqb (size (OcclusionTexture.Extensions _ o)) 0) "extensions"
          (encode_Extensions MarshalExt (OcclusionTexture.Extensions _ o));
    field (is_nil (OcclusionTexture.Extras _ o)) "extras"
          (encode_jvalue FormatFloat (OcclusionTexture.Extras _ o));
    field (is_None (OcclusionTexture.Index _ o)) "index"
          (FormatUint <$> OcclusionTexture.Index _ o);
    field (OcclusionTexture.TexCoord _ o =? 0) "texCoord"
          (Some (FormatUint (OcclusionTexture.TexCoord _ o))) ].

Definition json_Marshal_OcclusionTexture (o : OcclusionTexture.t ExtObject)
    : option bytes :=
  fs ← all_some (OcclusionTexture_fields o ++
                 [ field (is_None (OcclusionTexture.Strength _ o)) "strength"
                         (OcclusionTexture.Strength _ o ≫= encode_float FormatFloat) ]);
  Some (object_text (concat fs)).

Definition json_Marshal_OcclusionTexture_shadowed (strength : float64)
    (o : OcclusionTexture.t ExtObject) : option bytes :=
  fs ← all_some (field (PrimFloat.eqb strength 0%float) "strength"
                       (encode_float FormatFloat strength)
                 :: OcclusionTexture_fields o);
  Some (object_text (concat fs)).

(** [OcclusionTexture.MarshalJSON]. *)
Definition OcclusionTexture_MarshalJSON (o : OcclusionTexture.t ExtObject)
    : option bytes :=
  if ptr_eq (OcclusionTexture.Strength _ o) 1%float
  then json_Marshal_OcclusionTexture_shadowed 0%float o
  else json_Marshal_OcclusionTexture o.

(** [json.Marshal] of an [Orthographic] and of a [Perspective], which have
    no method of their own. *)
Definition json_Marshal_Orthographic (o : Orthographic.t ExtObject) : option bytes :=
  fs ← all_some [
    field (Nat.eqb (size (Orthographic.Extensions _ o)) 0) "extensions"
          (encode_Extensions MarshalExt (Orthographic.Extensions _ o));
    field (is_nil (Orthographic.Extras _ o)) "extras"
          (encode_jvalue FormatFloat (Orthographic.Extras _ o));
    field always "xmag" (encode_float FormatFloat (Orthographic.Xmag _ o));
    field always "ymag" (encode_float FormatFloat (Orthographic.Ymag _ o));
    field always "zfar" (encode_float FormatFloat (Orthographic.Zfar _ o));
    field always "znear" (encode_float FormatFloat (Orthographic.Znear _ o)) ];
  Some (object_text (concat fs)).

Definition json_Marshal_Perspective (p : Perspective.t ExtObject) : option bytes :=
  fs ← all_some [
    field (Nat.eqb (size (Perspective.Extensions _ p)) 0) "extensions"
          (encode_Extensions MarshalExt (Perspective.Extensions _ p));
    field (is_nil (Perspective.Extras _ p)) "extras"
          (encode_jvalue FormatFloat (Perspective.Extras _ p));
    field (is_None (Perspective.AspectRatio _ p)) "aspectRatio"
          (Perspective.AspectRatio _ p ≫= encode_float FormatFloat);
    field always "yfov" (encode_float FormatFloat (Perspective.Yfov _ p));
    field (is_None (Perspective.Zfar _ p)) "zfar"
          (Perspective.Zfar _ p ≫= encode_float FormatFloat);
    field always "znear" (encode_float FormatFloat (Perspective.Znear _ p)) ];
  Some (object_text (concat fs)).

(** The fields of [Camera], in the order of their declaration. *)
Definition Camera_fields (c : Camera.t ExtObject) : list (option (list bytes)) :=
  [ field (Nat.eqb (size (Camera.Extensions _ c)) 0) "extensions"
          (encode_Extensions MarshalExt (Camera.Extensions _ c));
    field (is_nil (Camera.Extras _ c)) "extras"
          (encode_jvalue FormatFloat (Camera.Extras _ c));
    field (bool_decide (Camera.Name _ c = [])) "name"
          (Some (encode_string (Camera.Name _ c)));
    field (is_None (Camera.Orthographic _ c)) "orthographic"
          (Camera.Orthographic _ c ≫= json_Marshal_Orthographic);
    field (is_None (Camera.Perspective _ c)) "perspective"
          (Camera.Perspective _ c ≫= json_Marshal_Perspective) ].

(** [json.Marshal] of the struct with a [Type string] field tagged [type]
    before the embedded [alias]. *)
Definition json_Marshal_Camera_typed (type : string) (c : Camera.t ExtObject)
    : option bytes :=
  fs ← all_some (field always "type" (Some (encode_string (B type))) :: Camera_fields c);
  Some (object_text (concat fs)).

(** [Camera.MarshalJSON]: [inl] is what [json.Marshal] returned, [None]
    for its error; [inr] is the error of the method itself. *)
Definition Camera_MarshalJSON (c : Camera.t ExtObject) : option bytes + error :=
  if negb (is_None (Camera.Perspective _ c))
  then inl (json_Marshal_Camera_typed "perspective" c)
  else if negb (is_None (Camera.Orthographic _ c))
  then inl (json_Marshal_Camera_typed "orthographic" c)
  else inr (errorString
              "gltf: camera must defined either the perspective or orthographic property").

End Encode_more.

(** A camera with both projections set. *)
Definition camera_both : Camera.t Empty_set :=
  Camera.mk ∅ VNull []
    (Some (Orthographic.mk ∅ VNull 1%float 1%float 2%float 1%float))
    (Some (Perspective.mk ∅ VNull None 1%float None 1%float)).

(** A normal texture with the default scale. *)
Definition normalTexture_one : NormalTexture.t Empty_set :=
  NormalTexture.mk ∅ (VObject [(B "scale", VNumber 1%float)]) (Some 2) 0 (Float64 1%float).

(** ** struct.go: the accessors of the texture references with defaults *)

Definition NormalTexture_ScaleOrDefault {ExtObject : Type}
    (n : NormalTexture.t ExtObject) : float64 :=
  match NormalTexture.Scale _ n with
  | None => 1%float
  | Some scale => scale
  end.

Definition OcclusionTexture_StrengthOrDefault {ExtObject : Type}
    (o : OcclusionTexture.t ExtObject) : float64 :=
  match OcclusionTexture.Strength _ o with
  | None => 1%float
  | Some strength => strength
  end.

(** An occlusion texture with the default strength. *)
Definition occlusionTexture_one : OcclusionTexture.t Empty_set :=
  OcclusionTexture.mk ∅ VNull (Some 0) 1 (Float64 1%float).

(** A decoder whose input ends three bytes into a chunk header. *)
Definition decoder_truncated : Decoder :=
  mkDecoder (BufioReader (put_uint32 4 ++ B "BIN") [] None) cb_none
            (mkQuotas 8 (32 * 1024 * 1024)).

(* ===================================================================== *)
(** * Part II: theorems                                                    *)
(* ===================================================================== *)

Lemma HasPrefix_spec (s p : bytes) :
  HasPrefix s p = true <-> exists rest, s = p ++ rest.
Proof.
  revert s; induction p as [|c p IH]; intros s; simpl.
  - split; [ intros _; by exists s | done ].
  - destruct s as [|d s].
    + split; [ done | intros [rest H]; discriminate H ].
    + rewrite andb_true_iff, IH. split.
      * intros [Hc [rest ->]]. apply Byte.byte_dec_bl in Hc as ->. by exists rest.
      * intros [rest H]. injection H as -> ->. split; [ by apply Byte.byte_dec_lb | by exists rest ].
Qed.

Lemma Contains_spec (s sub : bytes) :
  Contains s sub = true <-> exists pre post, s = pre ++ sub ++ post.
Proof.
  induction s as [|c s IH]; simpl.
  - rewrite orb_false_r, HasPrefix_spec. split.
    + intros [rest H]. by exists [], rest.
    + intros [pre [post H]]. destruct pre; [ by exists post | discriminate H ].
  - rewrite orb_true_iff, HasPrefix_spec, IH. split.
    + intros [[rest H] | [pre [post ->]]].
      * by exists [], rest.
      * by exists (c :: pre), post.
    + intros [pre [post H]]. destruct pre as [|d pre].
      * left. by exists post.
      * right. injection H as -> ->. by exists pre, post.
Qed.

Lemma validateBufferURI_None_iff (uri : bytes) :
  validateBufferURI uri = None <->
  uri <> [] /\
  (forall pre post, uri <> pre ++ B ".." ++ post) /\
  (forall rest, uri <> B "/" ++ rest) /\
  (forall rest, uri <> B "\" ++ rest).
Proof.
  unfold validateBufferURI.
  destruct (bool_decide (uri = [])) eqn:He; cbn [orb].
  { apply bool_decide_eq_true in He. split; [ done | intros [H _]; done ]. }
  apply bool_decide_eq_false in He.
  destruct (Contains uri (B "..")) eqn:Hc; cbn [orb].
  { apply Contains_spec in Hc as [pre [post H]].
    split; [ done | intros (_ & Hn & _); by destruct (Hn pre post) ]. }
  destruct (HasPrefix uri (B "/")) eqn:Hs; cbn [orb].
  { apply HasPrefix_spec in Hs as [rest H].
    split; [ done | intros (_ & _ & Hn & _); by destruct (Hn rest) ]. }
  destruct (HasPrefix uri (B "\")) eqn:Hb; cbn [orb].
  { apply HasPrefix_spec in Hb as [rest H].
    split; [ done | intros (_ & _ & _ & Hn); by destruct (Hn rest) ]. }
  split; [ intros _ | done ]. repeat split; [ done | | | ].
  - intros pre post H.
    assert (Contains uri (B "..") = true) by (apply Contains_spec; eauto).
    congruence.
  - intros rest H.
    assert (HasPrefix uri (B "/") = true) by (apply HasPrefix_spec; eauto).
    congruence.
  - intros rest H.
    assert (HasPrefix uri (B "\") = true) by (apply HasPrefix_spec; eauto).
    congruence.
Qed.

Lemma validateBufferURI_error (uri : bytes) :
  validateBufferURI uri = None \/
  validateBufferURI uri =
    Some (errorString ("gltf: Invalid buffer.uri value '" +:+
                       string_of_list_byte uri +:+ "'")).
Proof. unfold validateBufferURI. destruct (_ || _); [ by right | by left ]. Qed.

(** C10: the URI validator rejects the empty URI, every URI in which the
    two bytes [..] occur at any offset, and every URI that starts with [/]
    or with a backslash; every other URI passes.  [my..file.bin] is
    rejected although [..] is not a path segment there. *)
Theorem validateBufferURI_spec :
  (forall uri : bytes,
     validateBufferURI uri = None <->
     uri <> [] /\
     (forall pre post, uri <> pre ++ B ".." ++ post) /\
     (forall rest, uri <> B "/" ++ rest) /\
     (forall rest, uri <> B "\" ++ rest)) /\
  (forall uri, validateBufferURI uri = None \/
     validateBufferURI uri =
       Some (errorString ("gltf: Invalid buffer.uri value '" +:+
                          string_of_list_byte uri +:+ "'"))) /\
  validateBufferURI (B "my..file.bin") <> None /\
  validateBufferURI (B "model.bin") = None.
Proof.
  split; [ exact validateBufferURI_None_iff | ].
  split; [ exact validateBufferURI_error | ].
  split; by vm_compute.
Qed.

(** ** The loop over the buffers *)

Lemma decodeBuffers_app d t pre rest t1 pre' :
  decodeBuffers d t pre = (t1, pre', None) ->
  decodeBuffers d t (pre ++ rest) =
    (let '(t2, rest', err) := decodeBuffers d t1 rest in (t2, pre' ++ rest', err)).
Proof.
  revert t t1 pre'. induction pre as [|b pre IH]; intros t t1 pre' H; simpl in *.
  - injection H as -> <-. by destruct (decodeBuffers d t1 rest) as [[? ?] ?].
  - destruct (decodeBuffer d t b) as [[ta b'] [e|]]; [ discriminate H | ].
    destruct (decodeBuffers d ta pre) as [[tb pre''] err] eqn:Hpre.
    injection H as -> <- ->.
    rewrite (IH _ _ _ Hpre).
    by destruct (decodeBuffers d t1 rest) as [[? ?] ?].
Qed.

Lemma readGLBHeader_quotas d d1 h e :
  readGLBHeader d = (d1, h, e) -> quotas d1 = quotas d.
Proof.
  unfold readGLBHeader.
  destruct (bufio_Peek _ _) as [[chunk [err|]] r1]; [ by intros [= <- _ _] | ].
  destruct (negb _); [ by intros [= <- _ _] | ].
  destruct (bufio_Read _ _) as [? r2]. by intros [= <- _ _].
Qed.

Lemma decodeDocument_count jd d doc d1 doc1 isBinary :
  decodeDocument jd d doc = (d1, doc1, isBinary, None) ->
  (len (Buffers doc1) >? MaxBufferCount (quotas d1)) = false.
Proof.
  unfold decodeDocument.
  destruct (readGLBHeader d) as [[d0 h] [e|]] eqn:Hh; [ discriminate | ].
  apply readGLBHeader_quotas in Hh.
  destruct (jd _ _ _) as [[r2 doc'] [e|]]; [ discriminate | ].
  destruct (len (Buffers doc') >? MaxBufferCount (quotas d)) eqn:Hq; [ discriminate | ].
  intros [= <- <- _]. simpl. by rewrite Hh.
Qed.

(** What [Decode] does from the moment it reaches a buffer. *)
Lemma Decode_reaches jd d t doc d2 t1 before b after :
  reaches jd d t doc d2 t1 before b after ->
  Decode jd d t doc =
    match decodeBuffer d2 t1 b with
    | (t2, b', Some e) => (d2, t2, mkDocument (before ++ b' :: after), Some e)
    | (t2, b', None) =>
        let '(t3, after', err) := decodeBuffers d2 t2 after in
        (d2, t3, mkDocument (before ++ b' :: after'), err)
    end.
Proof.
  intros (d1 & doc1 & isBinary & bs & idx & pre & pre' & Hdoc & Hbin & Hsplit & Hpre & ->).
  unfold Decode. rewrite Hdoc, (decodeDocument_count _ _ _ _ _ _ Hdoc), Hbin, Hsplit.
  rewrite (decodeBuffers_app _ _ _ _ _ _ Hpre). simpl.
  destruct (decodeBuffer d2 t1 b) as [[t2 b'] [e|]].
  - by rewrite <- app_assoc.
  - destruct (decodeBuffers d2 t2 after) as [[t3 after'] err].
    by rewrite <- app_assoc.
Qed.

(** ** C6: the buffer-count quota *)

(** C6: when the JSON decode stored a document with more buffers than
    [MaxBufferCount], [Decode] returns the quota error; the document is the
    one the JSON decode stored (no buffer's [Data] is written), the reader
    stands where the JSON decode left it, and the trace has not grown (no
    callback call, no stream read). *)
Theorem Decode_buffer_count_quota jd d t doc d1 header r2 doc' :
  readGLBHeader d = (d1, header, None) ->
  jd (r d1) (jsonLimit header) doc = (r2, doc', None) ->
  len (Buffers doc') > MaxBufferCount (quotas d) ->
  Decode jd d t doc =
    (set_r d1 r2, t, doc',
     Some (errorString "gltf: Quota exceeded, number of buffer > MaxBufferCount")).
Proof.
  intros Hh Hjd Hn. unfold Decode, decodeDocument. rewrite Hh, Hjd.
  assert ((len (Buffers doc') >? MaxBufferCount (quotas d)) = true) as ->
    by (apply Z.gtb_lt; lia).
  reflexivity.
Qed.

Lemma Decode_buffer_count_quota_witness :
  let d := NewDecoder [ReadEvent json_nine_buffers None] cb_two_reads in
  let jd := jsonDecode_stub 0 (mkDocument nine_buffers) in
  len nine_buffers = 9 /\ MaxBufferCount (quotas d) = 8 /\
  Decode jd d [] (mkDocument []) =
    (set_r d (fst (fst (readGLBHeader d))).(r), [], mkDocument nine_buffers,
     Some (errorString "gltf: Quota exceeded, number of buffer > MaxBufferCount")).
Proof.
  intros d jd. split; [ reflexivity | split; [ reflexivity | ] ].
  apply (Decode_buffer_count_quota jd d [] (mkDocument [])
           (fst (fst (readGLBHeader d))) None
           (r (fst (fst (readGLBHeader d)))) (mkDocument nine_buffers)).
  - by vm_compute.
  - by vm_compute.
  - by vm_compute.
Defined.

(** ** C3: embedded base64 buffers *)

Lemma HasPrefix_app (p rest : bytes) : HasPrefix (p ++ rest) p = true.
Proof. apply HasPrefix_spec. by exists rest. Qed.

Lemma marshalData_embedded b payload :
  URI b = mimetypeApplicationOctet ++ B "," ++ payload ->
  marshalData b =
    Returns match DecodeString payload with
            | (sl, None) => (sl, None)
            | (_, Some e) => ([], Some e)
            end.
Proof.
  intros HURI. unfold marshalData, IsEmbeddedResource.
  rewrite HURI, HasPrefix_app. cbn [negb].
  replace (len (mimetypeApplicationOctet ++ B "," ++ payload) <?
           len mimetypeApplicationOctet + 1) with false.
  2:{ symmetry. apply Z.ltb_ge. unfold len. rewrite !length_app. simpl. lia. }
  replace (skipn _ _) with payload by reflexivity.
  destruct (DecodeString payload) as [sl [e|]].
  - by rewrite orb_true_r.
  - rewrite orb_false_r. unfold len.
    destruct sl; reflexivity.
Qed.

(** C3, as stated, fails: an embedded URI with an empty payload decodes
    to no bytes, and [Decode] returns no error. *)
Lemma Decode_empty_payload_no_error :
  let d := NewDecoder [ReadEvent json_empty_payload None] cb_none in
  let jd := jsonDecode_stub 0 (mkDocument [buffer_empty_payload]) in
  IsEmbeddedResource buffer_empty_payload = true /\
  DecodeString [] = ([], None) /\
  let '(_, t', doc', err) := Decode jd d [] (mkDocument []) in
  err = None /\ doc' = mkDocument [buffer_empty_payload] /\ t' = [].
Proof. by vm_compute. Qed.

(** C3 (amended): for a buffer that [Decode] reaches, with a valid
    [byteLength] and the URI [data:application/octet-stream;base64,payload]:
    when the base64 decoding of [payload] succeeds, [Data] becomes exactly
    the decoded bytes (none, for an empty result) and [Decode] goes on with
    the next buffer without an error for this one; when it fails, [Decode]
    returns that error and [Data] is empty.  The callback is not called. *)
Theorem Decode_embedded_buffer jd d t doc d2 t1 before b after payload :
  reaches jd d t doc d2 t1 before b after ->
  validateBuffer d2 b = None ->
  URI b = mimetypeApplicationOctet ++ B "," ++ payload ->
  Decode jd d t doc =
    match DecodeString payload with
    | (sl, None) =>
        let '(t', after', err) := decodeBuffers d2 t1 after in
        (d2, t', mkDocument (before ++ set_Data b sl :: after'), err)
    | (_, Some e) =>
        (d2, t1, mkDocument (before ++ set_Data b [] :: after), Some e)
    end.
Proof.
  intros Hreach Hvalid HURI.
  rewrite (Decode_reaches _ _ _ _ _ _ _ _ _ Hreach).
  unfold decodeBuffer. rewrite Hvalid.
  assert (bool_decide (URI b = []) = false) as ->.
  { apply bool_decide_eq_false. rewrite HURI. discriminate. }
  assert (IsEmbeddedResource b = true) as ->.
  { unfold IsEmbeddedResource. rewrite HURI. apply HasPrefix_app. }
  rewrite (marshalData_embedded _ _ HURI).
  by destruct (DecodeString payload) as [sl [e|]].
Qed.

Ltac reaches_by_evaluation pre pre' :=
  unfold reaches; eexists _, _, _, _, _, pre, pre';
  repeat split; lazy; reflexivity.

Lemma Decode_embedded_buffer_witness :
  let d := NewDecoder [ReadEvent json_QUJD None] cb_none in
  let jd := jsonDecode_stub 0 (mkDocument [buffer_QUJD]) in
  let d2 := fst (fst (fst (Decode jd d [] (mkDocument [])))) in
  reaches jd d [] (mkDocument []) d2 [] [] buffer_QUJD [] /\
  validateBuffer d2 buffer_QUJD = None /\
  URI buffer_QUJD = mimetypeApplicationOctet ++ B "," ++ B "QUJD" /\
  Decode jd d [] (mkDocument []) =
    (d2, [], mkDocument [set_Data buffer_QUJD (B "ABC")], None).
Proof.
  intros d jd d2.
  assert (reaches jd d [] (mkDocument []) d2 [] [] buffer_QUJD []) as Hreach
    by (reaches_by_evaluation (@nil Buffer) (@nil Buffer)).
  split; [ exact Hreach | ].
  split; [ reflexivity | ].
  split; [ reflexivity | ].
  exact (Decode_embedded_buffer jd d [] (mkDocument []) d2 [] [] buffer_QUJD []
           (B "QUJD") Hreach eq_refl eq_refl).
Defined.

(** ** C7: unsafe buffer URIs *)

(** C7, as stated, fails.  In a GLB container the first buffer is read
    from the binary chunk whatever its URI: with the URI [../secret.bin]
    [Decode] succeeds.  In plain JSON, a buffer with that URI and
    [byteLength] 0 is refused for its length, not for its URI. *)
Lemma Decode_unsafe_uri_not_validated :
  IsEmbeddedResource buffer_parent_uri = false /\
  validateBufferURI (URI buffer_parent_uri) <> None /\
  (let d := NewDecoder
              [ReadEvent (glb_container json_parent_uri (B "ABC" ++ [x00])) None]
              cb_none in
   let jd := jsonDecode_stub (length json_parent_uri) (mkDocument [buffer_parent_uri]) in
   let '(_, t', doc', err) := Decode jd d [] (mkDocument []) in
   err = None /\ doc' = mkDocument [set_Data buffer_parent_uri (B "ABC")] /\ t' = []) /\
  (let d := NewDecoder [ReadEvent json_parent_uri_zero None] cb_none in
   let jd := jsonDecode_stub 0 (mkDocument [buffer_parent_uri_zero]) in
   let '(_, t', doc', err) := Decode jd d [] (mkDocument []) in
   err = Some (errorString "gltf: Invalid buffer.byteLength value = 0") /\ t' = []).
Proof. by vm_compute. Qed.

(** C7 (amended): for a buffer that [Decode] reaches in its loop (so it is
    not the binary-chunk buffer of a GLB container and every buffer before
    it resolved), with a valid [byteLength], that is not embedded and whose
    URI is empty, contains [..], or starts with [/] or a backslash:
    [Decode] fails, with "buffer without URI" for the empty URI and with
    the URI-validation error otherwise; the trace is the one from before
    the buffer (the callback is not called for it) and the buffer is
    unchanged. *)
Theorem Decode_unsafe_uri jd d t doc d2 t1 before b after :
  reaches jd d t doc d2 t1 before b after ->
  validateBuffer d2 b = None ->
  IsEmbeddedResource b = false ->
  (URI b = [] \/
   (exists pre post, URI b = pre ++ B ".." ++ post) \/
   (exists rest, URI b = B "/" ++ rest) \/
   (exists rest, URI b = B "\" ++ rest)) ->
  Decode jd d t doc =
    (d2, t1, mkDocument (before ++ b :: after),
     Some (if bool_decide (URI b = [])
           then errorString "gltf: buffer without URI"
           else errorString ("gltf: Invalid buffer.uri value '" +:+
                             string_of_list_byte (URI b) +:+ "'"))).
Proof.
  intros Hreach Hvalid Hemb Huri.
  rewrite (Decode_reaches _ _ _ _ _ _ _ _ _ Hreach).
  unfold decodeBuffer. rewrite Hvalid, Hemb.
  destruct (bool_decide (URI b = [])) eqn:He; [ reflexivity | ].
  apply bool_decide_eq_false in He.
  destruct (validateBufferURI_error (URI b)) as [Hnone | ->]; [ | reflexivity ].
  exfalso. apply validateBufferURI_None_iff in Hnone as (_ & Hdots & Hslash & Hback).
  destruct Huri as [H | [(pre & post & H) | [(rest & H) | (rest & H)]]].
  - done.
  - by apply (Hdots pre post).
  - by apply (Hslash rest).
  - by apply (Hback rest).
Qed.

Lemma Decode_unsafe_uri_witness :
  let d := NewDecoder [ReadEvent json_parent_uri None] cb_none in
  let jd := jsonDecode_stub 0 (mkDocument [buffer_parent_uri]) in
  let d2 := fst (fst (fst (Decode jd d [] (mkDocument [])))) in
  reaches jd d [] (mkDocument []) d2 [] [] buffer_parent_uri [] /\
  validateBuffer d2 buffer_parent_uri = None /\
  IsEmbeddedResource buffer_parent_uri = false /\
  URI buffer_parent_uri = [] ++ B ".." ++ B "/secret.bin" /\
  Decode jd d [] (mkDocument []) =
    (d2, [], mkDocument [buffer_parent_uri],
     Some (errorString "gltf: Invalid buffer.uri value '../secret.bin'")).
Proof.
  intros d jd d2.
  assert (reaches jd d [] (mkDocument []) d2 [] [] buffer_parent_uri []) as Hreach
    by (reaches_by_evaluation (@nil Buffer) (@nil Buffer)).
  split; [ exact Hreach | ].
  split; [ reflexivity | ].
  split; [ reflexivity | ].
  split; [ reflexivity | ].
  exact (Decode_unsafe_uri jd d [] (mkDocument []) d2 [] [] buffer_parent_uri []
           Hreach eq_refl eq_refl
           (or_intror (or_introl (ex_intro _ [] (ex_intro _ (B "/secret.bin") eq_refl))))).
Defined.

(** ** C2: reading a buffer's bytes *)

(** C2: [decodeBuffer] and [decodeBinaryBuffer] issue a single [Read].  A
    callback stream that hands out [ABC] as [A] then [BC] leaves [Data] as
    [A, 0, 0], the stream is closed after that one read, and [Decode]
    returns no error.  The same happens to the binary chunk of a GLB
    container whose bytes arrive in two reads, the first ending after the
    first byte of the chunk's data. *)
Theorem Decode_short_read :
  (let d := NewDecoder [ReadEvent json_external_buffer None] cb_two_reads in
   let jd := jsonDecode_stub 0 (mkDocument [buffer_external]) in
   let '(_, t', doc', err) := Decode jd d [] (mkDocument []) in
   err = None /\
   doc' = mkDocument [set_Data buffer_external [x41; x00; x00]] /\
   t' = [CallbackCalled (B "model.bin"); StreamRead (B "model.bin") 3;
         StreamClosed (B "model.bin")]) /\
  (let glb := glb_container json_one_buffer (B "ABC" ++ [x00]) in
   let n := (20 + length json_one_buffer + 8 + 1)%nat in
   let d := NewDecoder [ReadEvent (firstn n glb) None; ReadEvent (skipn n glb) None]
                       cb_none in
   let jd := jsonDecode_stub (length json_one_buffer) (mkDocument [buffer_binary]) in
   let '(_, t', doc', err) := Decode jd d [] (mkDocument []) in
   err = None /\
   doc' = mkDocument [set_Data buffer_binary [x41; x00; x00]]).
Proof. by vm_compute. Qed.

(** ** C4: the length check of the GLB header *)

(** C4: [validateGLBHeader] adds to [chunkLength] the size of its pointer
    parameter, 8, where the header takes 20 bytes, and it adds in
    [uint32].  A header with [totalLength = 12] and [chunkLength = 2]
    passes validation although [chunkLength + 20] exceeds [totalLength]:
    [readGLBHeader] returns it without an error and [Decode] goes on to
    decode the JSON text and returns no error.  With
    [chunkLength = 0xFFFFFFFA] and [totalLength = 22] the sum wraps to 2
    and the header passes as well. *)
Theorem validateGLBHeader_adds_pointer_size :
  (let d := NewDecoder [ReadEvent glb_short_total None] cb_none in
   let header := GlbHeader glbHeaderMagic 2 12 (ChunkHeader 2 glbChunkJSON) in
   ch_Length (JSONHeader header) + sizeof_glbHeader > Length header /\
   ch_Length (JSONHeader header) + sizeof_pointer <= Length header /\
   validateGLBHeader d header = None /\
   snd (fst (readGLBHeader d)) = Some header /\
   snd (readGLBHeader d) = None /\
   snd (Decode (jsonDecode_stub 2 (mkDocument [])) d [] (mkDocument [])) = None) /\
  (let d := NewDecoder [ReadEvent glb_wrapping None] cb_none in
   let header :=
     GlbHeader glbHeaderMagic 2 22 (ChunkHeader wrapping_chunkLength glbChunkJSON) in
   0 <= wrapping_chunkLength < 2 ^ 32 /\
   wrapping_chunkLength + sizeof_glbHeader > Length header /\
   wrapping_chunkLength + sizeof_pointer > Length header /\
   u32 (wrapping_chunkLength + sizeof_pointer) = 2 /\
   validateGLBHeader d header = None /\
   snd (fst (readGLBHeader d)) = Some header /\
   snd (readGLBHeader d) = None /\
   snd (Decode (jsonDecode_stub 2 (mkDocument [])) d [] (mkDocument [])) = None).
Proof. split; by vm_compute. Qed.

(** ** C1: MarshalJSON against structured emission *)

(** C1: [Node.MarshalJSON] and [PBRMetallicRoughness.MarshalJSON] edit the
    finished text, and the edits reach text that is not the property they
    are meant for.  For the node named [{,] the call of [sanitizeJSON]
    removes the comma inside the name: the output is [{"name":"{"}] where
    structured emission gives [{"name":"{,"}], and it reads back as the
    name [{].  For a node with the default rotation whose extras hold a
    member [rotation] with the value [0,0,0,1], the member of the extras is
    removed and the property of the node stays; likewise for a pbr with the
    default metallic factor whose extras hold a member [metallicFactor]
    with the value 1. *)
Theorem Node_MarshalJSON_not_structured :
  let marshal := Node_MarshalJSON no_MarshalExt FormatFloat_integral in
  let structured := Node_encode_structured no_MarshalExt FormatFloat_integral in
  let marshal_pbr := PBRMetallicRoughness_MarshalJSON no_MarshalExt FormatFloat_integral in
  let structured_pbr :=
    PBRMetallicRoughness_encode_structured no_MarshalExt FormatFloat_integral in
  marshal node_brace_comma = Some (J "{'name':'{'}") /\
  structured node_brace_comma = Some (J "{'name':'{,'}") /\
  Node.Name (fst (Node_UnmarshalJSON no_extensions Node_zero (J "{'name':'{'}"))) = B "{" /\
  marshal node_extras_default = Some (J "{'extras':{},'rotation':[0,0,0,1]}") /\
  structured node_extras_default = Some (J "{'extras':{'rotation':[0,0,0,1]}}") /\
  marshal_pbr pbr_extras_metallic = Some (J "{'extras':{},'metallicFactor':1}") /\
  structured_pbr pbr_extras_metallic = Some (J "{'extras':{'metallicFactor':1}}").
Proof. by vm_compute. Qed.

(** ** C5: the transform fields of a node *)

Section Node_decode_theorems.

Context {ExtObject : Type}.
Variable extensions : gmap bytes (bytes -> option ExtObject).

Ltac store_cases :=
  repeat match goal with
         | |- context [is_field ?f ?name] =>
             let H := fresh "Hf" in
             unfold is_field at 1; destruct (bool_decide (f = Some name)) eqn:H;
             [ apply bool_decide_eq_true in H | clear H ]
         | |- context [match ?t with pair _ _ => _ end] => destruct t as [? [?|]]
         | |- context [match ?t with pair _ _ => _ end] => destruct t
         end.

(** A member that does not name a transform field leaves that field as it
    was. *)
Lemma Node_store_other (key raw : bytes) (v : jtree) (n : Node.t ExtObject) :
  (match_field Node_fields key <> Some "matrix"%string ->
   Node.Matrix (fst (Node_store extensions key raw v n)) = Node.Matrix n) /\
  (match_field Node_fields key <> Some "rotation"%string ->
   Node.Rotation (fst (Node_store extensions key raw v n)) = Node.Rotation n) /\
  (match_field Node_fields key <> Some "scale"%string ->
   Node.Scale (fst (Node_store extensions key raw v n)) = Node.Scale n) /\
  (match_field Node_fields key <> Some "translation"%string ->
   Node.Translation (fst (Node_store extensions key raw v n)) = Node.Translation n).
Proof.
  destruct n. unfold Node_store.
  repeat split; intros Hne; store_cases; simpl; congruence.
Qed.

Lemma Node_store_members_other members (n : Node.t ExtObject) saved :
  let n' := fst (Node_store_members extensions members n saved) in
  (Some "matrix"%string ∉ fields_of members -> Node.Matrix n' = Node.Matrix n) /\
  (Some "rotation"%string ∉ fields_of members -> Node.Rotation n' = Node.Rotation n) /\
  (Some "scale"%string ∉ fields_of members -> Node.Scale n' = Node.Scale n) /\
  (Some "translation"%string ∉ fields_of members ->
   Node.Translation n' = Node.Translation n).
Proof.
  revert n saved. induction members as [|[key [raw v]] members IH]; intros n saved.
  - by simpl.
  - simpl. destruct (Node_store_other key raw v n) as (Hm & Hr & Hs & Ht).
    destruct (Node_store extensions key raw v n) as [n1 [e|e]] eqn:Hstore; simpl in *.
    + repeat split; intros Hnot; apply not_elem_of_cons in Hnot as [Hne _];
        [ apply Hm | apply Hr | apply Hs | apply Ht ]; congruence.
    + destruct (IH n1 (first_error saved e)) as (IHm & IHr & IHs & IHt).
      repeat split; intros Hnot; apply not_elem_of_cons in Hnot as [Hne Hrest].
      * rewrite (IHm Hrest). apply Hm. congruence.
      * rewrite (IHr Hrest). apply Hr. congruence.
      * rewrite (IHs Hrest). apply Hs. congruence.
      * rewrite (IHt Hrest). apply Ht. congruence.
Qed.

(** The decode half of C5, which holds for every input: when
    [Node.UnmarshalJSON] succeeds on an object none of whose keys the
    decoder matches to a transform field, that field of the receiver is
    the spec default afterwards. *)
Lemma Node_UnmarshalJSON_absent_default (n : Node.t ExtObject) (data : bytes) members :
  parse_json data = Some (TObject members) ->
  snd (Node_UnmarshalJSON extensions n data) = None ->
  let n' := fst (Node_UnmarshalJSON extensions n data) in
  (Some "matrix"%string ∉ fields_of members -> Node.Matrix n' = DefaultMatrix) /\
  (Some "rotation"%string ∉ fields_of members -> Node.Rotation n' = DefaultRotation) /\
  (Some "scale"%string ∉ fields_of members -> Node.Scale n' = DefaultScale) /\
  (Some "translation"%string ∉ fields_of members ->
   Node.Translation n' = DefaultTranslation).
Proof.
  intros Hparse. unfold Node_UnmarshalJSON, json_Unmarshal_Node. rewrite Hparse.
  pose proof (Node_store_members_other members Node_tmp None) as Hother.
  destruct (Node_store_members extensions members Node_tmp None) as [tmp [e|]];
    simpl in *; [ discriminate | ].
  intros _. exact Hother.
Qed.

End Node_decode_theorems.

(** C5: a node whose rotation is the all-zero array and whose extras hold
    a member [rotation] with the value [0,0,0,0] is encoded with the
    property [rotation] of the node still there (the member of the extras
    is the one removed); decoding that output gives the rotation
    [0,0,0,0], not the default.  With the default rotation and the member
    [0,0,0,1] in the extras the property stays in the output too.  Without
    such a member the zero node encodes to [{}] and decodes to the
    defaults. *)
Theorem Node_rotation_not_omitted :
  let marshal := Node_MarshalJSON no_MarshalExt FormatFloat_integral in
  let unmarshal := Node_UnmarshalJSON no_extensions Node_zero in
  (array_eq (Node.Rotation node_extras_zero) emptyRotation = true /\
   marshal node_extras_zero = Some (J "{'extras':{},'rotation':[0,0,0,0]}") /\
   Contains (J "{'extras':{},'rotation':[0,0,0,0]}") (J "'rotation'") = true /\
   snd (unmarshal (J "{'extras':{},'rotation':[0,0,0,0]}")) = None /\
   Node.Rotation (fst (unmarshal (J "{'extras':{},'rotation':[0,0,0,0]}"))) = emptyRotation /\
   array_eq emptyRotation DefaultRotation = false) /\
  (array_eq (Node.Rotation node_extras_default) DefaultRotation = true /\
   marshal node_extras_default = Some (J "{'extras':{},'rotation':[0,0,0,1]}")) /\
  (marshal Node_zero = Some (J "{}") /\
   snd (unmarshal (J "{}")) = None /\
   let n := fst (unmarshal (J "{}")) in
   Node.Matrix n = DefaultMatrix /\ Node.Rotation n = DefaultRotation /\
   Node.Scale n = DefaultScale /\ Node.Translation n = DefaultTranslation).
Proof. by vm_compute. Qed.

(** ** C8: extensions *)

Section Extensions_theorems.

Context {ExtObject : Type}.
Variable extensions : gmap bytes (bytes -> option ExtObject).

Lemma map_fold_insert_lookup {A C} (f : bytes -> A -> C) (ext : gmap bytes C)
    (raw : gmap bytes A) (k : bytes) :
  map_fold (fun key value (acc : gmap bytes C) => <[key := f key value]> acc) ext raw !! k
  = match raw !! k with
    | Some v => Some (f k v)
    | None => ext !! k
    end.
Proof.
  revert k.
  apply (map_fold_weak_ind
           (fun (r : gmap bytes C) (m : gmap bytes A) =>
              forall k, r !! k = match m !! k with
                                 | Some v => Some (f k v)
                                 | None => ext !! k
                                 end)).
  - intros k. by rewrite lookup_empty.
  - intros i x m r Hi IH k. destruct (decide (i = k)) as [->|Hne].
    + by rewrite !lookup_insert_eq.
    + rewrite !lookup_insert_ne by done. apply IH.
Qed.

(** C8: [Extensions.UnmarshalJSON] returns the error of the generic
    decode of the map and no other: whatever the registry holds, a
    payload that its factory's object refuses adds no error.  When the
    generic decode succeeds, a key whose payload is refused, or that has
    no factory, holds the raw bytes of its payload afterwards. *)
Theorem Extensions_UnmarshalJSON_lenient
    (ext : gmap bytes (ExtValue ExtObject)) (data : bytes) :
  snd (Extensions_UnmarshalJSON extensions ext data) = snd (json_Unmarshal_envelope data) /\
  forall key value,
    snd (json_Unmarshal_envelope data) = None ->
    fst (json_Unmarshal_envelope data) !! key = Some value ->
    (extensions !! key = None \/
     exists extFactory, extensions !! key = Some extFactory /\ extFactory value = None) ->
    fst (Extensions_UnmarshalJSON extensions ext data) !! key = Some (ExtRaw value).
Proof.
  unfold Extensions_UnmarshalJSON.
  destruct (json_Unmarshal_envelope data) as [raw [e|]]; simpl.
  - split; [ reflexivity | intros ? ? [=] ].
  - split; [ reflexivity | ].
    intros key value _ Hkey Hreg.
    rewrite map_fold_insert_lookup, Hkey. f_equal.
    unfold decode_extension.
    destruct Hreg as [-> | (extFactory & -> & ->)]; reflexivity.
Qed.

End Extensions_theorems.

Lemma Extensions_UnmarshalJSON_lenient_witness :
  let data := J "{'XYZ_foo':{'a':1},'KHR_other': [1, 2]}" in
  snd (json_Unmarshal_envelope data) = None /\
  fst (json_Unmarshal_envelope data) !! B "XYZ_foo" = Some (J "{'a':1}") /\
  fst (json_Unmarshal_envelope data) !! B "KHR_other" = Some (J "[1, 2]") /\
  snd (Extensions_UnmarshalJSON refusing_extensions ∅ data) = None /\
  fst (Extensions_UnmarshalJSON refusing_extensions ∅ data) !! B "XYZ_foo"
    = Some (ExtRaw (J "{'a':1}")) /\
  fst (Extensions_UnmarshalJSON refusing_extensions ∅ data) !! B "KHR_other"
    = Some (ExtRaw (J "[1, 2]")) /\
  fst (Extensions_UnmarshalJSON no_extensions ∅ (J "{'XYZ_foo':{'a':1}}")) !! B "XYZ_foo"
    = Some (ExtRaw (J "{'a':1}")).
Proof.
  intros data.
  assert (snd (json_Unmarshal_envelope data) = None) as Herr0 by (by vm_compute).
  assert (fst (json_Unmarshal_envelope data) !! B "XYZ_foo" = Some (J "{'a':1}")) as Hfoo
    by (by vm_compute).
  assert (fst (json_Unmarshal_envelope data) !! B "KHR_other" = Some (J "[1, 2]")) as Hother
    by (by vm_compute).
  destruct (Extensions_UnmarshalJSON_lenient refusing_extensions ∅ data) as [Herr Hraw].
  split; [ exact Herr0 | ].
  split; [ exact Hfoo | ].
  split; [ exact Hother | ].
  split; [ by rewrite Herr | ].
  split; [ | split ].
  - apply (Hraw (B "XYZ_foo") (J "{'a':1}") Herr0 Hfoo).
    right. exists (fun _ => None). split; [ by vm_compute | reflexivity ].
  - apply (Hraw (B "KHR_other") (J "[1, 2]") Herr0 Hother).
    left. by vm_compute.
  - destruct (Extensions_UnmarshalJSON_lenient no_extensions ∅ (J "{'XYZ_foo':{'a':1}}"))
      as [_ Hraw'].
    apply (Hraw' (B "XYZ_foo") (J "{'a':1}")); [ by vm_compute | by vm_compute | ].
    left. by vm_compute.
Defined.

(** ** C9: UnmarshalJSON leaves the receiver alone on an error *)

Section Atomic_theorems.

Context {ExtObject : Type}.
Variable extensions : gmap bytes (bytes -> option ExtObject).
Variable json_Unmarshal_Material :
  bytes -> Material.t ExtObject -> Material.t ExtObject * option error.
Variable json_Unmarshal_NormalTexture :
  bytes -> NormalTexture.t ExtObject -> NormalTexture.t ExtObject * option error.
Variable json_Unmarshal_OcclusionTexture :
  bytes -> OcclusionTexture.t ExtObject -> OcclusionTexture.t ExtObject * option error.
Variable json_Unmarshal_PBRMetallicRoughness :
  bytes -> PBRMetallicRoughness.t ExtObject
  -> PBRMetallicRoughness.t ExtObject * option error.

(** C9: for [Node], [Material], [NormalTexture], [OcclusionTexture] and
    [PBRMetallicRoughness]: whenever the decode of the text into the
    seeded temporary fails, [UnmarshalJSON] returns the error of that
    decode and the receiver after the call is the receiver before it,
    whatever the decode did to the temporary. *)
Theorem UnmarshalJSON_atomic (data : bytes) :
  (forall n e,
     snd (json_Unmarshal_Node extensions data Node_tmp) = Some e ->
     Node_UnmarshalJSON extensions n data = (n, Some e)) /\
  (forall m e,
     snd (json_Unmarshal_Material data Material_tmp) = Some e ->
     Material_UnmarshalJSON json_Unmarshal_Material m data = (m, Some e)) /\
  (forall n e,
     snd (json_Unmarshal_NormalTexture data NormalTexture_tmp) = Some e ->
     NormalTexture_UnmarshalJSON json_Unmarshal_NormalTexture n data = (n, Some e)) /\
  (forall o e,
     snd (json_Unmarshal_OcclusionTexture data OcclusionTexture_tmp) = Some e ->
     OcclusionTexture_UnmarshalJSON json_Unmarshal_OcclusionTexture o data
       = (o, Some e)) /\
  (forall p e,
     snd (json_Unmarshal_PBRMetallicRoughness data PBRMetallicRoughness_tmp) = Some e ->
     PBRMetallicRoughness_UnmarshalJSON json_Unmarshal_PBRMetallicRoughness p data
       = (p, Some e)).
Proof.
  unfold Node_UnmarshalJSON, Material_UnmarshalJSON, NormalTexture_UnmarshalJSON,
    OcclusionTexture_UnmarshalJSON, PBRMetallicRoughness_UnmarshalJSON.
  repeat apply conj.
  - intros n e. destruct (json_Unmarshal_Node _ _ _) as [tmp err].
    cbn [snd]. by intros ->.
  - intros m e. destruct (json_Unmarshal_Material _ _) as [tmp err].
    cbn [snd]. by intros ->.
  - intros n e. destruct (json_Unmarshal_NormalTexture _ _) as [tmp err].
    cbn [snd]. by intros ->.
  - intros o e. destruct (json_Unmarshal_OcclusionTexture _ _) as [tmp err].
    cbn [snd]. by intros ->.
  - intros p e. destruct (json_Unmarshal_PBRMetallicRoughness _ _) as [tmp err].
    cbn [snd]. by intros ->.
Qed.

End Atomic_theorems.

Lemma UnmarshalJSON_atomic_witness :
  let data := J "{'name':'x','rotation':'north'}" in
  snd (json_Unmarshal_Node no_extensions data Node_tmp)
    = Some (json_UnmarshalTypeError "rotation") /\
  Node.Name (fst (json_Unmarshal_Node no_extensions data Node_tmp)) = B "x" /\
  Node_UnmarshalJSON no_extensions node_brace_comma data
    = (node_brace_comma, Some (json_UnmarshalTypeError "rotation")).
Proof.
  intros data.
  assert (snd (json_Unmarshal_Node no_extensions data Node_tmp)
          = Some (json_UnmarshalTypeError "rotation")) as Hfails by (by vm_compute).
  split; [ exact Hfails | ]. split; [ by vm_compute | ].
  destruct (UnmarshalJSON_atomic no_extensions
              (fun _ tmp => (tmp, Some json_SyntaxError))
              (fun _ tmp => (tmp, Some json_SyntaxError))
              (fun _ tmp => (tmp, Some json_SyntaxError))
              (fun _ tmp => (tmp, Some json_SyntaxError)) data) as [HNode _].
  exact (HNode node_brace_comma (json_UnmarshalTypeError "rotation") Hfails).
Defined.

(* ===================================================================== *)
(** * Part III: further properties of the code                             *)
(* ===================================================================== *)

(** ** The header probe of readGLBHeader *)

Lemma Reader_Read_pending rd k data e rd' :
  Reader_Read rd k = ((data, e), rd') ->
  data ++ pending rd' = pending rd /\ (length data <= k)%nat.
Proof.
  unfold Reader_Read, pending. destruct rd as [|ev rd0].
  - intros [= <- <- <-]. split; [ reflexivity | simpl; lia ].
  - destruct (Nat.leb_spec (length (ev_data ev)) k) as [Hle|Hgt].
    + intros [= <- <- <-]. by split.
    + intros [= <- <- <-]. simpl. split.
      * by rewrite app_assoc, firstn_skipn.
      * rewrite length_firstn. lia.
Qed.

Lemma fill_loop_unread i b : unread (fill_loop i b) = unread b.
Proof.
  revert b. induction i as [|i IH]; intros [buf rd err]; [ reflexivity | ].
  simpl. destruct (Reader_Read rd _) as [[data e] rd'] eqn:Hread.
  apply Reader_Read_pending in Hread as [Hpend _].
  assert (unread (BufioReader (buf ++ data) rd' err) = unread (BufioReader buf rd err)) as Hsame.
  { unfold unread. simpl. by rewrite <- app_assoc, Hpend. }
  destruct e as [e|]; [ exact Hsame | ].
  destruct data as [|c data]; [ | exact Hsame ].
  simpl. rewrite IH. exact Hsame.
Qed.

Lemma peek_loop_unread fuel n b : unread (peek_loop fuel n b) = unread b.
Proof.
  revert b. induction fuel as [|fuel IH]; intros b; [ reflexivity | ].
  simpl. destruct (_ && _); [ | reflexivity ].
  rewrite IH. apply fill_loop_unread.
Qed.

Lemma bufio_Peek_unread b n chunk err b' :
  bufio_Peek b n = ((chunk, err), b') ->
  unread b' = unread b /\
  (err = None ->
   chunk = firstn n (unread b) /\ length chunk = n /\ chunk = firstn n (b_buf b')).
Proof.
  unfold bufio_Peek. pose proof (peek_loop_unread n n b) as Hsame.
  destruct (peek_loop n n b) as [buf rd e] eqn:Hloop. simpl.
  destruct (Nat.ltb_spec defaultBufSize n) as [Hbig|Hfit].
  { intros [= <- <- <-]. split; [ exact Hsame | discriminate ]. }
  destruct (Nat.ltb_spec (length buf) n) as [Hshort|Hfull].
  { intros [= <- <- <-]. split; [ exact Hsame | by destruct e ]. }
  intros [= <- <- <-]. split; [ exact Hsame | ]. intros _.
  rewrite <- Hsame. unfold unread. simpl.
  rewrite firstn_app. replace (n - length buf)%nat with 0%nat by lia.
  rewrite firstn_O, app_nil_r. repeat split. rewrite length_firstn. lia.
Qed.

Lemma bufio_Peek_ready b n :
  (0 < n <= defaultBufSize)%nat ->
  (n <= length (b_buf b))%nat \/
  (b_buf b = [] /\ b_err b = None /\
   (n <= length (match b_rd b with ev :: _ => ev_data ev | [] => [] end))%nat) ->
  snd (fst (bufio_Peek b n)) = None.
Proof.
  intros Hn Hready.
  assert (forall b1 fuel, (n <= length (b_buf b1))%nat -> peek_loop fuel n b1 = b1) as Hstop.
  { intros b1 [|fuel] Hlen; [ reflexivity | ]. simpl.
    by replace (length (b_buf b1) <? n)%nat with false
      by (symmetry; apply Nat.ltb_ge; lia). }
  assert (forall b1, (n <= length (b_buf b1))%nat -> peek_loop n n b = b1 ->
            snd (fst (bufio_Peek b n)) = None) as Hdone.
  { intros b1 Hlen Hloop. unfold bufio_Peek. rewrite Hloop.
    replace (defaultBufSize <? n)%nat with false by (symmetry; apply Nat.ltb_ge; lia).
    by replace (length (b_buf b1) <? n)%nat with false
      by (symmetry; apply Nat.ltb_ge; lia). }
  destruct Hready as [Hbuf | (Hbuf & Herr & Hev)].
  { by apply (Hdone b), Hstop. }
  destruct b as [buf rd err]. simpl in Hbuf, Herr, Hev. subst buf err.
  destruct rd as [|ev rest]; [ simpl in Hev; lia | ].
  destruct n as [|n']; [ lia | ].
  assert (exists b1, bufio_fill (BufioReader [] (ev :: rest) None) = b1 /\
                     (S n' <= length (b_buf b1))%nat) as (b1 & Hfill & Hlen).
  { unfold bufio_fill, maxConsecutiveEmptyReads. generalize 99%nat. intros i.
    cbn [fill_loop b_buf b_rd b_err length].
    unfold Reader_Read. rewrite Nat.sub_0_r.
    destruct (Nat.leb_spec (length (ev_data ev)) defaultBufSize) as [Hle|Hgt].
    - destruct (ev_err ev) as [e|].
      + eexists. split; [ reflexivity | ]. simpl. lia.
      + destruct (ev_data ev) as [|c data] eqn:Hdata; [ simpl in Hev; lia | ].
        eexists. split; [ reflexivity | ]. simpl in *. lia.
    - destruct (firstn defaultBufSize (ev_data ev)) as [|c data] eqn:Hdata.
      + apply (f_equal (@length byte)) in Hdata. rewrite length_firstn in Hdata.
        cbn [length] in Hdata. unfold defaultBufSize in *. lia.
      + eexists. split; [ reflexivity | ]. cbn [b_buf app]. rewrite <- Hdata.
        rewrite length_firstn. lia. }
  apply (Hdone b1 Hlen). cbn [peek_loop b_buf b_err length].
  replace (0 <? S n')%nat with true by (symmetry; apply Nat.ltb_lt; lia).
  replace (0 <? defaultBufSize)%nat with true by reflexivity.
  rewrite bool_decide_eq_true_2 by reflexivity. cbn [andb].
  rewrite Hfill. by apply Hstop.
Qed.

(** X1: the probe of [readGLBHeader] takes nothing from the input unless
    the magic matches: without a header the unread bytes of [d.r] are the
    ones from before, with a header they are the ones from before less the
    first 20, and the header is the decoding of those 20 bytes, validated.
    The callback and the quotas are not changed.  A header is recognised
    whenever the first 20 bytes are at hand, in the buffer of [d.r] or in
    what the first read of a fresh reader delivers, and carry the
    magic. *)
Theorem readGLBHeader_consumes (d : Decoder) :
  let '(d1, header, err) := readGLBHeader d in
  cb d1 = cb d /\ quotas d1 = quotas d /\
  match header with
  | None => err = None /\ unread (r d1) = unread (r d)
  | Some h =>
      h = parse_glbHeader (firstn 20 (unread (r d))) /\
      Magic h = glbHeaderMagic /\
      (20 <= length (unread (r d)))%nat /\
      unread (r d1) = skipn 20 (unread (r d)) /\
      err = validateGLBHeader d h
  end /\
  ((20 <= length (b_buf (r d)))%nat \/
   (b_buf (r d) = [] /\ b_err (r d) = None /\
    (20 <= length (match b_rd (r d) with ev :: _ => ev_data ev | [] => [] end))%nat) ->
   Magic (parse_glbHeader (firstn 20 (unread (r d)))) = glbHeaderMagic ->
   header <> None).
Proof.
  unfold readGLBHeader.
  pose proof (bufio_Peek_ready (r d) 20 ltac:(unfold defaultBufSize; lia)) as Hready.
  destruct (bufio_Peek (r d) (Z.to_nat sizeof_glbHeader)) as [[chunk err] r1] eqn:Hpeek.
  change (Z.to_nat sizeof_glbHeader) with 20%nat in *. rewrite Hpeek in Hready.
  cbn [fst snd] in Hready.
  apply bufio_Peek_unread in Hpeek as [Hsame Hchunk].
  destruct err as [e|].
  { simpl. rewrite Hsame. repeat split. intros H _. by specialize (Hready H). }
  clear Hready.
  destruct (Hchunk eq_refl) as (Hfirst & Hlen & Hbuf). clear Hchunk.
  destruct (Magic (parse_glbHeader chunk) =? glbHeaderMagic) eqn:Hmagic; simpl.
  2:{ rewrite Hsame. repeat split. intros _ Hm. rewrite <- Hfirst in Hm.
      apply Z.eqb_neq in Hmagic. done. }
  apply Z.eqb_eq in Hmagic.
  destruct r1 as [buf rd e]. simpl in Hbuf.
  assert (20 <= length buf)%nat as Hbuf20.
  { rewrite <- Hlen, Hbuf, length_firstn. rewrite Hbuf, length_firstn in Hlen. lia. }
  rewrite Hlen. destruct buf as [|c buf]; [ simpl in Hbuf20; lia | ].
  simpl. repeat split; try assumption; try discriminate.
  - by rewrite <- Hfirst.
  - rewrite <- Hsame. unfold unread. simpl. rewrite length_app. simpl in Hbuf20. lia.
  - rewrite <- Hsame. unfold unread. simpl.
    destruct buf as [|c1 buf]; [ simpl in Hbuf20; lia | ].
    change (c :: c1 :: buf) with ([c; c1] ++ buf). simpl.
    do 18 (destruct buf as [|? buf]; [ simpl in Hbuf20; lia | ]). reflexivity.
Qed.

Lemma readGLBHeader_consumes_witness :
  let d := NewDecoder [ReadEvent glb_short_total None] cb_none in
  b_buf (r d) = [] /\ b_err (r d) = None /\
  (20 <= length (match b_rd (r d) with ev :: _ => ev_data ev | [] => [] end))%nat /\
  Magic (parse_glbHeader (firstn 20 (unread (r d)))) = glbHeaderMagic /\
  snd (fst (readGLBHeader d)) <> None.
Proof.
  intros d.
  assert (20 <= length (match b_rd (r d) with ev :: _ => ev_data ev | [] => [] end))%nat
    as Hlen by (simpl; lia).
  assert (Magic (parse_glbHeader (firstn 20 (unread (r d)))) = glbHeaderMagic) as Hmagic
    by (by vm_compute).
  split; [ reflexivity | ]. split; [ reflexivity | ]. split; [ exact Hlen | ].
  split; [ exact Hmagic | ].
  pose proof (readGLBHeader_consumes d) as H.
  destruct (readGLBHeader d) as [[d1 header] err].
  destruct H as (_ & _ & _ & Hrec).
  exact (Hrec (or_intror (conj eq_refl (conj eq_refl Hlen))) Hmagic).
Defined.

(** ** The length check of validateGLBHeader when the sum does not wrap *)

(** X2: [validateGLBHeader] adds 8, the size of its pointer parameter, to
    the length of the JSON chunk.  When that sum stays below [2^32] the
    comparison is the one of exact arithmetic: the header is accepted
    exactly when the total length is within the memory quota, the chunk
    type is the JSON chunk type, and [chunkLength + 8 <= totalLength]; a
    total length over the quota gives the quota error whatever the chunk
    is. *)
Theorem validateGLBHeader_exact (d : Decoder) (h : glbHeader) :
  0 <= ch_Length (JSONHeader h) ->
  ch_Length (JSONHeader h) + 8 < 2 ^ 32 ->
  (validateGLBHeader d h = None <->
   Length h <= MaxMemoryAllocation (quotas d) /\
   ch_Type (JSONHeader h) = glbChunkJSON /\
   ch_Length (JSONHeader h) + 8 <= Length h) /\
  (MaxMemoryAllocation (quotas d) < Length h ->
   validateGLBHeader d h =
     Some (errorString "gltf: Quota exceeded, bytes of glb buffer > MaxMemoryAllocation")) /\
  (Length h <= MaxMemoryAllocation (quotas d) ->
   validateGLBHeader d h <> None ->
   validateGLBHeader d h = Some (errorString "gltf: Invalid GLB JSON header")).
Proof.
  intros Hpos Hroom. unfold validateGLBHeader.
  assert (u32 (ch_Length (JSONHeader h) + u32 sizeof_pointer)
          = ch_Length (JSONHeader h) + 8) as ->.
  { unfold u32, sizeof_pointer. rewrite (Z.mod_small 8) by lia.
    apply Z.mod_small. lia. }
  destruct (Z.gtb_spec (Length h) (MaxMemoryAllocation (quotas d))) as [Hq|Hq].
  { split; [ split; [ discriminate | lia ] | ]. split; [ reflexivity | lia ]. }
  destruct (Z.eqb_spec (ch_Type (JSONHeader h)) glbChunkJSON) as [Ht|Ht]; simpl.
  - destruct (Z.gtb_spec (ch_Length (JSONHeader h) + 8) (Length h)) as [Hl|Hl].
    + split; [ split; [ discriminate | lia ] | ]. split; [ lia | reflexivity ].
    + split; [ split; [ intros _; lia | reflexivity ] | ]. split; [ lia | done ].
  - split; [ split; [ discriminate | intros (_ & ? & _); done ] | ].
    split; [ lia | reflexivity ].
Qed.

Lemma validateGLBHeader_exact_witness :
  let d := NewDecoder [] cb_none in
  let h := GlbHeader glbHeaderMagic 2 79 (ChunkHeader 60 glbChunkJSON) in
  0 <= ch_Length (JSONHeader h) /\ ch_Length (JSONHeader h) + 8 < 2 ^ 32 /\
  ch_Length (JSONHeader h) + sizeof_glbHeader > Length h /\
  validateGLBHeader d h = None.
Proof.
  intros d h.
  assert (0 <= ch_Length (JSONHeader h)) as Hpos by (simpl; lia).
  assert (ch_Length (JSONHeader h) + 8 < 2 ^ 32) as Hroom by (simpl; lia).
  split; [ exact Hpos | ]. split; [ exact Hroom | ]. split; [ by vm_compute | ].
  apply (proj1 (validateGLBHeader_exact d h Hpos Hroom)).
  repeat split; simpl; lia.
Defined.

(** ** What Decode keeps of the buffers, and what it does outside *)

Lemma sessions_app (a b : trace) : sessions a -> sessions b -> sessions (a ++ b).
Proof.
  intros Ha Hb. induction Ha as [|uri rest Ha IH|uri room rest Ha IH]; simpl.
  - exact Hb.
  - apply sessions_call, IH.
  - apply sessions_load, IH.
Qed.

Lemma decodeBuffer_effects d t b :
  let '(t', b', err) := decodeBuffer d t b in
  declared b' = declared b /\
  exists evs, t' = t ++ evs /\ sessions evs /\
    Forall (fun ev => event_uri ev = URI b) evs /\
    (evs <> [] -> validateBufferURI (URI b) = None /\ IsEmbeddedResource b = false).
Proof.
  unfold decodeBuffer.
  assert (forall x : Buffer,
            declared x = declared b ->
            declared x = declared b /\
            exists evs, t = t ++ evs /\ sessions evs /\
              Forall (fun ev => event_uri ev = URI b) evs /\
              (evs <> [] -> validateBufferURI (URI b) = None /\ IsEmbeddedResource b = false))
    as Hquiet.
  { intros x Hx. split; [ exact Hx | ]. exists []. rewrite app_nil_r.
    repeat split; [ constructor | constructor | done | done ]. }
  destruct (validateBuffer d b); [ by apply Hquiet | ].
  destruct (bool_decide (URI b = [])); [ by apply Hquiet | ].
  destruct (IsEmbeddedResource b) eqn:Hemb.
  { destruct (marshalData b) as [[data e]|msg]; by apply Hquiet. }
  destruct (validateBufferURI (URI b)) eqn:Huri; [ by apply Hquiet | ].
  assert (sessions [CallbackCalled (URI b)] /\
          Forall (fun ev => event_uri ev = URI b) [CallbackCalled (URI b)]) as [Hs1 Hf1]
    by (split; repeat constructor).
  destruct (cb d (URI b)) as [[rd|] [e|]].
  - simpl. split; [ reflexivity | ]. exists [CallbackCalled (URI b)].
    split; [ reflexivity | ]. split; [ exact Hs1 | ]. split; [ exact Hf1 | by intros _ ].
  - simpl. destruct (Reader_Read rd _) as [[data e] rd'].
    split; [ reflexivity | ].
    exists [CallbackCalled (URI b); StreamRead (URI b) (len (make (ByteLength b)));
            StreamClosed (URI b)].
    split; [ by rewrite <- app_assoc | ].
    split; [ apply sessions_load, sessions_nil | ].
    split; [ repeat constructor | by intros _ ].
  - simpl. split; [ reflexivity | ]. exists [CallbackCalled (URI b)].
    split; [ reflexivity | ]. split; [ exact Hs1 | ]. split; [ exact Hf1 | by intros _ ].
  - simpl. split; [ reflexivity | ]. exists [CallbackCalled (URI b)].
    split; [ reflexivity | ]. split; [ exact Hs1 | ]. split; [ exact Hf1 | by intros _ ].
Qed.

Lemma decodeBuffers_effects d t bs :
  let '(t', bs', err) := decodeBuffers d t bs in
  map declared bs' = map declared bs /\
  exists evs, t' = t ++ evs /\ sessions evs /\
    Forall (fun ev => validateBufferURI (event_uri ev) = None /\
                      HasPrefix (event_uri ev) mimetypeApplicationOctet = false /\
                      event_uri ev ∈ map URI bs) evs.
Proof.
  revert t. induction bs as [|b bs IH]; intros t; simpl.
  - split; [ reflexivity | ]. exists []. rewrite app_nil_r.
    repeat split; constructor.
  - pose proof (decodeBuffer_effects d t b) as Hb.
    destruct (decodeBuffer d t b) as [[t1 b'] e].
    destruct Hb as (Hdecl & evs & -> & Hsess & Huris & Hsafe).
    assert (Forall (fun ev => validateBufferURI (event_uri ev) = None /\
                              HasPrefix (event_uri ev) mimetypeApplicationOctet = false /\
                              event_uri ev ∈ URI b :: map URI bs) evs) as Hevs.
    { destruct evs as [|ev evs]; [ constructor | ].
      destruct Hsafe as [Hvalid Hemb]; [ done | ].
      eapply Forall_impl; [ exact Huris | ]. intros ev' ->.
      repeat split; [ exact Hvalid | exact Hemb | constructor ]. }
    destruct e as [e|].
    + simpl. split; [ by rewrite Hdecl | ]. by exists evs.
    + specialize (IH (t ++ evs)).
      destruct (decodeBuffers d (t ++ evs) bs) as [[t2 bs'] err].
      destruct IH as (Hdecls & evs' & -> & Hsess' & Hevs').
      simpl. split; [ by rewrite Hdecl, Hdecls | ].
      exists (evs ++ evs'). rewrite app_assoc.
      repeat split; [ by apply sessions_app | ].
      apply Forall_app. split; [ exact Hevs | ].
      eapply Forall_impl; [ exact Hevs' | ]. intros ev (? & ? & ?).
      repeat split; [ assumption | assumption | by constructor ].
Qed.

Lemma decodeBinaryBuffer_declared d b :
  declared (snd (fst (decodeBinaryBuffer d b))) = declared b.
Proof.
  unfold decodeBinaryBuffer. destruct (validateBuffer d b); [ reflexivity | ].
  destruct (read_chunkHeader d) as [[d1 [header|]] [e|]]; try reflexivity.
  destruct (_ || _); [ reflexivity | ].
  by destruct (bufio_Read _ _) as [[data e] r2].
Qed.

Lemma binaryStage_declared d isBinary bs :
  let '(_, bs', idx, _) := binaryStage d isBinary bs in
  map declared bs' = map declared bs.
Proof.
  unfold binaryStage. destruct (isBinary && _); [ | reflexivity ].
  destruct bs as [|b0 rest]; [ reflexivity | ].
  pose proof (decodeBinaryBuffer_declared d b0) as Hb0.
  destruct (decodeBinaryBuffer d b0) as [[d' b0'] e]. simpl in *. by rewrite Hb0.
Qed.

Section Decode_invariants.

Variable jd : bufio_Reader -> option Z -> Document -> bufio_Reader * Document * option error.

(** X3: whatever happens, [Decode] leaves the number of buffers and the
    name, URI and byteLength of each as the JSON decode stored them; of a
    buffer it writes [Data] only. *)
Theorem Decode_keeps_declared (d : Decoder) (t : trace) (doc : Document) :
  let '(_, doc1, _, _) := decodeDocument jd d doc in
  let '(_, _, doc', _) := Decode jd d t doc in
  map declared (Buffers doc') = map declared (Buffers doc1).
Proof.
  unfold Decode.
  destruct (decodeDocument jd d doc) as [[[d1 doc1] isBinary] [e|]]; [ reflexivity | ].
  destruct (_ >? _); [ reflexivity | ].
  pose proof (binaryStage_declared d1 isBinary (Buffers doc1)) as Hbin.
  destruct (binaryStage d1 isBinary (Buffers doc1)) as [[[d2 bs] idx] [e|]];
    [ exact Hbin | ].
  pose proof (decodeBuffers_effects d2 t (skipn idx bs)) as Hloop.
  destruct (decodeBuffers d2 t (skipn idx bs)) as [[t' ext'] err].
  destruct Hloop as [Hdecl _]. simpl.
  by rewrite map_app, Hdecl, <- map_app, firstn_skipn.
Qed.

(** X4: the events [Decode] adds to the trace are one session per buffer
    it resolved through the callback: a call alone, or a call, one read of
    the returned stream and the closing of that stream before anything
    else happens.  Every URI the callback is called with is the URI of a
    buffer of the document, passes [validateBufferURI] and is not an
    embedded data URI. *)
Theorem Decode_callback_sessions (d : Decoder) (t : trace) (doc : Document) :
  let '(_, t', doc', _) := Decode jd d t doc in
  exists evs, t' = t ++ evs /\ sessions evs /\
    Forall (fun ev => validateBufferURI (event_uri ev) = None /\
                      HasPrefix (event_uri ev) mimetypeApplicationOctet = false /\
                      event_uri ev ∈ map URI (Buffers doc')) evs.
Proof.
  assert (forall x : Document,
            exists evs, t = t ++ evs /\ sessions evs /\
              Forall (fun ev => validateBufferURI (event_uri ev) = None /\
                                HasPrefix (event_uri ev) mimetypeApplicationOctet = false /\
                                event_uri ev ∈ map URI (Buffers x)) evs) as Hquiet.
  { intros x. exists []. rewrite app_nil_r. repeat split; constructor. }
  unfold Decode.
  destruct (decodeDocument jd d doc) as [[[d1 doc1] isBinary] [e|]]; [ apply Hquiet | ].
  destruct (_ >? _); [ apply Hquiet | ].
  destruct (binaryStage d1 isBinary (Buffers doc1)) as [[[d2 bs] idx] [e|]];
    [ apply Hquiet | ].
  pose proof (decodeBuffers_effects d2 t (skipn idx bs)) as Hloop.
  destruct (decodeBuffers d2 t (skipn idx bs)) as [[t' ext'] err].
  destruct Hloop as (Hdecl & evs & -> & Hsess & Hevs).
  exists evs. repeat split; [ exact Hsess | ].
  eapply Forall_impl; [ exact Hevs | ]. intros ev (Hvalid & Hemb & Hin).
  repeat split; [ exact Hvalid | exact Hemb | ]. simpl.
  rewrite map_app. apply elem_of_app. right.
  assert (map URI ext' = map URI (skipn idx bs)) as ->; [ | exact Hin ].
  clear -Hdecl. revert Hdecl. generalize (skipn idx bs). induction ext' as [|x ext' IH];
    intros [|y l] Hdecl; try discriminate; [ reflexivity | ].
  simpl in *. injection Hdecl as _ -> _ Hrest. by rewrite (IH l).
Qed.

End Decode_invariants.

(** ** Loading an external buffer *)

Lemma skipn_repeat_x00 (k n : nat) : skipn k (repeat x00 n) = repeat x00 (n - k).
Proof.
  revert k. induction n as [|n IH]; intros [|k]; try reflexivity. simpl. apply IH.
Qed.

Lemma stored_make (data : bytes) (n : nat) :
  stored (firstn n data) (repeat x00 n) = firstn n data ++ repeat x00 (n - length data).
Proof.
  unfold stored. rewrite skipn_repeat_x00, length_firstn. do 2 f_equal. lia.
Qed.

(** X5: when the callback returns a stream and no error for a buffer that
    is not embedded, [decodeBuffer] replaces [Data] by exactly
    [byteLength] bytes: what the first [Read] of the stream delivers, cut
    at [byteLength], and zeros after it.  The stream is read once with
    [byteLength] bytes of room and closed, and the error is the one of
    that read: none when the stream had more than [byteLength] bytes
    ready. *)
Theorem decodeBuffer_external_load (d : Decoder) (t : trace) (b : Buffer) (rd : Reader) :
  validateBuffer d b = None ->
  0 <= ByteLength b ->
  IsEmbeddedResource b = false ->
  validateBufferURI (URI b) = None ->
  cb d (URI b) = (Some rd, None) ->
  let n := Z.to_nat (ByteLength b) in
  let ready := match rd with [] => [] | ev :: _ => ev_data ev end in
  let '(t', b', err) := decodeBuffer d t b in
  t' = t ++ [CallbackCalled (URI b); StreamRead (URI b) (ByteLength b);
             StreamClosed (URI b)] /\
  Data b' = firstn n ready ++ repeat x00 (n - length ready) /\
  len (Data b') = ByteLength b /\
  err = match rd with
        | [] => Some io_EOF
        | ev :: _ => if (length ready <=? n)%nat then ev_err ev else None
        end.
Proof.
  intros Hvalid Hpos Hemb Huri Hcb n ready. unfold decodeBuffer.
  rewrite Hvalid, Hemb, Huri, Hcb.
  assert (bool_decide (URI b = []) = false) as ->.
  { apply bool_decide_eq_false. intros Hnil. by rewrite Hnil in Huri. }
  assert (len (make (ByteLength b)) = ByteLength b) as Hroom.
  { unfold len, make. rewrite repeat_length. lia. }
  assert (length (make (ByteLength b)) = n) as Hlen by apply repeat_length.
  rewrite Hroom, Hlen.
  assert (forall data, data = firstn n ready ->
            Data (set_Data b (stored data (make (ByteLength b))))
              = firstn n ready ++ repeat x00 (n - length ready) /\
            len (Data (set_Data b (stored data (make (ByteLength b))))) = ByteLength b)
    as Hdata.
  { intros data ->. simpl. unfold make. fold n. rewrite stored_make. split; [ reflexivity | ].
    unfold len. rewrite length_app, length_firstn, repeat_length. unfold n. lia. }
  unfold Reader_Read. destruct rd as [|ev rest].
  - rewrite <- app_assoc. split; [ reflexivity | ].
    destruct (Hdata []) as [H1 H2]; [ by destruct n | ]. by repeat split.
  - subst ready. destruct (Nat.leb_spec (length (ev_data ev)) n) as [Hle|Hgt].
    + rewrite <- app_assoc. split; [ reflexivity | ].
      destruct (Hdata (ev_data ev)) as [H1 H2]; [ by rewrite firstn_all2 | ].
      by repeat split.
    + rewrite <- app_assoc. split; [ reflexivity | ].
      destruct (Hdata (firstn n (ev_data ev))) as [H1 H2]; [ reflexivity | ].
      by repeat split.
Qed.

Lemma decodeBuffer_external_load_witness :
  let d := NewDecoder [] cb_five_bytes in
  let b := buffer_external in
  validateBuffer d b = None /\ 0 <= ByteLength b /\ IsEmbeddedResource b = false /\
  validateBufferURI (URI b) = None /\
  cb d (URI b) = (Some [ReadEvent (B "ABCDE") None], None) /\
  let '(_, b', err) := decodeBuffer d [] b in
  Data b' = B "ABC" /\ len (Data b') = 3 /\ err = None.
Proof.
  intros d b.
  pose proof (decodeBuffer_external_load d [] b [ReadEvent (B "ABCDE") None]
                eq_refl ltac:(simpl; lia) eq_refl eq_refl eq_refl) as H.
  do 5 (split; [ first [ reflexivity | simpl; lia ] | ]).
  cbv zeta in H. destruct (decodeBuffer d [] b) as [[t' b'] err].
  destruct H as (_ & HData & Hlen & Herr). rewrite HData, Herr. by repeat split.
Defined.

(** ** Reading the binary chunk *)

Lemma io_ReadFull_buffered (b : bufio_Reader) (k : nat) :
  (0 < k)%nat -> (k <= length (b_buf b))%nat ->
  io_ReadFull b k =
    ((firstn k (b_buf b), None), BufioReader (skipn k (b_buf b)) (b_rd b) (b_err b)).
Proof.
  intros Hk Hbuf. unfold io_ReadFull.
  replace (k + length (b_rd b) + 2)%nat with (S (S (k + length (b_rd b))))%nat by lia.
  destruct b as [buf rd err]. simpl in Hbuf.
  destruct k as [|k]; [ lia | ]. destruct buf as [|c buf]; [ simpl in Hbuf; lia | ].
  assert ((S k <=? length (firstn (S k) (c :: buf)))%nat = true) as Hgot.
  { apply Nat.leb_le. rewrite length_firstn. simpl in *. lia. }
  cbn [ReadFull_loop]. change (S k <=? length (@nil byte))%nat with false.
  cbn [length Nat.sub bufio_Read b_buf b_rd b_err app]. by rewrite Hgot.
Qed.

(** X6: with the chunk header and at least [byteLength] bytes after it
    already in the buffer of [d.r], [decodeBinaryBuffer] takes the 8 bytes
    of the header and then: if the chunk is a binary chunk whose declared
    length is at least [byteLength], it sets [Data] to the next
    [byteLength] bytes and leaves the rest unread, also the rest of a
    longer chunk; otherwise it returns the error of an invalid header and
    leaves the buffer as it was. *)
Theorem decodeBinaryBuffer_buffered (d : Decoder) (b : Buffer) (hdr payload : bytes) :
  validateBuffer d b = None ->
  0 <= ByteLength b ->
  b_buf (r d) = hdr ++ payload ->
  length hdr = 8%nat ->
  ByteLength b <= len payload ->
  decodeBinaryBuffer d b =
    let h := parse_chunkHeader hdr in
    let rest k := set_r d (BufioReader (skipn k payload) (b_rd (r d)) (b_err (r d))) in
    if (ch_Type h =? glbChunkBIN) && (ByteLength b <=? ch_Length h)
    then (rest (Z.to_nat (ByteLength b)),
          set_Data b (firstn (Z.to_nat (ByteLength b)) payload), None)
    else (rest 0%nat, b, Some (errorString "gltf: Invalid GLB BIN header")).
Proof.
  intros Hvalid Hpos Hbuf Hhdr Hpay. unfold decodeBinaryBuffer, read_chunkHeader.
  rewrite Hvalid. change (Z.to_nat sizeof_chunkHeader) with 8%nat.
  rewrite io_ReadFull_buffered by (rewrite ?Hbuf, ?length_app; lia).
  rewrite Hbuf, firstn_app, skipn_app, Hhdr, Nat.sub_diag.
  rewrite (firstn_all2 hdr), (skipn_all2 hdr) by lia.
  rewrite firstn_O, app_nil_r.
  generalize (parse_chunkHeader hdr). intros h. simpl.
  destruct (Z.eqb_spec (ch_Type h) glbChunkBIN) as [Ht|Ht]; [ | reflexivity ].
  simpl. rewrite Z.ltb_antisym.
  destruct (ByteLength b <=? ch_Length h); [ | reflexivity ].
  simpl. unfold make. rewrite repeat_length.
  assert (ByteLength b <> 0) as Hnz.
  { intros H0. unfold validateBuffer in Hvalid. by rewrite H0 in Hvalid. }
  unfold len in Hpay.
  destruct (Z.to_nat (ByteLength b)) as [|k] eqn:Hk; [ lia | ].
  destruct payload as [|c payload]; [ simpl in Hpay; lia | ].
  cbn [bufio_Read b_buf b_rd b_err set_r r]. f_equal. f_equal. unfold stored.
  rewrite skipn_O, skipn_all2; [ by rewrite app_nil_r | ].
  rewrite repeat_length, length_firstn. simpl in *. lia.
Qed.

Lemma decodeBinaryBuffer_buffered_witness :
  let d := decoder_at_chunk in
  let b := buffer_binary in
  validateBuffer d b = None /\ 0 <= ByteLength b /\
  b_buf (r d) = binary_chunk_ABC ++ (B "ABC" ++ [x00]) /\
  length binary_chunk_ABC = 8%nat /\ ByteLength b <= len (B "ABC" ++ [x00]) /\
  decodeBinaryBuffer d b =
    (set_r d (BufioReader [x00] [] None), set_Data b (B "ABC"), None).
Proof.
  intros d b.
  pose proof (decodeBinaryBuffer_buffered d b binary_chunk_ABC (B "ABC" ++ [x00])
                eq_refl ltac:(by vm_compute) eq_refl eq_refl ltac:(by vm_compute)) as H.
  do 5 (split; [ first [ reflexivity | by vm_compute ] | ]).
  exact H.
Defined.

(** ** The first failure, and a callback that declines *)

Section Decode_loop.

Variable jd : bufio_Reader -> option Z -> Document -> bufio_Reader * Document * option error.

(** X7: [Decode] stops at the first buffer that fails.  It returns that
    buffer's error; the buffers after it are as the JSON decode stored
    them, and nothing is added to the trace after the events of the
    failing buffer: no callback call is made for a later buffer. *)
Theorem Decode_first_failure (d : Decoder) (t : trace) (doc : Document)
    (d2 : Decoder) (t1 : trace) (before : list Buffer) (b : Buffer) (after : list Buffer)
    (t2 : trace) (b' : Buffer) (e : error) :
  reaches jd d t doc d2 t1 before b after ->
  decodeBuffer d2 t1 b = (t2, b', Some e) ->
  Decode jd d t doc = (d2, t2, mkDocument (before ++ b' :: after), Some e).
Proof.
  intros Hreach Hb. by rewrite (Decode_reaches _ _ _ _ _ _ _ _ _ Hreach), Hb.
Qed.

(** X8: a callback that declines.  For a buffer that [Decode] reaches and
    for which it calls the callback: when the callback returns an error,
    [Decode] returns that error and the buffer is left as it was; a stream
    returned together with the error is neither read nor closed.  When the
    callback returns neither a stream nor an error, the buffer is left as
    it was, without an error, and [Decode] goes on with the next buffer. *)
Theorem Decode_callback_declines (d : Decoder) (t : trace) (doc : Document)
    (d2 : Decoder) (t1 : trace) (before : list Buffer) (b : Buffer) (after : list Buffer) :
  reaches jd d t doc d2 t1 before b after ->
  validateBuffer d2 b = None ->
  IsEmbeddedResource b = false ->
  validateBufferURI (URI b) = None ->
  fst (cb d2 (URI b)) = None \/ snd (cb d2 (URI b)) <> None ->
  Decode jd d t doc =
    match snd (cb d2 (URI b)) with
    | Some e => (d2, t1 ++ [CallbackCalled (URI b)], mkDocument (before ++ b :: after), Some e)
    | None =>
        let '(t', after', err) := decodeBuffers d2 (t1 ++ [CallbackCalled (URI b)]) after in
        (d2, t', mkDocument (before ++ b :: after'), err)
    end.
Proof.
  intros Hreach Hvalid Hemb Huri Hcb.
  rewrite (Decode_reaches _ _ _ _ _ _ _ _ _ Hreach).
  unfold decodeBuffer. rewrite Hvalid, Hemb, Huri.
  assert (bool_decide (URI b = []) = false) as ->.
  { apply bool_decide_eq_false. intros Hnil. by rewrite Hnil in Huri. }
  destruct (cb d2 (URI b)) as [[rd|] [e|]]; simpl in *; try reflexivity.
  by destruct Hcb.
Qed.

End Decode_loop.

Lemma Decode_first_failure_witness :
  let d := NewDecoder [ReadEvent json_three_buffers None] cb_two_reads in
  let jd := jsonDecode_stub 0 (mkDocument three_buffers) in
  let d2 := fst (fst (fst (Decode jd d [] (mkDocument [])))) in
  let loaded := set_Data buffer_external (B "A" ++ [x00; x00]) in
  let t1 := [CallbackCalled (B "model.bin"); StreamRead (B "model.bin") 3;
             StreamClosed (B "model.bin")] in
  let e := errorString "gltf: Invalid buffer.uri value '../secret.bin'" in
  reaches jd d [] (mkDocument []) d2 t1 [loaded] buffer_parent_uri [buffer_external] /\
  decodeBuffer d2 t1 buffer_parent_uri = (t1, buffer_parent_uri, Some e) /\
  Decode jd d [] (mkDocument []) =
    (d2, t1, mkDocument [loaded; buffer_parent_uri; buffer_external], Some e).
Proof.
  intros d jd d2 loaded t1 e.
  assert (reaches jd d [] (mkDocument []) d2 t1 [loaded] buffer_parent_uri [buffer_external])
    as Hreach by (reaches_by_evaluation [buffer_external] [loaded]).
  assert (decodeBuffer d2 t1 buffer_parent_uri = (t1, buffer_parent_uri, Some e)) as Hb
    by (lazy; reflexivity).
  split; [ exact Hreach | ]. split; [ exact Hb | ].
  exact (Decode_first_failure jd d [] (mkDocument []) d2 t1 [loaded] buffer_parent_uri
           [buffer_external] t1 buffer_parent_uri e Hreach Hb).
Defined.

Lemma Decode_callback_declines_witness :
  let d := NewDecoder [ReadEvent json_external_buffer None] cb_stream_and_error in
  let jd := jsonDecode_stub 0 (mkDocument [buffer_external]) in
  let d2 := fst (fst (fst (Decode jd d [] (mkDocument [])))) in
  reaches jd d [] (mkDocument []) d2 [] [] buffer_external [] /\
  validateBuffer d2 buffer_external = None /\
  IsEmbeddedResource buffer_external = false /\
  validateBufferURI (URI buffer_external) = None /\
  snd (cb d2 (URI buffer_external)) <> None /\
  Decode jd d [] (mkDocument []) =
    (d2, [CallbackCalled (B "model.bin")], mkDocument [buffer_external],
     Some (errorString "not found")).
Proof.
  intros d jd d2.
  assert (reaches jd d [] (mkDocument []) d2 [] [] buffer_external []) as Hreach
    by (reaches_by_evaluation (@nil Buffer) (@nil Buffer)).
  assert (snd (cb d2 (URI buffer_external)) <> None) as Hcb by discriminate.
  split; [ exact Hreach | ].
  split; [ reflexivity | ]. split; [ reflexivity | ]. split; [ reflexivity | ].
  split; [ exact Hcb | ].
  exact (Decode_callback_declines jd d [] (mkDocument []) d2 [] [] buffer_external []
           Hreach eq_refl eq_refl eq_refl (or_intror Hcb)).
Defined.

(** ** Embedding a buffer and reading it back *)

Lemma byte_to_Z_range (c : byte) : 0 <= byte_to_Z c < 256.
Proof. unfold byte_to_Z. pose proof (Byte.to_N_bounded c). lia. Qed.

Lemma byte_of_to_Z (z : Z) (c : byte) : z mod 256 = byte_to_Z c -> byte_of_Z z = c.
Proof.
  intros H. unfold byte_of_Z. rewrite H. unfold byte_to_Z.
  by rewrite N2Z.id, Byte.of_to_N.
Qed.

Lemma lor_add (x y k : Z) :
  0 <= k -> x mod 2 ^ k = 0 -> 0 <= y < 2 ^ k -> Z.lor x y = x + y.
Proof.
  intros Hk Hx Hy.
  assert (Z.land x y = 0) as Hland.
  { apply Z.bits_inj'. intros n Hn. rewrite Z.land_spec, Z.bits_0.
    destruct (Z.lt_ge_cases n k) as [Hlt|Hge].
    - rewrite <- (Z.mod_pow2_bits_low x k n) by lia. by rewrite Hx, Z.bits_0.
    - rewrite <- (Z.mod_small y (2 ^ k)) by lia.
      rewrite Z.mod_pow2_bits_high by lia. apply andb_false_r. }
  by rewrite <- Z.lxor_lor, <- Z.add_nocarry_lxor.
Qed.

Lemma encode_decodeMap (v : Z) : 0 <= v < 64 -> decodeMap (encode v) = Some v.
Proof.
  intros Hv. rewrite <- (Z2Nat.id v) at 2 by lia. unfold encode.
  assert (Z.to_nat v < 64)%nat as Hn by lia. revert Hn. generalize (Z.to_nat v). intros n Hn.
  do 64 (destruct n as [|n]; [ reflexivity | ]). lia.
Qed.

Lemma sextet_value (val k : Z) :
  0 <= k -> Z.land (Z.shiftr val k) 0x3F = (val / 2 ^ k) mod 64.
Proof.
  intros Hk. change 63 with (Z.ones 6). rewrite Z.land_ones by lia.
  by rewrite Z.shiftr_div_pow2.
Qed.

Lemma val24 (A B C : Z) :
  0 <= A -> 0 <= B < 256 -> 0 <= C < 256 ->
  Z.lor (Z.lor (Z.shiftl A 16) (Z.shiftl B 8)) C = A * 65536 + B * 256 + C.
Proof.
  intros HA HB HC. rewrite !Z.shiftl_mul_pow2 by lia.
  change (2 ^ 16) with 65536. change (2 ^ 8) with 256.
  rewrite (lor_add (A * 65536) (B * 256) 16); [ | lia | | ].
  - apply (lor_add _ _ 8); [ lia | | exact HC ].
    change (2 ^ 8) with 256. Z.div_mod_to_equations. lia.
  - change (2 ^ 16) with 65536. apply Z.mod_mul. lia.
  - change (2 ^ 16) with 65536. lia.
Qed.

Lemma dbuf_value (v0 v1 v2 v3 : Z) :
  0 <= v0 -> 0 <= v1 < 64 -> 0 <= v2 < 64 -> 0 <= v3 < 64 ->
  Z.lor (Z.lor (Z.shiftl v0 18) (Z.shiftl v1 12)) (Z.lor (Z.shiftl v2 6) v3)
  = v0 * 262144 + v1 * 4096 + v2 * 64 + v3.
Proof.
  intros H0 H1 H2 H3. rewrite !Z.shiftl_mul_pow2 by lia.
  change (2 ^ 18) with 262144. change (2 ^ 12) with 4096. change (2 ^ 6) with 64.
  rewrite (lor_add (v2 * 64) v3 6); [ | lia | | ].
  - rewrite (lor_add (v0 * 262144) (v1 * 4096) 18); [ | lia | | ].
    + rewrite (lor_add _ _ 12); [ lia | lia | | ].
      * change (2 ^ 12) with 4096. Z.div_mod_to_equations. lia.
      * change (2 ^ 12) with 4096. lia.
    + change (2 ^ 18) with 262144. apply Z.mod_mul. lia.
    + change (2 ^ 18) with 262144. lia.
  - change (2 ^ 6) with 64. apply Z.mod_mul. lia.
  - change (2 ^ 6) with 64. lia.
Qed.

Lemma quantum_bytes (a b c : byte) :
  let val := byte_to_Z a * 65536 + byte_to_Z b * 256 + byte_to_Z c in
  let val' := (val / 2 ^ 18) mod 64 * 262144 + (val / 2 ^ 12) mod 64 * 4096
              + (val / 2 ^ 6) mod 64 * 64 + (val / 2 ^ 0) mod 64 in
  val' = val /\
  byte_of_Z (Z.shiftr val 16) = a /\ byte_of_Z (Z.shiftr val 8) = b /\ byte_of_Z val = c.
Proof.
  intros val val'.
  pose proof (byte_to_Z_range a) as Ha. pose proof (byte_to_Z_range b) as Hb.
  pose proof (byte_to_Z_range c) as Hc.
  split.
  { subst val'. change (2 ^ 18) with 262144. change (2 ^ 12) with 4096.
    change (2 ^ 6) with 64. change (2 ^ 0) with 1.
    assert (0 <= val < 16777216) as Hval by (subst val; lia).
    clearbody val. clear -Hval. Z.div_mod_to_equations. lia. }
  rewrite !Z.shiftr_div_pow2 by lia. change (2 ^ 16) with 65536. change (2 ^ 8) with 256.
  repeat split; apply byte_of_to_Z; subst val; Z.div_mod_to_equations; lia.
Qed.

Lemma quantumBytes_firstn (dbuf : list Z) (dlen : nat) (a b c : byte) :
  0 <= nth 0 dbuf 0 -> 0 <= nth 1 dbuf 0 < 64 -> 0 <= nth 2 dbuf 0 < 64 ->
  0 <= nth 3 dbuf 0 < 64 ->
  nth 0 dbuf 0 * 262144 + nth 1 dbuf 0 * 4096 + nth 2 dbuf 0 * 64 + nth 3 dbuf 0
    = byte_to_Z a * 65536 + byte_to_Z b * 256 + byte_to_Z c ->
  quantumBytes dbuf dlen = firstn (dlen - 1) [a; b; c].
Proof.
  intros H0 H1 H2 H3 Hsum. unfold quantumBytes.
  rewrite dbuf_value, Hsum by assumption.
  destruct (quantum_bytes a b c) as (_ & -> & -> & ->). reflexivity.
Qed.

Lemma decodeMap_sextet (val k : Z) :
  0 <= k -> decodeMap (sextet val k) = Some ((val / 2 ^ k) mod 64).
Proof.
  intros Hk. unfold sextet. rewrite sextet_value by exact Hk.
  apply encode_decodeMap. apply Z.mod_pos_bound. lia.
Qed.

Lemma b64_loop_quantum total c0 c1 c2 c3 v0 v1 v2 v3 rest si out :
  decodeMap c0 = Some v0 -> decodeMap c1 = Some v1 ->
  decodeMap c2 = Some v2 -> decodeMap c3 = Some v3 ->
  b64_loop total (c0 :: c1 :: c2 :: c3 :: rest) si 0 [] out =
  b64_loop total rest (si + 1 + 1 + 1 + 1) 0 [] (out ++ quantumBytes [v0; v1; v2; v3] 4).
Proof.
  intros H0 H1 H2 H3. cbn [b64_loop]. rewrite H0. cbn [Nat.eqb app]. rewrite H1.
  cbn [Nat.eqb app]. rewrite H2. cbn [Nat.eqb app]. rewrite H3. reflexivity.
Qed.

Lemma b64_loop_pad1 total c0 c1 c2 v0 v1 v2 si out :
  decodeMap c0 = Some v0 -> decodeMap c1 = Some v1 -> decodeMap c2 = Some v2 ->
  b64_loop total [c0; c1; c2; padChar] si 0 [] out =
  (out ++ quantumBytes [v0; v1; v2] 3, None).
Proof.
  intros H0 H1 H2. cbn [b64_loop]. rewrite H0. cbn [Nat.eqb app]. rewrite H1.
  cbn [Nat.eqb app]. rewrite H2. reflexivity.
Qed.

Lemma b64_loop_pad2 total c0 c1 v0 v1 si out :
  decodeMap c0 = Some v0 -> decodeMap c1 = Some v1 ->
  b64_loop total [c0; c1; padChar; padChar] si 0 [] out =
  (out ++ quantumBytes [v0; v1] 2, None).
Proof.
  intros H0 H1. cbn [b64_loop]. rewrite H0. cbn [Nat.eqb app]. rewrite H1. reflexivity.
Qed.

Lemma b64_loop_Encode (n : nat) (src : bytes) :
  (length src <= n)%nat ->
  forall total si out, b64_loop total (Encode src) si 0 [] out = (out ++ src, None).
Proof.
  revert src. induction n as [|n IH]; intros src Hn total si out.
  { destruct src; [ by rewrite app_nil_r | simpl in Hn; lia ]. }
  destruct src as [|a [|b [|c rest]]].
  - by rewrite app_nil_r.
  - pose proof (byte_to_Z_range a) as Ha.
    cbn [Encode]. rewrite Z.shiftl_mul_pow2 by lia. change (2 ^ 16) with 65536.
    rewrite (b64_loop_pad2 _ _ _ _ _ _ _ (decodeMap_sextet _ 18 ltac:(lia))
               (decodeMap_sextet _ 12 ltac:(lia))).
    rewrite (quantumBytes_firstn _ _ a x00 x00); [ reflexivity | cbn [nth] .. ].
    + apply Z.mod_pos_bound. lia.
    + apply Z.mod_pos_bound. lia.
    + lia.
    + lia.
    + change (byte_to_Z x00) with 0. change (2 ^ 18) with 262144.
      change (2 ^ 12) with 4096. Z.div_mod_to_equations. lia.
  - pose proof (byte_to_Z_range a) as Ha. pose proof (byte_to_Z_range b) as Hb.
    cbn [Encode].
    replace (Z.lor (Z.shiftl (byte_to_Z a) 16) (Z.shiftl (byte_to_Z b) 8))
      with (byte_to_Z a * 65536 + byte_to_Z b * 256 + 0).
    2:{ rewrite <- (val24 (byte_to_Z a) (byte_to_Z b) 0) by lia. by rewrite Z.lor_0_r. }
    rewrite (b64_loop_pad1 _ _ _ _ _ _ _ _ _ (decodeMap_sextet _ 18 ltac:(lia))
               (decodeMap_sextet _ 12 ltac:(lia)) (decodeMap_sextet _ 6 ltac:(lia))).
    rewrite (quantumBytes_firstn _ _ a b x00); [ reflexivity | cbn [nth] .. ].
    + apply Z.mod_pos_bound. lia.
    + apply Z.mod_pos_bound. lia.
    + apply Z.mod_pos_bound. lia.
    + lia.
    + change (byte_to_Z x00) with 0. change (2 ^ 18) with 262144.
      change (2 ^ 12) with 4096. change (2 ^ 6) with 64. Z.div_mod_to_equations. lia.
  - pose proof (byte_to_Z_range a) as Ha. pose proof (byte_to_Z_range b) as Hb.
    pose proof (byte_to_Z_range c) as Hc.
    cbn [Encode app]. rewrite val24 by lia.
    rewrite (b64_loop_quantum _ _ _ _ _ _ _ _ _ _ _ _ (decodeMap_sextet _ 18 ltac:(lia))
               (decodeMap_sextet _ 12 ltac:(lia)) (decodeMap_sextet _ 6 ltac:(lia))
               (decodeMap_sextet _ 0 ltac:(lia))).
    rewrite IH by (simpl in Hn; lia).
    rewrite (quantumBytes_firstn _ _ a b c); [ by rewrite <- app_assoc | cbn [nth] .. ].
    + apply Z.mod_pos_bound. lia.
    + apply Z.mod_pos_bound. lia.
    + apply Z.mod_pos_bound. lia.
    + apply Z.mod_pos_bound. lia.
    + apply (quantum_bytes a b c).
Qed.

Lemma DecodeString_EncodeToString (data : bytes) :
  DecodeString (EncodeToString data) = (data, None).
Proof. unfold DecodeString, EncodeToString. by rewrite (b64_loop_Encode (length data)). Qed.

(** X9: [EmbeddedResource] followed by [marshalData] gives back the bytes
    of [Data]: the URI it writes is recognised as an embedded resource, and
    the base64 text after the comma decodes to [Data] without an error.
    The name and the byteLength are not touched. *)
Theorem EmbeddedResource_marshalData (b : Buffer) :
  IsEmbeddedResource (EmbeddedResource b) = true /\
  Name (EmbeddedResource b) = Name b /\
  ByteLength (EmbeddedResource b) = ByteLength b /\
  marshalData (EmbeddedResource b) = Returns (Data b, None).
Proof.
  split; [ apply HasPrefix_app | ]. split; [ reflexivity | ]. split; [ reflexivity | ].
  rewrite (marshalData_embedded _ (EncodeToString (Data b))) by reflexivity.
  by rewrite DecodeString_EncodeToString.
Qed.

(** X10: a buffer made an embedded resource is restored by [decodeBuffer]
    whatever [Data] held in between: with a valid byteLength, [Data] is the
    one that was embedded, there is no error, and the callback is not
    called. *)
Theorem decodeBuffer_EmbeddedResource (d : Decoder) (t : trace) (b : Buffer) (stale : bytes) :
  validateBuffer d b = None ->
  decodeBuffer d t (set_Data (EmbeddedResource b) stale) = (t, EmbeddedResource b, None).
Proof.
  intros Hvalid. unfold decodeBuffer.
  change (validateBuffer d (set_Data (EmbeddedResource b) stale)) with (validateBuffer d b).
  rewrite Hvalid.
  assert (bool_decide (URI (set_Data (EmbeddedResource b) stale) = []) = false) as ->
    by (by apply bool_decide_eq_false).
  change (IsEmbeddedResource (set_Data (EmbeddedResource b) stale))
    with (IsEmbeddedResource (EmbeddedResource b)).
  change (marshalData (set_Data (EmbeddedResource b) stale))
    with (marshalData (EmbeddedResource b)).
  assert (IsEmbeddedResource (EmbeddedResource b) = true) as -> by apply HasPrefix_app.
  rewrite (marshalData_embedded _ (EncodeToString (Data b))) by reflexivity.
  by rewrite DecodeString_EncodeToString.
Qed.

Lemma decodeBuffer_EmbeddedResource_witness :
  let d := NewDecoder [] cb_none in
  validateBuffer d buffer_with_data = None /\
  URI (EmbeddedResource buffer_with_data) = B "data:application/octet-stream;base64,QUJD" /\
  decodeBuffer d [] (set_Data (EmbeddedResource buffer_with_data) []) =
    (@nil event, EmbeddedResource buffer_with_data, None).
Proof.
  intros d. split; [ reflexivity | ]. split; [ reflexivity | ].
  exact (decodeBuffer_EmbeddedResource d [] buffer_with_data [] eq_refl).
Defined.

(** ** The data URI of a buffer and of an image *)

Lemma skipn_prefix_sep (p : bytes) (sep : byte) (payload : bytes) :
  skipn (Z.to_nat (len p + 1)) (p ++ sep :: payload) = payload.
Proof.
  unfold len. replace (Z.to_nat (Z.of_nat (length p) + 1)) with (length p + 1)%nat by lia.
  rewrite skipn_app, skipn_all2 by lia.
  by replace (length p + 1 - length p)%nat with 1%nat by lia.
Qed.

Lemma prefix_only (uri p : bytes) :
  HasPrefix uri p = true -> len uri < len p + 1 -> uri = p.
Proof.
  intros Hp Hlen. apply HasPrefix_spec in Hp as [rest ->].
  unfold len in Hlen. rewrite length_app in Hlen.
  destruct rest; [ by rewrite app_nil_r | simpl in Hlen; lia ].
Qed.

(** X11: what [marshalData] does with a buffer, case by case.  A URI
    without the data prefix gives no bytes and no error.  The bare prefix,
    with nothing after it, makes the slice expression panic; no other URI
    does.  Otherwise the byte after the prefix is skipped unread and the
    rest is base64-decoded: the decoded bytes are returned when there is
    no error, and when there is one it is returned without any bytes. *)
Theorem marshalData_cases (b : Buffer) :
  (IsEmbeddedResource b = false -> marshalData b = Returns ([], None)) /\
  ((exists msg, marshalData b = Panics msg) <-> URI b = mimetypeApplicationOctet) /\
  (forall sep payload,
     URI b = mimetypeApplicationOctet ++ sep :: payload ->
     marshalData b = Returns match DecodeString payload with
                             | (sl, None) => (sl, None)
                             | (_, Some e) => ([], Some e)
                             end).
Proof.
  unfold marshalData. split; [ by intros -> | ]. split.
  - split.
    + intros [msg H]. destruct (IsEmbeddedResource b) eqn:Hemb; [ | discriminate ].
      simpl in H. destruct (Z.ltb_spec (len (URI b)) (len mimetypeApplicationOctet + 1))
        as [Hlt|Hge].
      * by apply prefix_only.
      * by destruct (DecodeString _) as [sl err], (_ || _).
    + intros HURI. unfold IsEmbeddedResource. rewrite HURI. by eexists.
  - intros sep payload HURI. unfold IsEmbeddedResource. rewrite HURI.
    rewrite HasPrefix_app. cbn [negb].
    replace (len (mimetypeApplicationOctet ++ sep :: payload) <?
             len mimetypeApplicationOctet + 1) with false.
    2:{ symmetry. apply Z.ltb_ge. unfold len. rewrite !length_app. simpl. lia. }
    rewrite skipn_prefix_sep.
    destruct (DecodeString payload) as [sl [e|]].
    + by rewrite orb_true_r.
    + rewrite orb_false_r. unfold len. by destruct sl.
Qed.

(** X12: what [Image.MarshalData] does with an image, case by case.  A URI
    with neither image prefix gives no bytes and no error.  A bare prefix
    makes the slice expression panic; no other URI does.  Otherwise the
    byte after the prefix is skipped unread and the result is that of the
    base64 decoding of the rest, bytes and error together. *)
Theorem Image_MarshalData_cases (im : Image.t) :
  (Image_IsEmbeddedResource im = false -> Image_MarshalData im = Returns ([], None)) /\
  ((exists msg, Image_MarshalData im = Panics msg) <->
   Image.URI im = mimetypeImagePNG \/ Image.URI im = mimetypeImageJPG) /\
  (forall sep payload,
     Image.URI im = mimetypeImagePNG ++ sep :: payload \/
     Image.URI im = mimetypeImageJPG ++ sep :: payload ->
     Image_MarshalData im = Returns (DecodeString payload)).
Proof.
  unfold Image_MarshalData. split; [ by intros -> | ]. split.
  - split.
    + intros [msg H]. destruct (Image_IsEmbeddedResource im) eqn:Hemb; [ | discriminate ].
      cbn [negb] in H. unfold Image_IsEmbeddedResource in Hemb.
      destruct (HasPrefix (Image.URI im) mimetypeImageJPG) eqn:Hjpg.
      * destruct (Z.ltb_spec (len (Image.URI im)) (len mimetypeImageJPG + 1)) as [Hlt|Hge];
          [ right; by apply prefix_only | discriminate ].
      * rewrite orb_false_r in Hemb.
        destruct (Z.ltb_spec (len (Image.URI im)) (len mimetypeImagePNG + 1)) as [Hlt|Hge];
          [ left; by apply prefix_only | discriminate ].
    + unfold Image_IsEmbeddedResource. intros [-> | ->]; by eexists.
  - intros sep payload HURI. unfold Image_IsEmbeddedResource.
    destruct HURI as [-> | ->].
    + rewrite HasPrefix_app.
      assert (HasPrefix (mimetypeImagePNG ++ sep :: payload) mimetypeImageJPG = false) as ->
        by reflexivity.
      cbn [negb orb].
      replace (len (mimetypeImagePNG ++ sep :: payload) <? len mimetypeImagePNG + 1)
        with false.
      2:{ symmetry. apply Z.ltb_ge. unfold len. rewrite !length_app. simpl. lia. }
      by rewrite skipn_prefix_sep.
    + rewrite HasPrefix_app. rewrite orb_true_r. cbn [negb].
      replace (len (mimetypeImageJPG ++ sep :: payload) <? len mimetypeImageJPG + 1)
        with false.
      2:{ symmetry. apply Z.ltb_ge. unfold len. rewrite !length_app. simpl. lia. }
      by rewrite skipn_prefix_sep.
Qed.

Lemma marshalData_cases_witness :
  URI buffer_QUJD = mimetypeApplicationOctet ++ x2c :: B "QUJD" /\
  marshalData buffer_QUJD = Returns (B "ABC", None).
Proof.
  split; [ reflexivity | ].
  exact (proj2 (proj2 (marshalData_cases buffer_QUJD)) x2c (B "QUJD") eq_refl).
Defined.

Lemma Image_MarshalData_cases_witness :
  Image.URI image_QUJD = mimetypeImagePNG ++ x2c :: B "QUJD" /\
  Image_MarshalData image_QUJD = Returns (B "ABC", None).
Proof.
  split; [ reflexivity | ].
  exact (proj2 (proj2 (Image_MarshalData_cases image_QUJD)) x2c (B "QUJD")
           (or_introl eq_refl)).
Defined.

(** ** The checks on byteLength *)

Section Decode_byteLength.

Variable jd : bufio_Reader -> option Z -> Document -> bufio_Reader * Document * option error.

(** X13: a buffer that [Decode] reaches with a [byteLength] of zero, or
    one above [MaxMemoryAllocation], makes it fail before anything is done
    for that buffer: the error is the one for the zero length, else the
    quota error, the buffer is unchanged, and the trace is the one from
    before the buffer.  This holds whatever the URI is, embedded or not. *)
Theorem Decode_invalid_byteLength (d : Decoder) (t : trace) (doc : Document)
    (d2 : Decoder) (t1 : trace) (before : list Buffer) (b : Buffer) (after : list Buffer) :
  reaches jd d t doc d2 t1 before b after ->
  ByteLength b = 0 \/ ByteLength b > MaxMemoryAllocation (quotas d2) ->
  Decode jd d t doc =
    (d2, t1, mkDocument (before ++ b :: after),
     Some (errorString
             (if ByteLength b =? 0
              then "gltf: Invalid buffer.byteLength value = 0"
              else "gltf: Quota exceeded, bytes of buffer > MaxMemoryAllocation"))).
Proof.
  intros Hreach Hlen. rewrite (Decode_reaches _ _ _ _ _ _ _ _ _ Hreach).
  unfold decodeBuffer, validateBuffer.
  destruct (Z.eqb_spec (ByteLength b) 0) as [H0|Hn0]; [ reflexivity | ].
  destruct Hlen as [H0|Hq]; [ done | ].
  by replace (ByteLength b >? MaxMemoryAllocation (quotas d2)) with true
    by (symmetry; apply Z.gtb_lt; lia).
Qed.

End Decode_byteLength.

Lemma Decode_invalid_byteLength_witness :
  let d := decoder_two_bytes in
  let jd := jsonDecode_stub 0 (mkDocument [buffer_external]) in
  let d2 := fst (fst (fst (Decode jd d [] (mkDocument [])))) in
  reaches jd d [] (mkDocument []) d2 [] [] buffer_external [] /\
  ByteLength buffer_external > MaxMemoryAllocation (quotas d2) /\
  Decode jd d [] (mkDocument []) =
    (d2, [], mkDocument [buffer_external],
     Some (errorString "gltf: Quota exceeded, bytes of buffer > MaxMemoryAllocation")).
Proof.
  intros d jd d2.
  assert (reaches jd d [] (mkDocument []) d2 [] [] buffer_external []) as Hreach
    by (reaches_by_evaluation (@nil Buffer) (@nil Buffer)).
  assert (ByteLength buffer_external > MaxMemoryAllocation (quotas d2)) as Hq
    by (by vm_compute).
  split; [ exact Hreach | ]. split; [ exact Hq | ].
  exact (Decode_invalid_byteLength jd d [] (mkDocument []) d2 [] [] buffer_external []
           Hreach (or_intror Hq)).
Defined.

(** ** The transform of a node, with defaults *)

Section Node_defaults.

Context {ExtObject : Type}.
Variable extensions : gmap bytes (bytes -> option ExtObject).

(** X14: the accessors never hand out the all-zero value of a transform
    that was not set: [MatrixOrDefault], [RotationOrDefault] and
    [ScaleOrDefault] return the field, or the default when the field
    compares equal to all zeros, and what they return never compares equal
    to all zeros.  [TranslationOrDefault] returns the field as it is. *)
Theorem Node_OrDefault_not_empty (n : Node.t ExtObject) :
  (array_eq (Node_MatrixOrDefault n) emptyMatrix = false /\
   (Node_MatrixOrDefault n = Node.Matrix n \/
    array_eq (Node.Matrix n) emptyMatrix = true /\ Node_MatrixOrDefault n = DefaultMatrix)) /\
  (array_eq (Node_RotationOrDefault n) emptyRotation = false /\
   (Node_RotationOrDefault n = Node.Rotation n \/
    array_eq (Node.Rotation n) emptyRotation = true /\
    Node_RotationOrDefault n = DefaultRotation)) /\
  (array_eq (Node_ScaleOrDefault n) emptyScale = false /\
   (Node_ScaleOrDefault n = Node.Scale n \/
    array_eq (Node.Scale n) emptyScale = true /\ Node_ScaleOrDefault n = DefaultScale)) /\
  Node_TranslationOrDefault n = Node.Translation n.
Proof.
  unfold Node_MatrixOrDefault, Node_RotationOrDefault, Node_ScaleOrDefault.
  split; [ | split; [ | split; [ | reflexivity ] ] ].
  - destruct (array_eq (Node.Matrix n) emptyMatrix) eqn:H;
      [ split; [ reflexivity | by right ] | split; [ exact H | by left ] ].
  - destruct (array_eq (Node.Rotation n) emptyRotation) eqn:H;
      [ split; [ reflexivity | by right ] | split; [ exact H | by left ] ].
  - destruct (array_eq (Node.Scale n) emptyScale) eqn:H;
      [ split; [ reflexivity | by right ] | split; [ exact H | by left ] ].
Qed.

(** X15: a node decoded by [Node.UnmarshalJSON] from an object without a
    [matrix], [rotation], [scale] or [translation] member holds the
    default of that field, whatever the receiver held before, and the
    accessor of the field returns that default. *)
Theorem Node_decoded_defaults (n : Node.t ExtObject) (data : bytes)
    (members : list (bytes * (bytes * jtree))) :
  parse_json data = Some (TObject members) ->
  snd (Node_UnmarshalJSON extensions n data) = None ->
  let n' := fst (Node_UnmarshalJSON extensions n data) in
  (Some "matrix"%string ∉ fields_of members ->
   Node.Matrix n' = DefaultMatrix /\ Node_MatrixOrDefault n' = DefaultMatrix) /\
  (Some "rotation"%string ∉ fields_of members ->
   Node.Rotation n' = DefaultRotation /\ Node_RotationOrDefault n' = DefaultRotation) /\
  (Some "scale"%string ∉ fields_of members ->
   Node.Scale n' = DefaultScale /\ Node_ScaleOrDefault n' = DefaultScale) /\
  (Some "translation"%string ∉ fields_of members ->
   Node.Translation n' = DefaultTranslation /\
   Node_TranslationOrDefault n' = DefaultTranslation).
Proof.
  intros Hparse Herr n'.
  destruct (Node_UnmarshalJSON_absent_default extensions n data members Hparse Herr)
    as (Hm & Hr & Hs & Ht). fold n' in Hm, Hr, Hs, Ht. clearbody n'.
  unfold Node_MatrixOrDefault, Node_RotationOrDefault, Node_ScaleOrDefault,
    Node_TranslationOrDefault.
  split; [ | split; [ | split ] ]; intros Habs.
  - rewrite (Hm Habs). split; reflexivity.
  - rewrite (Hr Habs). split; reflexivity.
  - rewrite (Hs Habs). split; reflexivity.
  - rewrite (Ht Habs). split; reflexivity.
Qed.

End Node_defaults.

Lemma Node_decoded_defaults_witness :
  let data := J "{'name':'a','scale':[2,2,2]}" in
  let n' := fst (Node_UnmarshalJSON no_extensions node_extras_zero data) in
  Node.Rotation node_extras_zero = emptyRotation /\
  Node.Rotation n' = DefaultRotation /\ Node_RotationOrDefault n' = DefaultRotation /\
  Node.Scale n' = [2; 2; 2]%float.
Proof.
  intros data n'.
  assert (exists members, parse_json data = Some (TObject members) /\
            Some "rotation"%string ∉ fields_of members) as (members & Hparse & Habs).
  { eexists. split; [ by vm_compute | ]. vm_compute.
    intros H. repeat (apply elem_of_cons in H as [H|H]; [ discriminate H | ]).
    by apply elem_of_nil in H. }
  destruct (Node_decoded_defaults no_extensions node_extras_zero data members Hparse
              ltac:(by vm_compute)) as (_ & Hr & _).
  destruct (Hr Habs) as [H1 H2].
  split; [ reflexivity | ]. split; [ exact H1 | ]. split; [ exact H2 | ]. by vm_compute.
Defined.

(** ** The extensions map after decoding *)

Section Extensions_lookup.

Context {ExtObject : Type}.

Lemma Extensions_UnmarshalJSON_lookup
    (extensions : gmap bytes (bytes -> option ExtObject))
    (ext : gmap bytes (ExtValue ExtObject)) (data : bytes) (key : bytes) :
  snd (json_Unmarshal_envelope data) = None ->
  fst (Extensions_UnmarshalJSON extensions ext data) !! key =
    match fst (json_Unmarshal_envelope data) !! key with
    | Some value => Some (decode_extension extensions key value)
    | None => ext !! key
    end.
Proof.
  unfold Extensions_UnmarshalJSON.
  destruct (json_Unmarshal_envelope data) as [raw [e|]]; simpl; [ discriminate | ].
  intros _. apply map_fold_insert_lookup.
Qed.

(** X16: [Extensions.UnmarshalJSON] merges into the map it is called on.
    When the envelope does not decode, the map is left as it was.  When it
    does, an entry whose key is not in the envelope is kept, and a key of
    the envelope whose registered factory decodes the payload holds the
    decoded object, replacing what was there. *)
Theorem Extensions_UnmarshalJSON_merges
    (extensions : gmap bytes (bytes -> option ExtObject))
    (ext : gmap bytes (ExtValue ExtObject)) (data : bytes) :
  (snd (json_Unmarshal_envelope data) <> None ->
   fst (Extensions_UnmarshalJSON extensions ext data) = ext) /\
  (forall key,
     snd (json_Unmarshal_envelope data) = None ->
     fst (json_Unmarshal_envelope data) !! key = None ->
     fst (Extensions_UnmarshalJSON extensions ext data) !! key = ext !! key) /\
  (forall key value extFactory o,
     snd (json_Unmarshal_envelope data) = None ->
     fst (json_Unmarshal_envelope data) !! key = Some value ->
     extensions !! key = Some extFactory -> extFactory value = Some o ->
     fst (Extensions_UnmarshalJSON extensions ext data) !! key = Some (ExtTyped o)).
Proof.
  split; [ | split ].
  - unfold Extensions_UnmarshalJSON.
    by destruct (json_Unmarshal_envelope data) as [raw [e|]].
  - intros key Herr Hkey. by rewrite Extensions_UnmarshalJSON_lookup, Hkey.
  - intros key value extFactory o Herr Hkey Hreg Hdec.
    rewrite Extensions_UnmarshalJSON_lookup, Hkey by exact Herr.
    unfold decode_extension. by rewrite Hreg, Hdec.
Qed.

(** X17: after [RegisterExtension(key, f)] the payload found under [key]
    is decoded by [f], whatever was registered for [key] before: it is
    stored as the object [f] makes of it, or raw when [f] refuses it.
    Every other key is treated as before the registration, and so is the
    error. *)
Theorem RegisterExtension_decodes
    (extensions : gmap bytes (bytes -> option ExtObject))
    (key : bytes) (f : bytes -> option ExtObject)
    (ext : gmap bytes (ExtValue ExtObject)) (data : bytes) :
  let registered := RegisterExtension key f extensions in
  snd (Extensions_UnmarshalJSON registered ext data)
    = snd (Extensions_UnmarshalJSON extensions ext data) /\
  (forall k, k <> key ->
     fst (Extensions_UnmarshalJSON registered ext data) !! k
       = fst (Extensions_UnmarshalJSON extensions ext data) !! k) /\
  (forall value,
     snd (json_Unmarshal_envelope data) = None ->
     fst (json_Unmarshal_envelope data) !! key = Some value ->
     fst (Extensions_UnmarshalJSON registered ext data) !! key
       = Some match f value with
              | Some o => ExtTyped o
              | None => ExtRaw value
              end).
Proof.
  intros registered. split; [ | split ].
  - unfold Extensions_UnmarshalJSON.
    by destruct (json_Unmarshal_envelope data) as [raw [e|]].
  - intros k Hk. destruct (snd (json_Unmarshal_envelope data)) as [e|] eqn:Herr.
    + unfold Extensions_UnmarshalJSON.
      destruct (json_Unmarshal_envelope data) as [raw err]. simpl in Herr. by subst err.
    + rewrite !Extensions_UnmarshalJSON_lookup by exact Herr.
      destruct (fst (json_Unmarshal_envelope data) !! k) as [value|]; [ | reflexivity ].
      unfold decode_extension, registered, RegisterExtension.
      by rewrite lookup_insert_ne.
  - intros value Herr Hkey.
    rewrite Extensions_UnmarshalJSON_lookup, Hkey by exact Herr.
    unfold decode_extension, registered, RegisterExtension.
    rewrite lookup_insert_eq. by destruct (f value).
Qed.

End Extensions_lookup.

Lemma Extensions_UnmarshalJSON_merges_witness :
  let extensions := RegisterExtension (B "XYZ_foo") factory_accepting ∅ in
  let ext : gmap bytes (ExtValue bytes) := {[ B "XYZ_old" := ExtRaw (J "1") ]} in
  let data := J "{'XYZ_foo':{'a':1}}" in
  snd (json_Unmarshal_envelope data) = None /\
  fst (json_Unmarshal_envelope data) !! B "XYZ_old" = None /\
  fst (json_Unmarshal_envelope data) !! B "XYZ_foo" = Some (J "{'a':1}") /\
  fst (Extensions_UnmarshalJSON extensions ext data) !! B "XYZ_old" = Some (ExtRaw (J "1")) /\
  fst (Extensions_UnmarshalJSON extensions ext data) !! B "XYZ_foo"
    = Some (ExtTyped (J "{'a':1}")).
Proof.
  intros extensions ext data.
  assert (snd (json_Unmarshal_envelope data) = None) as Herr by (by vm_compute).
  assert (fst (json_Unmarshal_envelope data) !! B "XYZ_old" = None) as Hold
    by (by vm_compute).
  assert (fst (json_Unmarshal_envelope data) !! B "XYZ_foo" = Some (J "{'a':1}")) as Hfoo
    by (by vm_compute).
  destruct (Extensions_UnmarshalJSON_merges extensions ext data) as (_ & Hkept & Htyped).
  split; [ exact Herr | ]. split; [ exact Hold | ]. split; [ exact Hfoo | ]. split.
  - rewrite (Hkept (B "XYZ_old") Herr Hold). by vm_compute.
  - exact (Htyped (B "XYZ_foo") (J "{'a':1}") factory_accepting (J "{'a':1}") Herr Hfoo
             ltac:(by vm_compute) eq_refl).
Defined.

Lemma RegisterExtension_decodes_witness :
  let extensions := RegisterExtension (B "XYZ_foo") factory_refusing ∅ in
  let data := J "{'XYZ_foo':{'a':1}}" in
  snd (json_Unmarshal_envelope data) = None /\
  fst (json_Unmarshal_envelope data) !! B "XYZ_foo" = Some (J "{'a':1}") /\
  fst (Extensions_UnmarshalJSON
         (RegisterExtension (B "XYZ_foo") factory_accepting extensions) ∅ data)
    !! B "XYZ_foo" = Some (ExtTyped (J "{'a':1}")).
Proof.
  intros extensions data.
  assert (snd (json_Unmarshal_envelope data) = None) as Herr by (by vm_compute).
  assert (fst (json_Unmarshal_envelope data) !! B "XYZ_foo" = Some (J "{'a':1}")) as Hfoo
    by (by vm_compute).
  split; [ exact Herr | ]. split; [ exact Hfoo | ].
  exact (proj2 (proj2 (RegisterExtension_decodes extensions (B "XYZ_foo") factory_accepting
                         ∅ data)) (J "{'a':1}") Herr Hfoo).
Defined.

(** ** Decoding a colour *)

Lemma store_elems_length {A} (store : jtree -> A -> A * option error) (zero : A)
    (elems : list jtree) (old : list A) :
  length (fst (store_elems store zero elems old)) = length elems.
Proof.
  revert old. induction elems as [|v elems IH]; intros old; [ reflexivity | ].
  simpl. destruct (store v (hd zero old)) as [x e].
  specialize (IH (tl old)). destruct (store_elems store zero elems (tl old)) as [xs e'].
  simpl in *. by rewrite IH.
Qed.

Lemma json_Unmarshal_floats_short (n : nat) (data : bytes) (tmp : list float64)
    (elems : list jtree) (i : nat) :
  parse_json data = Some (TArray elems) ->
  (length elems <= i)%nat ->
  nth i (fst (json_Unmarshal_floats n data tmp)) 0%float = 0%float.
Proof.
  intros Hparse Hi. unfold json_Unmarshal_floats, store_array. rewrite Hparse.
  pose proof (store_elems_length (store_float "float64") 0%float (firstn n elems) tmp)
    as Hlen.
  destruct (store_elems _ _ _ _) as [xs e]. simpl in *.
  rewrite length_firstn in Hlen.
  rewrite app_nth2 by lia. apply nth_repeat.
Qed.

Lemma store_elems_nth {A} (store : jtree -> A -> A * option error) (zero : A)
    (elems : list jtree) (old : list A) (i : nat) (d : A) :
  (i < length elems)%nat ->
  nth i (fst (store_elems store zero elems old)) d
    = fst (store (nth i elems TNull) (nth i old zero)).
Proof.
  revert old i. induction elems as [|v elems IH]; intros old i Hi; [ simpl in Hi; lia | ].
  simpl. destruct (store v (hd zero old)) as [x e] eqn:Hx.
  specialize (IH (tl old)). destruct (store_elems store zero elems (tl old)) as [xs e'].
  destruct i as [|i]; simpl.
  - replace (nth 0 old zero) with (hd zero old) by (by destruct old).
    by rewrite Hx.
  - simpl in IH. rewrite (IH i) by (simpl in Hi; lia). by destruct old, i.
Qed.

Lemma nth_firstn_lt {A} (l : list A) (i n : nat) (d : A) :
  (i < n)%nat -> nth i (firstn n l) d = nth i l d.
Proof.
  revert i n. induction l as [|x l IH]; intros i n Hi.
  - by rewrite firstn_nil.
  - destruct n as [|n]; [ lia | ]. destruct i as [|i]; [ reflexivity | ].
    simpl. apply IH. lia.
Qed.

Lemma json_Unmarshal_floats_nth (n : nat) (data : bytes) (tmp : list float64)
    (elems : list jtree) (i : nat) (v : jtree) :
  parse_json data = Some (TArray elems) ->
  (i < n)%nat -> nth_error elems i = Some v ->
  nth i (fst (json_Unmarshal_floats n data tmp)) 0%float
    = fst (store_float "float64" v (nth i tmp 0%float)).
Proof.
  intros Hparse Hi Hv. unfold json_Unmarshal_floats, store_array. rewrite Hparse.
  assert (i < length elems)%nat as Hlt by (apply nth_error_Some; by rewrite Hv).
  pose proof (store_elems_length (store_float "float64") 0%float (firstn n elems) tmp)
    as Hlen.
  pose proof (store_elems_nth (store_float "float64") 0%float (firstn n elems) tmp i
                0%float) as Hnth.
  destruct (store_elems _ _ _ _) as [xs e]. simpl in *.
  rewrite length_firstn in Hlen, Hnth.
  rewrite app_nth1 by lia. rewrite Hnth by lia.
  rewrite nth_firstn_lt by exact Hi.
  by rewrite (nth_error_nth _ _ _ Hv).
Qed.

Lemma colour_components (tmp : list float64) (elems : list jtree) (n i : nat)
    (data : bytes) (seed : list float64) :
  parse_json data = Some (TArray elems) ->
  tmp = fst (json_Unmarshal_floats n data seed) ->
  (i < n)%nat -> nth i seed 0%float = 1%float ->
  ((length elems <= i)%nat -> nth i tmp 0%float = 0%float) /\
  (nth_error elems i = Some TNull -> nth i tmp 0%float = 1%float) /\
  (forall lit f,
     nth_error elems i = Some (TNumber lit) -> ParseFloat lit = Some f ->
     nth i tmp 0%float = f).
Proof.
  intros Hparse -> Hi Hseed. split; [ | split ].
  - intros Hshort. by apply (json_Unmarshal_floats_short n data seed elems).
  - intros Hnull.
    rewrite (json_Unmarshal_floats_nth n data seed elems i TNull Hparse Hi Hnull).
    exact Hseed.
  - intros lit f Hnum Hf.
    rewrite (json_Unmarshal_floats_nth n data seed elems i _ Hparse Hi Hnum).
    simpl. by rewrite Hf.
Qed.

(** X18: [RGBA.UnmarshalJSON] and [RGB.UnmarshalJSON] decode into an
    array seeded with ones.  When that decode fails, its error is returned
    and the receiver is unchanged.  When it succeeds, a component keeps
    the seed 1 where the JSON gives [null], as the whole value or as the
    element of the array; a number sets the component; and the components
    that a shorter JSON array does not reach are 0, not 1. *)
Theorem RGBA_UnmarshalJSON_components (c : RGBA.t) (c3 : RGB.t) (data : bytes) :
  (forall e,
     snd (json_Unmarshal_floats 4 data [1; 1; 1; 1]%float) = Some e ->
     RGBA_UnmarshalJSON c data = (c, Some e)) /\
  (forall e,
     snd (json_Unmarshal_floats 3 data [1; 1; 1]%float) = Some e ->
     RGB_UnmarshalJSON c3 data = (c3, Some e)) /\
  (parse_json data = Some TNull ->
   RGBA_UnmarshalJSON c data = (RGBA.mk 1%float 1%float 1%float 1%float, None) /\
   RGB_UnmarshalJSON c3 data = (RGB.mk 1%float 1%float 1%float, None)) /\
  (forall elems i,
     parse_json data = Some (TArray elems) ->
     snd (json_Unmarshal_floats 4 data [1; 1; 1; 1]%float) = None ->
     (i < 4)%nat ->
     let x := nth i (RGBA_components (fst (RGBA_UnmarshalJSON c data))) 0%float in
     snd (RGBA_UnmarshalJSON c data) = None /\
     ((length elems <= i)%nat -> x = 0%float) /\
     (nth_error elems i = Some TNull -> x = 1%float) /\
     (forall lit f,
        nth_error elems i = Some (TNumber lit) -> ParseFloat lit = Some f -> x = f)) /\
  (forall elems i,
     parse_json data = Some (TArray elems) ->
     snd (json_Unmarshal_floats 3 data [1; 1; 1]%float) = None ->
     (i < 3)%nat ->
     let x := nth i (RGB_components (fst (RGB_UnmarshalJSON c3 data))) 0%float in
     snd (RGB_UnmarshalJSON c3 data) = None /\
     ((length elems <= i)%nat -> x = 0%float) /\
     (nth_error elems i = Some TNull -> x = 1%float) /\
     (forall lit f,
        nth_error elems i = Some (TNumber lit) -> ParseFloat lit = Some f -> x = f)).
Proof.
  split; [ | split; [ | split; [ | split ] ] ].
  - intros e. unfold RGBA_UnmarshalJSON.
    destruct (json_Unmarshal_floats 4 data _) as [tmp err]. cbn [snd]. by intros ->.
  - intros e. unfold RGB_UnmarshalJSON.
    destruct (json_Unmarshal_floats 3 data _) as [tmp err]. cbn [snd]. by intros ->.
  - intros Hparse. unfold RGBA_UnmarshalJSON, RGB_UnmarshalJSON, json_Unmarshal_floats.
    by rewrite Hparse.
  - intros elems i Hparse Hok Hi x. subst x. unfold RGBA_UnmarshalJSON.
    pose proof (colour_components
                  (fst (json_Unmarshal_floats 4 data [1; 1; 1; 1]%float)) elems 4 i data
                  [1; 1; 1; 1]%float Hparse eq_refl Hi) as Hcomp.
    destruct (json_Unmarshal_floats 4 data _) as [tmp err]. cbn [fst snd] in *.
    subst err. cbn [fst snd RGBA_components RGBA.R RGBA.G RGBA.B RGBA.A].
    split; [ reflexivity | ].
    do 4 (destruct i as [|i]; [ by apply Hcomp | ]). lia.
  - intros elems i Hparse Hok Hi x. subst x. unfold RGB_UnmarshalJSON.
    pose proof (colour_components
                  (fst (json_Unmarshal_floats 3 data [1; 1; 1]%float)) elems 3 i data
                  [1; 1; 1]%float Hparse eq_refl Hi) as Hcomp.
    destruct (json_Unmarshal_floats 3 data _) as [tmp err]. cbn [fst snd] in *.
    subst err. cbn [fst snd RGB_components RGB.R RGB.G RGB.B].
    split; [ reflexivity | ].
    do 3 (destruct i as [|i]; [ by apply Hcomp | ]). lia.
Qed.

Lemma RGBA_UnmarshalJSON_components_witness :
  let c := RGBA.mk 0.5%float 0.5%float 0.5%float 0.5%float in
  let data := J "[null,2]" in
  parse_json data = Some (TArray [TNull; TNumber (B "2")]) /\
  snd (json_Unmarshal_floats 4 data [1; 1; 1; 1]%float) = None /\
  RGBA.R (fst (RGBA_UnmarshalJSON c data)) = 1%float /\
  RGBA.G (fst (RGBA_UnmarshalJSON c data)) = 2%float /\
  RGBA.A (fst (RGBA_UnmarshalJSON c data)) = 0%float.
Proof.
  intros c data.
  assert (parse_json data = Some (TArray [TNull; TNumber (B "2")])) as Hparse
    by (by vm_compute).
  assert (snd (json_Unmarshal_floats 4 data [1; 1; 1; 1]%float) = None) as Hok
    by (by vm_compute).
  assert (ParseFloat (B "2") = Some 2%float) as Htwo by (by vm_compute).
  destruct (RGBA_UnmarshalJSON_components c (RGB.mk 1%float 1%float 1%float) data)
    as (_ & _ & _ & Hcomp & _).
  split; [ exact Hparse | ]. split; [ exact Hok | ]. split; [ | split ].
  - apply (Hcomp _ 0%nat Hparse Hok ltac:(lia)). reflexivity.
  - apply (proj2 (proj2 (proj2 (Hcomp _ 1%nat Hparse Hok ltac:(lia)))) (B "2") 2%float
             eq_refl Htwo).
  - apply (Hcomp _ 3%nat Hparse Hok ltac:(lia)). simpl. lia.
Defined.

(** ** Encoding a texture reference and a camera *)

Lemma all_some_app_omitted {A} (l : list (option (list A))) :
  all_some (l ++ [Some []]) = (fun r => r ++ [[]]) <$> all_some l.
Proof.
  induction l as [|[x|] l IH]; [ reflexivity | | reflexivity ].
  simpl. rewrite IH. by destruct (all_some l).
Qed.

Lemma object_text_omitted_field (l : list (option (list bytes))) :
  (all_some (Some [] :: l) ≫= fun fs => Some (object_text (concat fs)))
  = (all_some (l ++ [Some []]) ≫= fun fs => Some (object_text (concat fs))).
Proof.
  rewrite all_some_app_omitted. simpl. destruct (all_some l) as [r|]; [ | reflexivity ].
  simpl. by rewrite concat_app, app_nil_r.
Qed.

Section Texture_theorems.

Context {ExtObject : Type}.
Variable MarshalExt : ExtObject -> option bytes.
Variable FormatFloat : float64 -> bytes.

Lemma NormalTexture_MarshalJSON_one exts extras index texCoord scale :
  PrimFloat.eqb scale 1%float = true ->
  NormalTexture_MarshalJSON MarshalExt FormatFloat
    (NormalTexture.mk exts extras index texCoord (Some scale))
  = NormalTexture_MarshalJSON MarshalExt FormatFloat
      (NormalTexture.mk exts extras index texCoord None).
Proof.
  intros Hone.
  unfold NormalTexture_MarshalJSON. cbn [ptr_eq NormalTexture.Scale]. rewrite Hone.
  unfold json_Marshal_NormalTexture_shadowed, json_Marshal_NormalTexture.
  cbn [NormalTexture.Scale is_None].
  change (PrimFloat.eqb 0 0) with true.
  change (field true "scale" (encode_float FormatFloat 0%float))
    with (@Some (list bytes) []).
  change (field true "scale" (None ≫= encode_float FormatFloat))
    with (@Some (list bytes) []).
  apply (object_text_omitted_field
           (NormalTexture_fields MarshalExt FormatFloat
              (NormalTexture.mk exts extras index texCoord None))).
Qed.

Lemma OcclusionTexture_MarshalJSON_one exts extras index texCoord strength :
  PrimFloat.eqb strength 1%float = true ->
  OcclusionTexture_MarshalJSON MarshalExt FormatFloat
    (OcclusionTexture.mk exts extras index texCoord (Some strength))
  = OcclusionTexture_MarshalJSON MarshalExt FormatFloat
      (OcclusionTexture.mk exts extras index texCoord None).
Proof.
  intros Hone.
  unfold OcclusionTexture_MarshalJSON. cbn [ptr_eq OcclusionTexture.Strength].
  rewrite Hone.
  unfold json_Marshal_OcclusionTexture_shadowed, json_Marshal_OcclusionTexture.
  cbn [OcclusionTexture.Strength is_None].
  change (PrimFloat.eqb 0 0) with true.
  change (field true "strength" (encode_float FormatFloat 0%float))
    with (@Some (list bytes) []).
  change (field true "strength" (None ≫= encode_float FormatFloat))
    with (@Some (list bytes) []).
  apply (object_text_omitted_field
           (OcclusionTexture_fields MarshalExt FormatFloat
              (OcclusionTexture.mk exts extras index texCoord None))).
Qed.

(** X19: [NormalTexture.MarshalJSON] and [OcclusionTexture.MarshalJSON]
    leave the default out by the structure of what they encode: a texture
    whose scale (strength) is 1 encodes exactly as the same texture
    without a scale (strength), whatever its extras and extensions hold. *)
Theorem Texture_MarshalJSON_default_omitted :
  (forall exts extras index texCoord scale,
     PrimFloat.eqb scale 1%float = true ->
     NormalTexture_MarshalJSON MarshalExt FormatFloat
       (NormalTexture.mk exts extras index texCoord (Some scale))
     = NormalTexture_MarshalJSON MarshalExt FormatFloat
         (NormalTexture.mk exts extras index texCoord None)) /\
  (forall exts extras index texCoord strength,
     PrimFloat.eqb strength 1%float = true ->
     OcclusionTexture_MarshalJSON MarshalExt FormatFloat
       (OcclusionTexture.mk exts extras index texCoord (Some strength))
     = OcclusionTexture_MarshalJSON MarshalExt FormatFloat
         (OcclusionTexture.mk exts extras index texCoord None)).
Proof.
  split.
  - apply NormalTexture_MarshalJSON_one.
  - apply OcclusionTexture_MarshalJSON_one.
Qed.

(** X21: the encoding of a texture reference depends on its scale
    (strength) only through [ScaleOrDefault] ([StrengthOrDefault]): two
    textures that agree on the other fields and for which the accessor
    returns the same number encode alike. *)
Theorem Texture_MarshalJSON_by_OrDefault :
  (forall exts extras index texCoord s s',
     NormalTexture_ScaleOrDefault (NormalTexture.mk (ExtObject:=ExtObject)
                                     exts extras index texCoord s)
       = NormalTexture_ScaleOrDefault (NormalTexture.mk exts extras index texCoord s') ->
     NormalTexture_MarshalJSON MarshalExt FormatFloat
       (NormalTexture.mk exts extras index texCoord s)
     = NormalTexture_MarshalJSON MarshalExt FormatFloat
         (NormalTexture.mk exts extras index texCoord s')) /\
  (forall exts extras index texCoord s s',
     OcclusionTexture_StrengthOrDefault (OcclusionTexture.mk (ExtObject:=ExtObject)
                                           exts extras index texCoord s)
       = OcclusionTexture_StrengthOrDefault
           (OcclusionTexture.mk exts extras index texCoord s') ->
     OcclusionTexture_MarshalJSON MarshalExt FormatFloat
       (OcclusionTexture.mk exts extras index texCoord s)
     = OcclusionTexture_MarshalJSON MarshalExt FormatFloat
         (OcclusionTexture.mk exts extras index texCoord s')).
Proof.
  split.
  - intros exts extras index texCoord [f|] [f'|] Heq;
      unfold NormalTexture_ScaleOrDefault in Heq; cbn [NormalTexture.Scale] in Heq.
    + by rewrite Heq.
    + rewrite Heq. by apply NormalTexture_MarshalJSON_one.
    + rewrite <- Heq. symmetry. by apply NormalTexture_MarshalJSON_one.
    + reflexivity.
  - intros exts extras index texCoord [f|] [f'|] Heq;
      unfold OcclusionTexture_StrengthOrDefault in Heq;
      cbn [OcclusionTexture.Strength] in Heq.
    + by rewrite Heq.
    + rewrite Heq. by apply OcclusionTexture_MarshalJSON_one.
    + rewrite <- Heq. symmetry. by apply OcclusionTexture_MarshalJSON_one.
    + reflexivity.
Qed.

(** X20: [Camera.MarshalJSON] returns its own error exactly when neither
    projection is set.  Otherwise it returns what [json.Marshal] gives,
    and a text so encoded starts with the member [type], whose value is
    [perspective] whenever the perspective is set, also when the
    orthographic projection is set as well, and [orthographic] else. *)
Theorem Camera_MarshalJSON_type (c : Camera.t ExtObject) :
  (Camera_MarshalJSON MarshalExt FormatFloat c =
     inr (errorString
            "gltf: camera must defined either the perspective or orthographic property")
   <-> Camera.Perspective _ c = None /\ Camera.Orthographic _ c = None) /\
  (forall text,
     Camera_MarshalJSON MarshalExt FormatFloat c = inl (Some text) ->
     HasPrefix text
       (if is_None (Camera.Perspective _ c)
        then J "{'type':'orthographic'" else J "{'type':'perspective'") = true).
Proof.
  assert (forall type text,
            json_Marshal_Camera_typed MarshalExt FormatFloat type c = Some text ->
            HasPrefix text (x7b :: member (B "type") (encode_string (B type))) = true)
    as Htyped.
  { intros type text. unfold json_Marshal_Camera_typed.
    change (field always "type" (Some (encode_string (B type))))
      with (Some [member (B "type") (encode_string (B type))]).
    cbn [all_some].
    destruct (all_some (Camera_fields MarshalExt FormatFloat c)) as [fs|];
      [ | discriminate ].
    cbn [mbind option_bind concat app]. intros [= <-]. unfold object_text.
    apply HasPrefix_spec.
    destruct (concat fs) as [|f rest].
    - by eexists.
    - eexists. cbn [join_comma app]. rewrite <- !app_assoc. reflexivity. }
  assert (J "{'type':'perspective'"
          = x7b :: member (B "type") (encode_string (B "perspective"))) as Hpersp
    by (vm_compute; reflexivity).
  assert (J "{'type':'orthographic'"
          = x7b :: member (B "type") (encode_string (B "orthographic"))) as Hortho
    by (vm_compute; reflexivity).
  unfold Camera_MarshalJSON. split.
  - destruct (Camera.Perspective _ c) as [p|], (Camera.Orthographic _ c) as [o|];
      cbn [is_None negb]; split.
    + intros H. congruence.
    + intros [H _]. congruence.
    + intros H. congruence.
    + intros [H _]. congruence.
    + intros H. congruence.
    + intros [_ H]. congruence.
    + intros _. split; reflexivity.
    + intros _. reflexivity.
  - intros text. destruct (Camera.Perspective _ c) as [p|]; cbn [is_None negb].
    + intros [= H]. rewrite Hpersp. exact (Htyped "perspective"%string text H).
    + destruct (Camera.Orthographic _ c) as [o|]; cbn [is_None negb]; [ | discriminate ].
      intros [= H]. rewrite Hortho. exact (Htyped "orthographic"%string text H).
Qed.

End Texture_theorems.

Lemma Texture_MarshalJSON_default_omitted_witness :
  PrimFloat.eqb 1%float 1%float = true /\
  NormalTexture_MarshalJSON no_MarshalExt FormatFloat_integral normalTexture_one
    = Some (J "{'extras':{'scale':1},'index':2}").
Proof.
  split; [ reflexivity | ].
  etrans.
  - exact (proj1 (Texture_MarshalJSON_default_omitted no_MarshalExt FormatFloat_integral)
             ∅ (VObject [(B "scale", VNumber 1%float)]) (Some 2) 0 1%float eq_refl).
  - by vm_compute.
Defined.

Lemma Camera_MarshalJSON_type_witness :
  Camera_MarshalJSON no_MarshalExt FormatFloat_integral camera_both
    = inl (Some (J "{'type':'perspective','orthographic':{'xmag':1,'ymag':1,'zfar':2,'znear':1},'perspective':{'yfov':1,'znear':1}}")) /\
  HasPrefix (J "{'type':'perspective','orthographic':{'xmag':1,'ymag':1,'zfar':2,'znear':1},'perspective':{'yfov':1,'znear':1}}")
    (J "{'type':'perspective'") = true.
Proof.
  assert (Camera_MarshalJSON no_MarshalExt FormatFloat_integral camera_both
    = inl (Some (J "{'type':'perspective','orthographic':{'xmag':1,'ymag':1,'zfar':2,'znear':1},'perspective':{'yfov':1,'znear':1}}")))
    as Hrun by (by vm_compute).
  split; [ exact Hrun | ].
  exact (proj2 (Camera_MarshalJSON_type no_MarshalExt FormatFloat_integral camera_both)
           _ Hrun).
Defined.

Lemma Texture_MarshalJSON_by_OrDefault_witness :
  OcclusionTexture_StrengthOrDefault occlusionTexture_one
    = OcclusionTexture_StrengthOrDefault
        (OcclusionTexture.mk (ExtObject:=Empty_set) ∅ VNull (Some 0) 1 None) /\
  OcclusionTexture_MarshalJSON no_MarshalExt FormatFloat_integral occlusionTexture_one
    = Some (J "{'index':0,'texCoord':1}").
Proof.
  assert (OcclusionTexture_StrengthOrDefault occlusionTexture_one
          = OcclusionTexture_StrengthOrDefault
              (OcclusionTexture.mk (ExtObject:=Empty_set) ∅ VNull (Some 0) 1 None)) as Hsame
    by reflexivity.
  split; [ exact Hsame | ]. etrans.
  - exact (proj2 (Texture_MarshalJSON_by_OrDefault no_MarshalExt FormatFloat_integral)
             _ _ _ _ _ _ Hsame).
  - by vm_compute.
Defined.

(** ** A container that ends inside the header of the binary chunk *)

(** X22: when the input ends before the 8 bytes of the chunk header are
    there (fewer than 8 bytes are buffered and the underlying reader is
    exhausted), [decodeBinaryBuffer] fails and leaves the buffer as it
    was: with [io.EOF] when nothing is left at all, with
    [io.ErrUnexpectedEOF] when the header is cut short. *)
Theorem decodeBinaryBuffer_truncated_header (d : Decoder) (b : Buffer) :
  validateBuffer d b = None ->
  b_rd (r d) = [] -> b_err (r d) = None ->
  (length (b_buf (r d)) < 8)%nat ->
  decodeBinaryBuffer d b =
    (set_r d (BufioReader [] [] None), b,
     Some (match b_buf (r d) with [] => io_EOF | _ :: _ => io_ErrUnexpectedEOF end)).
Proof.
  intros Hvalid Hrd Herr Hlen. unfold decodeBinaryBuffer. rewrite Hvalid.
  destruct d as [[buf rd err] cb0 q]. cbn [r b_buf b_rd b_err] in *. subst rd err.
  do 8 (destruct buf as [|? buf]; [ reflexivity | ]).
  simpl in Hlen. lia.
Qed.

Lemma decodeBinaryBuffer_truncated_header_witness :
  let d := decoder_truncated in
  validateBuffer d buffer_binary = None /\
  b_rd (r d) = [] /\ b_err (r d) = None /\ (length (b_buf (r d)) < 8)%nat /\
  decodeBinaryBuffer d buffer_binary =
    (set_r d (BufioReader [] [] None), buffer_binary, Some io_ErrUnexpectedEOF).
Proof.
  intros d.
  assert (length (b_buf (r d)) < 8)%nat as Hlen by (simpl; lia).
  split; [ reflexivity | ]. split; [ reflexivity | ]. split; [ reflexivity | ].
  split; [ exact Hlen | ].
  exact (decodeBinaryBuffer_truncated_header d buffer_binary eq_refl eq_refl eq_refl Hlen).
Defined.

(** ** What decodeBinaryBuffer takes from the input, in general *)

Lemma bufio_Read_unread b k data err b' :
  bufio_Read b k = ((data, err), b') ->
  data ++ unread b' = unread b /\ (length data <= k)%nat.
Proof.
  unfold bufio_Read, unread. destruct b as [buf rd e]. cbn [b_buf b_rd b_err readErr].
  destruct k as [|k].
  - destruct buf as [|c buf]; intros [= <- <- <-]; by split.
  - destruct buf as [|c buf].
    + destruct e as [e|]; [ intros [= <- <- <-]; split; [ reflexivity | simpl; lia ] | ].
      destruct (defaultBufSize <=? S k)%nat.
      * destruct (Reader_Read rd (S k)) as [[data0 err0] rd'] eqn:Hread.
        apply Reader_Read_pending in Hread as [Hpend Hlen].
        intros [= <- <- <-]. by split.
      * destruct (Reader_Read rd defaultBufSize) as [[data0 err0] rd'] eqn:Hread.
        apply Reader_Read_pending in Hread as [Hpend Hlen].
        destruct data0 as [|c data0]; intros [= <- <- <-]; cbn [b_buf b_rd].
        -- split; [ exact Hpend | simpl; lia ].
        -- simpl. split; [ | rewrite length_firstn; lia ].
           rewrite <- Hpend. simpl. f_equal. by rewrite app_assoc, firstn_skipn.
    + intros [= <- <- <-]. simpl. split; [ | rewrite length_firstn; lia ].
      f_equal. by rewrite app_assoc, firstn_skipn.
Qed.

Lemma ReadFull_loop_unread fuel b k got bs err b' :
  (length got <= k)%nat ->
  ReadFull_loop fuel b k got = ((bs, err), b') ->
  bs ++ unread b' = got ++ unread b /\ (length bs <= k)%nat /\
  (err = None -> length bs = k).
Proof.
  revert b got. induction fuel as [|fuel IH]; intros b got Hgot; cbn [ReadFull_loop].
  { intros [= <- <- <-]. by repeat split. }
  destruct (Nat.leb_spec k (length got)) as [Hfull|Hmore].
  { intros [= <- <- <-]. repeat split; [ exact Hgot | intros _; lia ]. }
  destruct (bufio_Read b (k - length got)) as [[data e] b1] eqn:Hread.
  apply bufio_Read_unread in Hread as [Hdata Hlen].
  assert (length (got ++ data) <= k)%nat as Hgot' by (rewrite length_app; lia).
  assert ((got ++ data) ++ unread b1 = got ++ unread b) as Hsame
    by (by rewrite <- app_assoc, Hdata).
  destruct e as [e|].
  - destruct (Nat.leb_spec k (length (got ++ data))) as [Hfull'|Hmore'].
    + intros [= <- <- <-]. repeat split; [ exact Hsame | exact Hgot' | intros _; lia ].
    + destruct (got ++ data) as [|c rest] eqn:Hgd.
      * intros [= <- <- <-]. repeat split; [ exact Hsame | exact Hgot' | discriminate ].
      * destruct e; intros [= <- <- <-];
          (repeat split; [ exact Hsame | exact Hgot' | discriminate ]).
  - intros Hloop. apply IH in Hloop as (Hbs & Hlenbs & Hk); [ | exact Hgot' ].
    repeat split; [ by rewrite Hbs | exact Hlenbs | exact Hk ].
Qed.

Lemma io_ReadFull_unread b k bs err b' :
  io_ReadFull b k = ((bs, err), b') ->
  bs ++ unread b' = unread b /\ (length bs <= k)%nat /\
  (err = None ->
   length bs = k /\ bs = firstn k (unread b) /\ unread b' = skipn k (unread b)).
Proof.
  unfold io_ReadFull. intros Hloop.
  apply ReadFull_loop_unread in Hloop as (Hbs & Hlen & Hk); [ | simpl; lia ].
  simpl in Hbs. split; [ exact Hbs | ]. split; [ exact Hlen | ]. intros ->.
  specialize (Hk eq_refl). split; [ exact Hk | ]. split.
  - rewrite <- Hbs, firstn_app, (firstn_all2 bs) by lia.
    rewrite Hk, Nat.sub_diag. simpl. by rewrite app_nil_r.
  - rewrite <- Hbs, skipn_app, (skipn_all2 bs) by lia.
    by rewrite Hk, Nat.sub_diag.
Qed.

(** X23: whatever the input and however it arrives, [decodeBinaryBuffer]
    stores no byte that is not of the chunk.  Either the buffer is left as
    it was and at most the 8 bytes of the header are taken from [d.r]; or
    the header is a binary chunk header long enough for [byteLength], and
    [Data] becomes some leading bytes of what follows the header, at most
    [byteLength] of them, padded with zeros to [byteLength], and exactly
    the header and those bytes are taken from [d.r]. *)
Theorem decodeBinaryBuffer_takes (d : Decoder) (b : Buffer) :
  let '(d', b', err) := decodeBinaryBuffer d b in
  let n := Z.to_nat (ByteLength b) in
  (b' = b /\ err <> None /\
   exists taken, taken ++ unread (r d') = unread (r d) /\ (length taken <= 8)%nat) \/
  (exists m,
     (m <= n)%nat /\
     let header := parse_chunkHeader (firstn 8 (unread (r d))) in
     let payload := skipn 8 (unread (r d)) in
     ch_Type header = glbChunkBIN /\ ByteLength b <= ch_Length header /\
     (8 <= length (unread (r d)))%nat /\
     declared b' = declared b /\
     Data b' = firstn m payload ++ repeat x00 (n - m) /\
     (m <= length payload)%nat /\
     unread (r d') = skipn m payload).
Proof.
  unfold decodeBinaryBuffer.
  destruct (validateBuffer d b) as [e|].
  { left. split; [ reflexivity | ]. split; [ discriminate | ]. exists []. split; [ reflexivity | simpl; lia ]. }
  unfold read_chunkHeader.
  destruct (io_ReadFull (r d) (Z.to_nat sizeof_chunkHeader)) as [[bs err] r1] eqn:Hfull.
  apply io_ReadFull_unread in Hfull as (Hbs & Hlen & Hok).
  change (Z.to_nat sizeof_chunkHeader) with 8%nat in *.
  destruct err as [e|].
  { left. split; [ reflexivity | ]. split; [ discriminate | ]. exists bs. split; [ exact Hbs | lia ]. }
  destruct (Hok eq_refl) as (H8 & Hfirst & Hrest). clear Hok.
  assert (8 <= length (unread (r d)))%nat as Hlong.
  { rewrite <- Hbs, length_app. lia. }
  destruct (Z.eqb_spec (ch_Type (parse_chunkHeader bs)) glbChunkBIN) as [Ht|Ht];
    cbn [negb orb].
  2:{ left. split; [ reflexivity | ]. split; [ discriminate | ]. exists bs. split; [ exact Hbs | lia ]. }
  destruct (Z.ltb_spec (ch_Length (parse_chunkHeader bs)) (ByteLength b)) as [Hl|Hl].
  { left. split; [ reflexivity | ]. split; [ discriminate | ]. exists bs. split; [ exact Hbs | lia ]. }
  cbn [r set_r].
  destruct (bufio_Read r1 (length (make (ByteLength b)))) as [[data e] r2] eqn:Hread.
  apply bufio_Read_unread in Hread as [Hdata Hdlen].
  unfold make in *. rewrite repeat_length in Hdlen.
  right. exists (length data). cbn [r set_r Data set_Data].
  assert (data = firstn (length data) (skipn 8 (unread (r d)))) as Hprefix.
  { rewrite <- Hrest, <- Hdata, firstn_app, Nat.sub_diag, firstn_all. simpl.
    by rewrite app_nil_r. }
  assert (length data <= length (skipn 8 (unread (r d))))%nat as Hfits.
  { rewrite <- Hrest, <- Hdata, length_app. lia. }
  split; [ exact Hdlen | ].
  rewrite <- Hfirst.
  split; [ exact Ht | ]. split; [ lia | ]. split; [ exact Hlong | ].
  split; [ reflexivity | ].
  split.
  { unfold stored. rewrite skipn_repeat_x00. by rewrite <- Hprefix. }
  split; [ exact Hfits | ].
  rewrite <- Hrest, <- Hdata, skipn_app, Nat.sub_diag, skipn_all. reflexivity.
Qed.
